(** * The App Store report parser (src/lib/parser.ts), embedded in Rocq

    The parsing and aggregation engine of the repository is translated
    function by function: delimiter detection, metadata extraction, the two
    boundary scans, row decoding, the three aggregations and the assembly of
    the report.  JavaScript values are modelled as the engine sees them:

    - a string is the list of its UTF-16 code units;
    - a number is an IEEE 754 binary64 value (Rocq's primitive [float]);
    - [undefined] is [None];
    - a thrown exception is the [Throw] branch of [result];
    - a [Map] is an association list in insertion order. *)

From Stdlib Require Import String Ascii.
From Stdlib Require Import List NArith ZArith Lia Bool.
From Stdlib Require Import Permutation Sorted.
From Stdlib Require Import Floats.PrimFloat Floats.SpecFloat Floats.FloatOps.
Import ListNotations.

Set Warnings "-inexact-float".

(* ================================================================= *)
(** ** JavaScript strings *)

Module JS.

(** A string is a sequence of UTF-16 code units. *)
Definition str : Type := list N.

(** String literals of the source, written as Rocq strings. *)
Definition lit (s : String.string) : str :=
  map Ascii.N_of_ascii (String.list_ascii_of_string s).
Arguments lit s%_string.

Definition LF : N := 10%N.
Definition TAB : N := 9%N.
Definition COMMA : N := 44%N.

Definition str_eqb (a b : str) : bool :=
  if list_eq_dec N.eq_dec a b then true else false.

Definition ostr_eqb (a b : option str) : bool :=
  match a, b with
  | Some x, Some y => str_eqb x y
  | None, None => true
  | _, _ => false
  end.

(** [!s] is false exactly for the empty string. *)
Definition truthy (s : str) : bool :=
  match s with [] => false | _ :: _ => true end.

(** WhiteSpace and LineTerminator code units, as [String.prototype.trim]
    and [parseInt]/[parseFloat] strip them. *)
Definition isWhiteSpace (c : N) : bool :=
  (N.eqb c 9 || N.eqb c 10 || N.eqb c 11 || N.eqb c 12 || N.eqb c 13 ||
   N.eqb c 32 || N.eqb c 160 || N.eqb c 5760 ||
   (N.leb 8192 c && N.leb c 8202) ||
   N.eqb c 8232 || N.eqb c 8233 || N.eqb c 8239 || N.eqb c 8287 ||
   N.eqb c 12288 || N.eqb c 65279)%bool.

Fixpoint trimStart (s : str) : str :=
  match s with
  | [] => []
  | c :: s' => if isWhiteSpace c then trimStart s' else s
  end.

Definition trimEnd (s : str) : str := rev (trimStart (rev s)).

Definition trim (s : str) : str := trimEnd (trimStart s).

(** [s.startsWith(p)] *)
Fixpoint startsWith (s p : str) {struct p} : bool :=
  match p, s with
  | [], _ => true
  | _ :: _, [] => false
  | a :: p', b :: s' => N.eqb a b && startsWith s' p'
  end.

(** [s.includes(p)] *)
Fixpoint includes (s p : str) : bool :=
  startsWith s p ||
  match s with
  | [] => false
  | _ :: s' => includes s' p
  end.

(** [s.split(sep)]: [skip] counts the code units of a matched separator that
    are still to be passed over, [acc] is the current field, reversed. *)
Fixpoint splitAux (sep : str) (skip : nat) (acc : str) (s : str) : list str :=
  match s with
  | [] => [rev acc]
  | c :: s' =>
      match skip with
      | S k => splitAux sep k acc s'
      | O =>
          if startsWith s sep
          then rev acc :: splitAux sep (length sep - 1) [] s'
          else splitAux sep 0 (c :: acc) s'
      end
  end.

Definition split (s sep : str) : list str :=
  match sep with
  | [] => map (fun c => [c]) s
  | _ :: _ => splitAux sep 0 [] s
  end.

(** [a.join(sep)] *)
Fixpoint join (a : list str) (sep : str) : str :=
  match a with
  | [] => []
  | [x] => x
  | x :: rest => x ++ sep ++ join rest sep
  end.

(** [(s.match(/c/g) || []).length] for a one-unit pattern [c]. *)
Definition countMatches (c : N) (s : str) : nat := count_occ N.eq_dec s c.

(** Template literals print [undefined] as the text "undefined"; so does the
    argument conversion of [localeCompare]. *)
Definition toStr (o : option str) : str :=
  match o with Some s => s | None => lit "undefined" end.

(* ----------------------------------------------------------------- *)
(** *** Numbers *)

(** A JavaScript number is a binary64 value. *)
Definition number : Type := float.

(** The Number value of an integer: round to nearest, ties to even. *)
Definition ofInteger (neg : bool) (m : Z) : number :=
  SF2Prim (binary_normalize prec emax (if neg then Z.opp m else m) 0 neg).

(** The Number value of [m / d]. *)
Definition ofRatio (neg : bool) (m d : positive) : number :=
  SF2Prim (SFdiv prec emax (S754_finite neg m 0) (S754_finite false d 0)).

(** The Number value of [m * 10 ^ e10], [m >= 0].  (The language lets an
    engine round a literal of more than 20 significant digits either way at
    the 20th digit; this is the correctly rounded value.) *)
Definition ofDecimal (neg : bool) (m e10 : Z) : number :=
  match m with
  | Zpos p =>
      if Z.leb 0 e10 then ofInteger neg (m * 10 ^ e10)
      else ofRatio neg p (Z.to_pos (10 ^ (- e10)))
  | _ => if neg then neg_zero else zero
  end.

Definition isDigit (c : N) : bool := N.leb 48 c && N.leb c 57.

Definition digitVal (c : N) : Z := Z.of_N c - 48.

Definition digitsValue (ds : str) : Z :=
  fold_left (fun acc c => 10 * acc + digitVal c)%Z ds 0%Z.

(** The longest prefix of [s] whose units satisfy [p], and the rest. *)
Fixpoint span (p : N -> bool) (s : str) : str * str :=
  match s with
  | [] => ([], [])
  | c :: s' =>
      if p c then let (a, b) := span p s' in (c :: a, b) else ([], s)
  end.

(** An optional leading [+] or [-]: is it a minus, and the rest. *)
Definition readSign (s : str) : bool * str :=
  match s with
  | c :: r =>
      if N.eqb c 45 then (true, r)
      else if N.eqb c 43 then (false, r)
      else (false, s)
  | [] => (false, [])
  end.

(** [parseInt(s, 10)] *)
Definition parseInt10 (s : str) : number :=
  let (neg, r) := readSign (trimStart s) in
  let (ds, _) := span isDigit r in
  match ds with
  | [] => nan
  | _ :: _ => ofInteger neg (digitsValue ds)
  end.

(** The exponent part [e|E [+|-] digits] at the head of [s], 0 when there is
    none or it is incomplete. *)
Definition readExponent (s : str) : Z :=
  match s with
  | c :: r =>
      if N.eqb c 101 || N.eqb c 69 then
        let (eneg, r') := readSign r in
        let (ed, _) := span isDigit r' in
        match ed with
        | [] => 0%Z
        | _ :: _ => if eneg then Z.opp (digitsValue ed) else digitsValue ed
        end
      else 0%Z
  | [] => 0%Z
  end.

(** [parseFloat(s)]: the value of the longest prefix of the left-trimmed
    string that is a StrDecimalLiteral, [NaN] when there is none. *)
Definition parseFloat (s : str) : number :=
  let (neg, r) := readSign (trimStart s) in
  if startsWith r (lit "Infinity")
  then (if neg then neg_infinity else infinity)
  else
    let (ip, r1) := span isDigit r in
    let (fp, r2) :=
      match r1 with
      | c :: r' => if N.eqb c 46 then span isDigit r' else ([], r1)
      | [] => ([], r1)
      end in
    match ip, fp with
    | [], [] => nan
    | _, _ =>
        ofDecimal neg (digitsValue (ip ++ fp))
                  (readExponent r2 - Z.of_nat (length fp))
    end.

(** [x || 0] on a number: [NaN], [+0] and [-0] are falsy. *)
Definition orZero (x : number) : number :=
  if is_nan x || is_zero x then zero else x.

(** [a + b] where either operand may be [undefined] (numbers otherwise):
    the result is always a number, [NaN] when an operand is [undefined]. *)
Definition jsAdd (a b : option number) : option number :=
  Some (match a, b with
        | Some x, Some y => PrimFloat.add x y
        | _, _ => nan
        end).

(* ----------------------------------------------------------------- *)
(** *** Exceptions *)

Inductive Exn : Type :=
| Error (message : String.string)
| TypeError.

Inductive result (A : Type) : Type :=
| Ok (a : A)
| Throw (e : Exn).
Arguments Ok {A} a.
Arguments Throw {A} e.

Definition bind {A B : Type} (r : result A) (k : A -> result B) : result B :=
  match r with
  | Ok a => k a
  | Throw e => Throw e
  end.

Notation "x <- c1 ;; c2" := (bind c1 (fun x => c2))
  (at level 61, c1 at next level, right associativity).

(* ----------------------------------------------------------------- *)
(** *** Array.prototype.sort

    The language fixes that the sort is stable and leaves the sequence of
    comparator calls to the engine.  It is modelled as a stable insertion
    sort that calls the comparator with the later element first, as V8's
    binary insertion does; a comparator that throws aborts the sort.  An
    array of fewer than two elements is never compared, one of two or more
    always is. *)

Section Sort.
Context {A : Type} (cmp : A -> A -> result Z).

Fixpoint insertM (x : A) (l : list A) : result (list A) :=
  match l with
  | [] => Ok [x]
  | y :: l' =>
      bind (cmp x y) (fun c =>
        if Z.ltb c 0 then Ok (x :: y :: l')
        else bind (insertM x l') (fun r => Ok (y :: r)))
  end.

(** The elements are placed one by one, in array order, each after the
    already placed elements it does not sort before. *)
Definition sortM (l : list A) : result (list A) :=
  fold_left (fun acc x => bind acc (insertM x)) l (Ok []).
End Sort.

(* ----------------------------------------------------------------- *)
(** *** Map

    A [Map] keeps its entries in the order in which their keys were first
    set; setting an existing key replaces the value where it stands. *)

Section JsMap.
Context {K V : Type} (eqb : K -> K -> bool).

Fixpoint map_get (m : list (K * V)) (k : K) : option V :=
  match m with
  | [] => None
  | (k', v) :: m' => if eqb k' k then Some v else map_get m' k
  end.

Fixpoint map_set (m : list (K * V)) (k : K) (v : V) : list (K * V) :=
  match m with
  | [] => [(k, v)]
  | (k', v') :: m' =>
      if eqb k' k then (k', v) :: m' else (k', v') :: map_set m' k v
  end.

Definition map_values (m : list (K * V)) : list V := map snd m.
End JsMap.

End JS.

Import JS.

(* ================================================================= *)
(** ** Data model (src/lib/types.ts) *)

Module ReportMetadata.
Record t : Type := mk {
  vendorName : str;
  startDate : str;
  endDate : str
}.
End ReportMetadata.

(** A transaction is built as a [Partial<Transaction>] and cast: any field
    may be [undefined]. *)
Module Transaction.
Record t : Type := mk {
  transactionDate : option str;
  settlementDate : option str;
  appleIdentifier : option str;
  sku : option str;
  title : option str;
  developerName : option str;
  productTypeIdentifier : option str;
  countryOfSale : option str;
  quantity : option number;
  partnerShare : option number;
  extendedPartnerShare : option number;
  partnerShareCurrency : option str;
  customerPrice : option number;
  customerCurrency : option str;
  saleOrReturn : option str;
  promoCode : option str;
  orderType : option str;
  region : option str
}.

(** [{}] *)
Definition empty : t :=
  mk None None None None None None None None None
     None None None None None None None None None.
End Transaction.

Module CountryBreakdown.
Record t : Type := mk {
  countryOfSale : option str;
  currency : option str;
  quantity : option number;
  proceeds : option number
}.
End CountryBreakdown.

(** [proceedsByCurrency] is a plain object used as a map from currency code
    to amount: an association list in first-insertion order.  (The engine's
    special treatment of integer-like property names and of the names
    inherited from [Object.prototype], [__proto__] among them, is outside
    this model; no currency code of a report is either.) *)
Module ProductBreakdown.
Record t : Type := mk {
  title : option str;
  sku : option str;
  quantity : option number;
  proceedsByCurrency : list (str * option number)
}.
End ProductBreakdown.

Module CurrencySummary.
Record t : Type := mk {
  currency : option str;
  totalProceeds : option number;
  totalQuantity : option number
}.
End CurrencySummary.

Module Summary.
Record t : Type := mk {
  byCountry : list CountryBreakdown.t;
  byProduct : list ProductBreakdown.t;
  byCurrency : list CurrencySummary.t;
  totalTransactions : nat
}.
End Summary.

Module ParsedReport.
Record t : Type := mk {
  metadata : ReportMetadata.t;
  transactions : list Transaction.t;
  summary : Summary.t
}.
End ParsedReport.

Module ValidationResult.
Record t : Type := mk {
  valid : bool;
  errors : list str;
  warnings : list str
}.
End ValidationResult.

(* ================================================================= *)
(** ** The column tables *)

Definition REQUIRED_COLUMNS : list str :=
  [ lit "Country of Sale";
    lit "Partner Share Currency";
    lit "Quantity";
    lit "Extended Partner Share" ].

(** The property names of [Transaction]. *)
Inductive Key : Type :=
| K_transactionDate | K_settlementDate | K_appleIdentifier | K_sku | K_title
| K_developerName | K_productTypeIdentifier | K_countryOfSale | K_quantity
| K_partnerShare | K_extendedPartnerShare | K_partnerShareCurrency
| K_customerPrice | K_customerCurrency | K_saleOrReturn | K_promoCode
| K_orderType | K_region.

Definition Key_eqb (a b : Key) : bool :=
  match a, b with
  | K_transactionDate, K_transactionDate
  | K_settlementDate, K_settlementDate
  | K_appleIdentifier, K_appleIdentifier
  | K_sku, K_sku
  | K_title, K_title
  | K_developerName, K_developerName
  | K_productTypeIdentifier, K_productTypeIdentifier
  | K_countryOfSale, K_countryOfSale
  | K_quantity, K_quantity
  | K_partnerShare, K_partnerShare
  | K_extendedPartnerShare, K_extendedPartnerShare
  | K_partnerShareCurrency, K_partnerShareCurrency
  | K_customerPrice, K_customerPrice
  | K_customerCurrency, K_customerCurrency
  | K_saleOrReturn, K_saleOrReturn
  | K_promoCode, K_promoCode
  | K_orderType, K_orderType
  | K_region, K_region => true
  | _, _ => false
  end.

Definition COLUMN_MAP_entries : list (str * Key) :=
  [ (lit "Transaction Date", K_transactionDate);
    (lit "Settlement Date", K_settlementDate);
    (lit "Apple Identifier", K_appleIdentifier);
    (lit "SKU", K_sku);
    (lit "Title", K_title);
    (lit "Developer Name", K_developerName);
    (lit "Product Type Identifier", K_productTypeIdentifier);
    (lit "Country of Sale", K_countryOfSale);
    (lit "Quantity", K_quantity);
    (lit "Partner Share", K_partnerShare);
    (lit "Extended Partner Share", K_extendedPartnerShare);
    (lit "Partner Share Currency", K_partnerShareCurrency);
    (lit "Customer Price", K_customerPrice);
    (lit "Customer Currency", K_customerCurrency);
    (lit "Sale or Return", K_saleOrReturn);
    (lit "Promo Code", K_promoCode);
    (lit "Order Type", K_orderType);
    (lit "Region", K_region) ].

(** [COLUMN_MAP[header]], when it is a property name of [Transaction].  (For
    a header that names a property inherited from [Object.prototype] the
    source stores the cell under a name that is no field of [Transaction];
    no field below is touched, as for an unknown header.) *)
Definition COLUMN_MAP (header : str) : option Key :=
  map_get str_eqb COLUMN_MAP_entries header.

(* ================================================================= *)
(** ** detectDelimiter *)

Definition detectDelimiter (content : str) : str :=
  let firstLines := join (firstn 5 (split content [LF])) [LF] in
  let tabCount := countMatches TAB firstLines in
  let commaCount := countMatches COMMA firstLines in
  if Nat.ltb commaCount tabCount then [TAB] else [COMMA].

(* ================================================================= *)
(** ** parseMetadata *)

Definition parseMetadata (lines : list str) (delimiter : str)
  : ReportMetadata.t :=
  fold_left
    (fun metadata line =>
       let parts := split line delimiter in
       if Nat.leb 2 (length parts) then
         let key := trim (nth 0 parts []) in
         let value := trim (nth 1 parts []) in
         if str_eqb key (lit "Vendor Name") then
           ReportMetadata.mk value (ReportMetadata.startDate metadata)
                             (ReportMetadata.endDate metadata)
         else if str_eqb key (lit "Start Date") then
           ReportMetadata.mk (ReportMetadata.vendorName metadata) value
                             (ReportMetadata.endDate metadata)
         else if str_eqb key (lit "End Date") then
           ReportMetadata.mk (ReportMetadata.vendorName metadata)
                             (ReportMetadata.startDate metadata) value
         else metadata
       else metadata)
    (firstn 5 lines)
    (ReportMetadata.mk [] [] []).

(* ================================================================= *)
(** ** The boundary scans *)

(** The test of the header scan on one line. *)
Definition isHeaderLine (line : str) : bool :=
  includes line (lit "Transaction Date") && includes line (lit "Country of Sale").

(** The forward loop of [findHeaderLine] from index [i] over the lines still
    inside the window. *)
Fixpoint findHeaderFrom (i : nat) (window : list str) : Z :=
  match window with
  | [] => (-1)%Z
  | line :: rest =>
      if isHeaderLine line then Z.of_nat i else findHeaderFrom (S i) rest
  end.

(** [Math.min(lines.length, 10)] bounds the loop: the window is the first
    ten lines.  The delimiter is not used. *)
Definition findHeaderLine (lines : list str) (delimiter : str) : Z :=
  findHeaderFrom 0 (firstn 10 lines).

(** The test of the summary scan on one line. *)
Definition isSummaryLine (rawLine : str) (delimiter : str) : bool :=
  let line := trim rawLine in
  if startsWith line (lit "Country Of Sale") || startsWith line (lit "Country of Sale")
  then
    let parts := split line delimiter in
    Nat.leb (length parts) 5
  else false.

(** The backward loop of [findSummaryLine]: [n] is [i + 1]. *)
Fixpoint findSummaryFrom (n : nat) (lines : list str) (delimiter : str)
  : option nat :=
  match n with
  | O => None
  | S i =>
      if isSummaryLine (nth i lines []) delimiter then Some i
      else findSummaryFrom i lines delimiter
  end.

Definition findSummaryLine (lines : list str) (delimiter : str) : Z :=
  match findSummaryFrom (length lines) lines delimiter with
  | Some i => Z.of_nat i
  | None => Z.of_nat (length lines)
  end.

(* ================================================================= *)
(** ** parseTransaction *)

(** [transaction[k] = v] for a text field [k]; the numeric fields are left
    as they are. *)
Definition setStr (k : Key) (v : str) (t : Transaction.t) : Transaction.t :=
  let f k' old := if Key_eqb k k' then Some v else old in
  Transaction.mk
    (f K_transactionDate (Transaction.transactionDate t))
    (f K_settlementDate (Transaction.settlementDate t))
    (f K_appleIdentifier (Transaction.appleIdentifier t))
    (f K_sku (Transaction.sku t))
    (f K_title (Transaction.title t))
    (f K_developerName (Transaction.developerName t))
    (f K_productTypeIdentifier (Transaction.productTypeIdentifier t))
    (f K_countryOfSale (Transaction.countryOfSale t))
    (Transaction.quantity t)
    (Transaction.partnerShare t)
    (Transaction.extendedPartnerShare t)
    (f K_partnerShareCurrency (Transaction.partnerShareCurrency t))
    (Transaction.customerPrice t)
    (f K_customerCurrency (Transaction.customerCurrency t))
    (f K_saleOrReturn (Transaction.saleOrReturn t))
    (f K_promoCode (Transaction.promoCode t))
    (f K_orderType (Transaction.orderType t))
    (f K_region (Transaction.region t)).

(** [transaction[k] = v] for a numeric field [k]. *)
Definition setNum (k : Key) (v : number) (t : Transaction.t) : Transaction.t :=
  let f k' old := if Key_eqb k k' then Some v else old in
  Transaction.mk
    (Transaction.transactionDate t)
    (Transaction.settlementDate t)
    (Transaction.appleIdentifier t)
    (Transaction.sku t)
    (Transaction.title t)
    (Transaction.developerName t)
    (Transaction.productTypeIdentifier t)
    (Transaction.countryOfSale t)
    (f K_quantity (Transaction.quantity t))
    (f K_partnerShare (Transaction.partnerShare t))
    (f K_extendedPartnerShare (Transaction.extendedPartnerShare t))
    (Transaction.partnerShareCurrency t)
    (f K_customerPrice (Transaction.customerPrice t))
    (Transaction.customerCurrency t)
    (Transaction.saleOrReturn t)
    (Transaction.promoCode t)
    (Transaction.orderType t)
    (Transaction.region t).

(** [row[i]?.trim() ?? ''] *)
Definition cell (row : list str) (i : nat) : str :=
  match nth_error row i with
  | Some c => trim c
  | None => []
  end.

(** The body of the loop once [mappedKey] is known. *)
Definition assign (mappedKey : Key) (value : str) (t : Transaction.t)
  : Transaction.t :=
  match mappedKey with
  | K_quantity => setNum mappedKey (orZero (parseInt10 value)) t
  | K_partnerShare | K_extendedPartnerShare | K_customerPrice =>
      setNum mappedKey (orZero (parseFloat value)) t
  | _ => setStr mappedKey value t
  end.

(** The loop over the header positions, from position [i]. *)
Fixpoint decodeFrom (i : nat) (headers : list str) (row : list str)
  (transaction : Transaction.t) : Transaction.t :=
  match headers with
  | [] => transaction
  | header :: rest =>
      let value := cell row i in
      decodeFrom (S i) rest row
        match COLUMN_MAP header with
        | Some mappedKey => assign mappedKey value transaction
        | None => transaction
        end
  end.

(** [!x] for a field that is a string or [undefined]. *)
Definition falsy (x : option str) : bool :=
  match x with
  | Some (_ :: _) => false
  | _ => true
  end.

Definition parseTransaction (row headers : list str) : option Transaction.t :=
  let transaction := decodeFrom 0 headers row Transaction.empty in
  if falsy (Transaction.countryOfSale transaction)
     || falsy (Transaction.partnerShareCurrency transaction)
  then None
  else Some transaction.

(* ================================================================= *)
(** ** validateReport *)

Definition nonBlankLines (content : str) : list str :=
  filter (fun l => truthy (trim l)) (split content [LF]).

Definition validateReport (content delimiter : str) : ValidationResult.t :=
  let lines := nonBlankLines content in
  if Nat.ltb (length lines) 5 then
    ValidationResult.mk false [lit "File appears to be empty or too short"] []
  else
    let headerLine := findHeaderLine lines delimiter in
    if Z.eqb headerLine (-1) then
      ValidationResult.mk false
        [lit "Could not find transaction data headers. Is this an Apple App Store financial report?"]
        []
    else
      let headers :=
        map trim (split (nth (Z.to_nat headerLine) lines []) delimiter) in
      let errors :=
        flat_map
          (fun required =>
             if existsb (str_eqb required) headers then []
             else [lit "Missing required column: " ++ required])
          REQUIRED_COLUMNS in
      let metadata := parseMetadata lines delimiter in
      let warnings :=
        (if truthy (ReportMetadata.vendorName metadata) then []
         else [lit "Vendor name not found in report"])
        ++
        (if truthy (ReportMetadata.startDate metadata)
            && truthy (ReportMetadata.endDate metadata)
         then []
         else [lit "Reporting period dates not found"]) in
      ValidationResult.mk (Nat.eqb (length errors) 0) errors warnings.

(* ================================================================= *)
(** ** The aggregations and parseAppleReport *)

Section Engine.

(** [String.prototype.localeCompare]: the collation of the host.  A
    negative result sorts the receiver first. *)
Variable localeCompare : str -> str -> Z.

(** [a.localeCompare(b)] where [a] and [b] are read from fields that may be
    [undefined]: a method call on [undefined] throws a TypeError, an
    [undefined] argument is converted to text. *)
Definition localeCompareM (a b : option str) : result Z :=
  match a with
  | None => Throw TypeError
  | Some x => Ok (localeCompare x (toStr b))
  end.

(** The key of the country map, [`${t.countryOfSale}-${t.partnerShareCurrency}`]. *)
Definition countryKey (t : Transaction.t) : str :=
  toStr (Transaction.countryOfSale t) ++ lit "-"
    ++ toStr (Transaction.partnerShareCurrency t).

(** One iteration of the loop of [aggregateByCountry]. *)
Definition countryStep (map : list (str * CountryBreakdown.t))
  (t : Transaction.t) : list (str * CountryBreakdown.t) :=
  let key := countryKey t in
  match map_get str_eqb map key with
  | Some existing =>
      map_set str_eqb map key
        (CountryBreakdown.mk
           (CountryBreakdown.countryOfSale existing)
           (CountryBreakdown.currency existing)
           (jsAdd (CountryBreakdown.quantity existing) (Transaction.quantity t))
           (jsAdd (CountryBreakdown.proceeds existing)
                  (Transaction.extendedPartnerShare t)))
  | None =>
      map_set str_eqb map key
        (CountryBreakdown.mk
           (Transaction.countryOfSale t)
           (Transaction.partnerShareCurrency t)
           (Transaction.quantity t)
           (Transaction.extendedPartnerShare t))
  end.

Definition countryMap (transactions : list Transaction.t)
  : list (str * CountryBreakdown.t) :=
  fold_left countryStep transactions [].

Definition aggregateByCountry (transactions : list Transaction.t)
  : result (list CountryBreakdown.t) :=
  sortM (fun a b => localeCompareM (CountryBreakdown.countryOfSale a)
                                   (CountryBreakdown.countryOfSale b))
        (map_values (countryMap transactions)).

(** [(o[k] || 0)] on the amounts object. *)
Definition amountOrZero (o : list (str * option number)) (k : str) : number :=
  match map_get str_eqb o k with
  | Some (Some x) => orZero x
  | _ => zero
  end.

(** One iteration of the loop of [aggregateByProduct]. *)
Definition productStep (map : list (option str * ProductBreakdown.t))
  (t : Transaction.t) : list (option str * ProductBreakdown.t) :=
  let cur := toStr (Transaction.partnerShareCurrency t) in
  match map_get ostr_eqb map (Transaction.sku t) with
  | Some existing =>
      map_set ostr_eqb map (Transaction.sku t)
        (ProductBreakdown.mk
           (ProductBreakdown.title existing)
           (ProductBreakdown.sku existing)
           (jsAdd (ProductBreakdown.quantity existing) (Transaction.quantity t))
           (map_set str_eqb (ProductBreakdown.proceedsByCurrency existing) cur
              (jsAdd (Some (amountOrZero
                              (ProductBreakdown.proceedsByCurrency existing) cur))
                     (Transaction.extendedPartnerShare t))))
  | None =>
      map_set ostr_eqb map (Transaction.sku t)
        (ProductBreakdown.mk
           (Transaction.title t)
           (Transaction.sku t)
           (Transaction.quantity t)
           [(cur, Transaction.extendedPartnerShare t)])
  end.

Definition productMap (transactions : list Transaction.t)
  : list (option str * ProductBreakdown.t) :=
  fold_left productStep transactions [].

Definition aggregateByProduct (transactions : list Transaction.t)
  : result (list ProductBreakdown.t) :=
  sortM (fun a b => localeCompareM (ProductBreakdown.title a)
                                   (ProductBreakdown.title b))
        (map_values (productMap transactions)).

(** One iteration of the loop of [aggregateByCurrency]. *)
Definition currencyStep (map : list (option str * CurrencySummary.t))
  (t : Transaction.t) : list (option str * CurrencySummary.t) :=
  let key := Transaction.partnerShareCurrency t in
  match map_get ostr_eqb map key with
  | Some existing =>
      map_set ostr_eqb map key
        (CurrencySummary.mk
           (CurrencySummary.currency existing)
           (jsAdd (CurrencySummary.totalProceeds existing)
                  (Transaction.extendedPartnerShare t))
           (jsAdd (CurrencySummary.totalQuantity existing)
                  (Transaction.quantity t)))
  | None =>
      map_set ostr_eqb map key
        (CurrencySummary.mk
           (Transaction.partnerShareCurrency t)
           (Transaction.extendedPartnerShare t)
           (Transaction.quantity t))
  end.

Definition currencyMap (transactions : list Transaction.t)
  : list (option str * CurrencySummary.t) :=
  fold_left currencyStep transactions [].

Definition aggregateByCurrency (transactions : list Transaction.t)
  : result (list CurrencySummary.t) :=
  sortM (fun a b => localeCompareM (CurrencySummary.currency a)
                                   (CurrencySummary.currency b))
        (map_values (currencyMap transactions)).

(** [transaction && transaction.saleOrReturn === 'S'] *)
Definition isSale (t : Transaction.t) : bool :=
  ostr_eqb (Transaction.saleOrReturn t) (Some (lit "S")).

(** The body of the transaction loop at line [i]: the transactions it
    pushes. *)
Definition pushed (lines : list str) (delimiter : str) (headers : list str)
  (i : nat) : list Transaction.t :=
  let row := split (nth i lines []) delimiter in
  match parseTransaction row headers with
  | Some transaction => if isSale transaction then [transaction] else []
  | None => []
  end.

(** The indices the loop [for (i = headerLineIdx + 1; i < summaryLineIdx; i++)]
    visits. *)
Definition dataIndices (headerLineIdx summaryLineIdx : Z) : list nat :=
  seq (Z.to_nat (headerLineIdx + 1))
      (Z.to_nat (summaryLineIdx - (headerLineIdx + 1))).

Definition parseAppleReport (content : str) : result ParsedReport.t :=
  let delimiter := detectDelimiter content in
  let lines := nonBlankLines content in
  let metadata := parseMetadata lines delimiter in
  let headerLineIdx := findHeaderLine lines delimiter in
  let summaryLineIdx := findSummaryLine lines delimiter in
  if Z.eqb headerLineIdx (-1) then
    Throw (Error "Invalid report format: could not find data headers")
  else
    let headers :=
      map trim (split (nth (Z.to_nat headerLineIdx) lines []) delimiter) in
    let transactions :=
      flat_map (pushed lines delimiter headers)
               (dataIndices headerLineIdx summaryLineIdx) in
    byCountry <- aggregateByCountry transactions ;;
    byProduct <- aggregateByProduct transactions ;;
    byCurrency <- aggregateByCurrency transactions ;;
    Ok (ParsedReport.mk metadata transactions
          (Summary.mk byCountry byProduct byCurrency (length transactions))).

End Engine.

(** A sample collation, used where a concrete one is needed to run the
    engine: code-unit order, with which every locale agrees on the
    upper-case ASCII country and currency codes of a report. *)
Fixpoint codeUnitCompare (a b : str) : Z :=
  match a, b with
  | [], [] => 0
  | [], _ :: _ => -1
  | _ :: _, [] => 1
  | x :: a', y :: b' =>
      match N.compare x y with
      | Lt => -1
      | Gt => 1
      | Eq => codeUnitCompare a' b'
      end
  end%Z.

(** Test inputs are written line by line and cell by cell. *)
Definition row (cells : list String.string) (delimiter : str) : str :=
  join (map lit cells) delimiter.

Definition file (rows : list str) : str := join rows [LF].

(* ================================================================= *)
(** ** formatDate *)

(** [s.padStart(targetLength, padString)]: the filler is repeated and cut to
    the missing length; an empty filler leaves [s] as it is. *)
Definition padStart (s : str) (targetLength : nat) (padString : str) : str :=
  let fillLen := targetLength - length s in
  firstn fillLen (concat (repeat padString fillLen)) ++ s.

Definition formatDate (dateStr : str) : str :=
  if negb (truthy dateStr) then []
  else
    match split dateStr (lit "/") with
    | [month; day; year] =>
        year ++ lit "-" ++ padStart month 2 (lit "0")
             ++ lit "-" ++ padStart day 2 (lit "0")
    | _ => dateStr
    end.

(** [formatDate(x)] for a field [x] that may be [undefined]: [!x] holds and
    the empty string is returned. *)
Definition formatDateOf (x : option str) : str :=
  match x with
  | Some dateStr => formatDate dateStr
  | None => []
  end.

(* ================================================================= *)
(** ** The CSV exporter (generateCSV and escapeCSV of src/unnamed/part_001) *)

Definition QUOTE : N := 34%N.

(** The global replacement in [escapeCSV]: every double-quote character is
    doubled. *)
Definition doubleQuotes (value : str) : str :=
  flat_map (fun c => if N.eqb c QUOTE then [QUOTE; QUOTE] else [c]) value.

Definition escapeCSV (value : str) : str :=
  if includes value [COMMA] || includes value [QUOTE] || includes value [LF]
  then [QUOTE] ++ doubleQuotes value ++ [QUOTE]
  else value.

(** [escapeCSV(x)] for a field [x] that may be [undefined]: the call
    [x.includes] on [undefined] throws a TypeError. *)
Definition escapeCSVOf (x : option str) : result str :=
  match x with
  | Some value => Ok (escapeCSV value)
  | None => Throw TypeError
  end.

(** [a.map(f)] for an [f] that may throw: the first exception aborts. *)
Fixpoint mapM {A B : Type} (f : A -> result B) (l : list A) : result (list B) :=
  match l with
  | [] => Ok []
  | x :: rest => y <- f x ;; ys <- mapM f rest ;; Ok (y :: ys)
  end.

Section Exporter.

(** [Number.prototype.toFixed(2)], the conversion of a number inside a
    template literal, and [new Date().toISOString()]: host functions. *)
Variable toFixed2 : number -> str.
Variable numberToString : number -> str.
Variable isoNow : str.

(** [x.toFixed(2)] for a field that may be [undefined]. *)
Definition toFixedOf (x : option number) : result str :=
  match x with
  | Some n => Ok (toFixed2 n)
  | None => Throw TypeError
  end.

(** [`${x}`] for a numeric field that may be [undefined]. *)
Definition showNumber (x : option number) : str :=
  match x with
  | Some n => numberToString n
  | None => lit "undefined"
  end.

Definition currencyLine (c : CurrencySummary.t) : result str :=
  proceeds <- toFixedOf (CurrencySummary.totalProceeds c) ;;
  Ok (toStr (CurrencySummary.currency c) ++ [COMMA]
        ++ showNumber (CurrencySummary.totalQuantity c) ++ [COMMA] ++ proceeds).

Definition countryLine (c : CountryBreakdown.t) : result str :=
  country <- escapeCSVOf (CountryBreakdown.countryOfSale c) ;;
  proceeds <- toFixedOf (CountryBreakdown.proceeds c) ;;
  Ok (country ++ [COMMA] ++ toStr (CountryBreakdown.currency c) ++ [COMMA]
        ++ showNumber (CountryBreakdown.quantity c) ++ [COMMA] ++ proceeds).

(** One element of [Object.entries(p.proceedsByCurrency).map(...)]. *)
Definition amountText (entry : str * option number) : result str :=
  amount <- toFixedOf (snd entry) ;;
  Ok (amount ++ lit " " ++ fst entry).

Definition productLine (p : ProductBreakdown.t) : result str :=
  amounts <- mapM amountText (ProductBreakdown.proceedsByCurrency p) ;;
  let proceedsStr := join amounts (lit " | ") in
  title <- escapeCSVOf (ProductBreakdown.title p) ;;
  sku <- escapeCSVOf (ProductBreakdown.sku p) ;;
  Ok (title ++ [COMMA] ++ sku ++ [COMMA]
        ++ showNumber (ProductBreakdown.quantity p) ++ [COMMA]
        ++ escapeCSV proceedsStr).

Definition transactionLine (t : Transaction.t) : result str :=
  country <- escapeCSVOf (Transaction.countryOfSale t) ;;
  title <- escapeCSVOf (Transaction.title t) ;;
  sku <- escapeCSVOf (Transaction.sku t) ;;
  share <- toFixedOf (Transaction.partnerShare t) ;;
  Ok (formatDateOf (Transaction.transactionDate t) ++ [COMMA]
        ++ country ++ [COMMA] ++ title ++ [COMMA] ++ sku ++ [COMMA]
        ++ (if ostr_eqb (Transaction.saleOrReturn t) (Some (lit "S"))
            then lit "Sale" else lit "Return") ++ [COMMA]
        ++ showNumber (Transaction.quantity t) ++ [COMMA]
        ++ share ++ [COMMA] ++ toStr (Transaction.partnerShareCurrency t)).

(** The [lines] array at the end of [generateCSV]. *)
Definition csvLines (report : ParsedReport.t) : result (list str) :=
  let metadata := ParsedReport.metadata report in
  let summary := ParsedReport.summary report in
  let headerLines :=
    [ lit "App Store Sales Report";
      lit "Vendor," ++ escapeCSV (ReportMetadata.vendorName metadata);
      lit "Period Start," ++ formatDate (ReportMetadata.startDate metadata);
      lit "Period End," ++ formatDate (ReportMetadata.endDate metadata);
      lit "Generated," ++ nth 0 (split isoNow (lit "T")) [];
      [] ] in
  currencies <- mapM currencyLine (Summary.byCurrency summary) ;;
  countries <- mapM countryLine (Summary.byCountry summary) ;;
  products <-
    (if Nat.ltb 0 (length (Summary.byProduct summary)) then
       ps <- mapM productLine (Summary.byProduct summary) ;;
       Ok ([lit "PRODUCT BREAKDOWN"; lit "Product,SKU,Units,Net Proceeds"]
             ++ ps ++ [[]])
     else Ok []) ;;
  details <- mapM transactionLine (ParsedReport.transactions report) ;;
  Ok (headerLines
        ++ [lit "SUMMARY BY CURRENCY"; lit "Currency,Units Sold,Net Proceeds"]
        ++ currencies ++ [[]]
        ++ [lit "COUNTRY & CURRENCY BREAKDOWN";
            lit "Country,Currency,Units,Net Proceeds"]
        ++ countries ++ [[]]
        ++ products
        ++ [lit "TRANSACTION DETAILS";
            lit "Date,Country,Product,SKU,Type,Quantity,Proceeds,Currency"]
        ++ details).

Definition generateCSV (report : ParsedReport.t) : result str :=
  lines <- csvLines report ;;
  Ok (join lines [LF]).

End Exporter.

(* ================================================================= *)
(** * Vocabulary of the properties

    The predicates and views the statements below are written with, and
    the sample inputs they are run on. *)

(** The first five physical lines of the text. *)
Definition firstFiveLines (content : str) : list str :=
  firstn 5 (split content [LF]).

(** The number of occurrences of the code unit [c] across those lines. *)
Definition countAcross (c : N) (content : str) : nat :=
  list_sum (map (countMatches c) (firstFiveLines content)).

(** The summary header as the scan recognises it: the trimmed line starts
    with one of the two spellings and splits, trimmed, into at most five
    fields. *)
Definition SummaryHeader (line delimiter : str) : Prop :=
  ((exists r, trim line = lit "Country Of Sale" ++ r)
   \/ (exists r, trim line = lit "Country of Sale" ++ r))
  /\ length (split (trim line) delimiter) <= 5.

(** A line that contains both literal substrings. *)
Definition HeaderLike (line : str) : Prop :=
  (exists l r, line = l ++ lit "Transaction Date" ++ r)
  /\ (exists l r, line = l ++ lit "Country of Sale" ++ r).

(** A field value: text or number. *)
Inductive Value : Type :=
| VStr (s : str)
| VNum (n : number).

(** [t[k]], [None] for [undefined]. *)
Definition field (k : Key) (t : Transaction.t) : option Value :=
  match k with
  | K_transactionDate => option_map VStr (Transaction.transactionDate t)
  | K_settlementDate => option_map VStr (Transaction.settlementDate t)
  | K_appleIdentifier => option_map VStr (Transaction.appleIdentifier t)
  | K_sku => option_map VStr (Transaction.sku t)
  | K_title => option_map VStr (Transaction.title t)
  | K_developerName => option_map VStr (Transaction.developerName t)
  | K_productTypeIdentifier => option_map VStr (Transaction.productTypeIdentifier t)
  | K_countryOfSale => option_map VStr (Transaction.countryOfSale t)
  | K_quantity => option_map VNum (Transaction.quantity t)
  | K_partnerShare => option_map VNum (Transaction.partnerShare t)
  | K_extendedPartnerShare => option_map VNum (Transaction.extendedPartnerShare t)
  | K_partnerShareCurrency => option_map VStr (Transaction.partnerShareCurrency t)
  | K_customerPrice => option_map VNum (Transaction.customerPrice t)
  | K_customerCurrency => option_map VStr (Transaction.customerCurrency t)
  | K_saleOrReturn => option_map VStr (Transaction.saleOrReturn t)
  | K_promoCode => option_map VStr (Transaction.promoCode t)
  | K_orderType => option_map VStr (Transaction.orderType t)
  | K_region => option_map VStr (Transaction.region t)
  end.

(** What the decoder stores under [k] for the cell text [value]. *)
Definition coerce (k : Key) (value : str) : Value :=
  match k with
  | K_quantity => VNum (orZero (parseInt10 value))
  | K_partnerShare | K_extendedPartnerShare | K_customerPrice =>
      VNum (orZero (parseFloat value))
  | _ => VStr value
  end.

(** The last header position mapped to [k], if any. *)
Fixpoint lastColumn (k : Key) (headers : list str) : option nat :=
  match headers with
  | [] => None
  | header :: rest =>
      match lastColumn k rest with
      | Some j => Some (S j)
      | None =>
          match COLUMN_MAP header with
          | Some k' => if Key_eqb k' k then Some 0 else None
          | None => None
          end
      end
  end.

(** Position [i] is the column of [k]: its header maps to [k] and no later
    header does. *)
Definition ColumnOf (k : Key) (headers : list str) (i : nat) : Prop :=
  (exists header, nth_error headers i = Some header /\ COLUMN_MAP header = Some k)
  /\ forall j header, i < j -> nth_error headers j = Some header ->
                      COLUMN_MAP header <> Some k.

Definition Sign (sign : str) : Prop :=
  sign = [] \/ sign = lit "+" \/ sign = lit "-".

(** Text that, after leading white space, begins with an optional sign and
    a decimal digit: what [parseInt(_, 10)] can read. *)
Definition IntegerText (v : str) : Prop :=
  exists sign d rest,
    Sign sign /\ isDigit d = true /\ trimStart v = sign ++ d :: rest.

(** Text that, after leading white space, begins with an optional sign and
    then [Infinity], a digit, or a point and a digit: what [parseFloat] can
    read. *)
Definition DecimalText (v : str) : Prop :=
  exists sign rest,
    Sign sign
    /\ (trimStart v = sign ++ lit "Infinity" ++ rest
        \/ exists d, isDigit d = true
                     /\ (trimStart v = sign ++ d :: rest
                         \/ trimStart v = sign ++ lit "." ++ d :: rest)).

Definition headIsDigit (s : str) : bool :=
  match s with
  | d :: _ => isDigit d
  | [] => false
  end.

Definition isIntegerText (v : str) : bool :=
  headIsDigit (snd (readSign (trimStart v))).

Definition isDecimalText (v : str) : bool :=
  let r := snd (readSign (trimStart v)) in
  startsWith r (lit "Infinity") || headIsDigit r
  || match r with
     | c :: r' => N.eqb c 46 && headIsDigit r'
     | [] => false
     end.

(** The numeric columns. *)
Definition numericKey (k : Key) : bool :=
  match k with
  | K_quantity | K_partnerShare | K_extendedPartnerShare | K_customerPrice => true
  | _ => false
  end.

(** Text the parser of column [k] can read. *)
Definition NumericText (k : Key) (v : str) : Prop :=
  match k with
  | K_quantity => IntegerText v
  | _ => DecimalText v
  end.

(** Two rows agree on the text columns when every cell whose header maps to
    a non-numeric field is the same in both. *)
Definition agreeOnText (headers row row' : list str) : Prop :=
  forall j header k,
    nth_error headers j = Some header -> COLUMN_MAP header = Some k ->
    numericKey k = false -> cell row' j = cell row j.

Definition sampleHeaders : list str :=
  map lit ["Country of Sale"; "Partner Share Currency"; "Quantity";
           "Extended Partner Share"]%string.

Definition sampleRowUnreadable : list str :=
  map lit ["US"; "USD"; "n/a"]%string.

(** The locals of [parseAppleReport], as functions of the text. *)
Definition delimiterOf (content : str) : str := detectDelimiter content.

Definition headerIndex (content : str) : Z :=
  findHeaderLine (nonBlankLines content) (delimiterOf content).

Definition summaryIndex (content : str) : Z :=
  findSummaryLine (nonBlankLines content) (delimiterOf content).

Definition headersOf (content : str) : list str :=
  map trim (split (nth (Z.to_nat (headerIndex content)) (nonBlankLines content) [])
                  (delimiterOf content)).

(** The indices of the data region: the lines the transaction loop visits. *)
Definition dataRegion (content : str) : list nat :=
  dataIndices (headerIndex content) (summaryIndex content).

(** The cells of line [i]. *)
Definition rowAt (content : str) (i : nat) : list str :=
  split (nth i (nonBlankLines content) []) (delimiterOf content).

(** Line [i] decoded, before any filter. *)
Definition decoded (content : str) (i : nat) : Transaction.t :=
  decodeFrom 0 (headersOf content) (rowAt content i) Transaction.empty.

(** Line [i] decodes to a sale with a country and a currency. *)
Definition retained (content : str) (i : nat) : bool :=
  negb (falsy (Transaction.countryOfSale (decoded content i)))
  && negb (falsy (Transaction.partnerShareCurrency (decoded content i)))
  && isSale (decoded content i).

(** A report in the shape of an App Store export: three metadata lines, the
    transaction header, three sales, a return, a row without a country, and
    a trailing summary section. *)
Definition sampleFile : str :=
  file
    [ row ["Vendor Name"; "Acme Inc"]%string [TAB];
      row ["Start Date"; "01/01/2024"]%string [TAB];
      row ["End Date"; "01/31/2024"]%string [TAB];
      row ["Transaction Date"; "SKU"; "Title"; "Country of Sale"; "Quantity";
           "Extended Partner Share"; "Partner Share Currency";
           "Sale or Return"]%string [TAB];
      row ["01/05/2024"; "app.pro"; "Pro"; "US"; "1"; "0.1"; "USD"; "S"]%string [TAB];
      row ["01/06/2024"; "app.pro"; "Pro"; "CA"; "1"; "0.3"; "USD"; "S"]%string [TAB];
      row ["01/07/2024"; "app.pro"; "Pro"; "US"; "1"; "0.7"; "USD"; "S"]%string [TAB];
      row ["01/08/2024"; "app.pro"; "Pro"; "US"; "1"; "0.7"; "USD"; "R"]%string [TAB];
      row ["01/09/2024"; "app.pro"; "Pro"; ""; "1"; "0.7"; "USD"; "S"]%string [TAB];
      row ["01/10/2024"; "app.lite"; "Lite"; "DE"; "2"; "1.5"; "EUR"; "S"]%string [TAB];
      row ["Country Of Sale"; "Partner Share Currency"; "Quantity"]%string [TAB];
      row ["US"; "USD"; "2"]%string [TAB] ].

Definition emptyReport : ParsedReport.t :=
  ParsedReport.mk (ReportMetadata.mk [] [] []) [] (Summary.mk [] [] [] 0).

Definition sampleReport : ParsedReport.t :=
  Eval vm_compute in
    match parseAppleReport codeUnitCompare sampleFile with
    | Ok r => r
    | Throw _ => emptyReport
    end.

(** The shape shared by the three aggregation loops, and what one
    transaction does to the entry of key [k]. *)
Section GroupByDefs.
Context {K V T : Type} (eqb : K -> K -> bool).
Context (key : T -> K) (init : T -> V) (upd : V -> T -> V).

Definition groupStep (m : list (K * V)) (t : T) : list (K * V) :=
  match map_get eqb m (key t) with
  | Some existing => map_set eqb m (key t) (upd existing t)
  | None => map_set eqb m (key t) (init t)
  end.

Definition accum (k : K) (o : option V) (t : T) : option V :=
  if eqb (key t) k
  then Some match o with Some e => upd e t | None => init t end
  else o.
End GroupByDefs.

(** [v1 + v2 + ... + vn] as JavaScript evaluates it, left to right. *)
Definition sumOf (vs : list (option number)) : option number :=
  match vs with
  | [] => None
  | v :: rest => fold_left jsAdd rest v
  end.

Definition countryInit (t : Transaction.t) : CountryBreakdown.t :=
  CountryBreakdown.mk
    (Transaction.countryOfSale t) (Transaction.partnerShareCurrency t)
    (Transaction.quantity t) (Transaction.extendedPartnerShare t).

Definition countryUpd (existing : CountryBreakdown.t) (t : Transaction.t)
  : CountryBreakdown.t :=
  CountryBreakdown.mk
    (CountryBreakdown.countryOfSale existing)
    (CountryBreakdown.currency existing)
    (jsAdd (CountryBreakdown.quantity existing) (Transaction.quantity t))
    (jsAdd (CountryBreakdown.proceeds existing) (Transaction.extendedPartnerShare t)).

Definition currencyInit (t : Transaction.t) : CurrencySummary.t :=
  CurrencySummary.mk
    (Transaction.partnerShareCurrency t)
    (Transaction.extendedPartnerShare t) (Transaction.quantity t).

Definition currencyUpd (existing : CurrencySummary.t) (t : Transaction.t)
  : CurrencySummary.t :=
  CurrencySummary.mk
    (CurrencySummary.currency existing)
    (jsAdd (CurrencySummary.totalProceeds existing)
           (Transaction.extendedPartnerShare t))
    (jsAdd (CurrencySummary.totalQuantity existing) (Transaction.quantity t)).

(** The transactions of a currency, and of a (country, currency) pair. *)
Definition hasCurrency (p : option str) (t : Transaction.t) : bool :=
  ostr_eqb (Transaction.partnerShareCurrency t) p.

Definition hasPair (c p : option str) (t : Transaction.t) : bool :=
  ostr_eqb (Transaction.countryOfSale t) c
  && ostr_eqb (Transaction.partnerShareCurrency t) p.

(** No two transactions with different (country, currency) pairs have the
    same country key. *)
Definition keysFaithful (ts : list Transaction.t) : bool :=
  forallb
    (fun t0 =>
       forallb
         (fun t =>
            implb (str_eqb (countryKey t) (countryKey t0))
                  (hasPair (Transaction.countryOfSale t0)
                           (Transaction.partnerShareCurrency t0) t))
         ts)
    ts.




Definition headerNotFound : Exn :=
  Error "Invalid report format: could not find data headers".

(** A comma-separated export whose header has no [Title] column, with two
    sales of different products. *)
Definition untitledCsv : str :=
  file
    [ row ["Transaction Date"; "Country of Sale"; "Partner Share Currency";
           "SKU"; "Sale or Return"]%string [COMMA];
      row ["01/01/2024"; "US"; "USD"; "app.pro"; "S"]%string [COMMA];
      row ["01/02/2024"; "US"; "USD"; "app.lite"; "S"]%string [COMMA] ].

(** A tab-separated export with every required column and the metadata
    lines, but no [Title] column, and two sales of different products. *)
Definition untitledFile : str :=
  file
    [ row ["Vendor Name"; "Acme Inc"]%string [TAB];
      row ["Start Date"; "01/01/2024"]%string [TAB];
      row ["End Date"; "01/31/2024"]%string [TAB];
      row ["Transaction Date"; "SKU"; "Country of Sale"; "Quantity";
           "Extended Partner Share"; "Partner Share Currency";
           "Sale or Return"]%string [TAB];
      row ["01/05/2024"; "app.pro"; "US"; "1"; "0.7"; "USD"; "S"]%string [TAB];
      row ["01/06/2024"; "app.lite"; "US"; "2"; "1.4"; "USD"; "S"]%string [TAB] ].

(** Two sales whose (country, currency) pairs differ and whose keys
    [country-currency] are the same text. *)
Definition collidingFile : str :=
  file
    [ row ["Transaction Date"; "SKU"; "Title"; "Country of Sale"; "Quantity";
           "Extended Partner Share"; "Partner Share Currency";
           "Sale or Return"]%string [TAB];
      row ["01/05/2024"; "app.pro"; "Pro"; "US-CA"; "1"; "2"; "USD"; "S"]%string [TAB];
      row ["01/06/2024"; "app.pro"; "Pro"; "US"; "2"; "3"; "CA-USD"; "S"]%string [TAB] ].

Definition productInit (t : Transaction.t) : ProductBreakdown.t :=
  ProductBreakdown.mk
    (Transaction.title t) (Transaction.sku t) (Transaction.quantity t)
    [(toStr (Transaction.partnerShareCurrency t),
      Transaction.extendedPartnerShare t)].

Definition productUpd (existing : ProductBreakdown.t) (t : Transaction.t)
  : ProductBreakdown.t :=
  let cur := toStr (Transaction.partnerShareCurrency t) in
  ProductBreakdown.mk
    (ProductBreakdown.title existing)
    (ProductBreakdown.sku existing)
    (jsAdd (ProductBreakdown.quantity existing) (Transaction.quantity t))
    (map_set str_eqb (ProductBreakdown.proceedsByCurrency existing) cur
       (jsAdd (Some (amountOrZero (ProductBreakdown.proceedsByCurrency existing) cur))
              (Transaction.extendedPartnerShare t))).

(** The transactions the loop retains, as a function of the text. *)
Definition retainedTransactions (content : str) : list Transaction.t :=
  map (decoded content) (filter (retained content) (dataRegion content)).

(** The (country, currency) pair of an entry. *)
Definition pairOf (e : CountryBreakdown.t) : option str * option str :=
  (CountryBreakdown.countryOfSale e, CountryBreakdown.currency e).

Definition keyOfPair (p : option str * option str) : str :=
  toStr (fst p) ++ lit "-" ++ toStr (snd p).

(** [a] may stand before [b]: [b] does not sort strictly before [a]. *)
Definition inOrder {A : Type} (f : A -> A -> Z) (a b : A) : Prop :=
  ~ (f b a < 0)%Z.

(** Reading a CSV field back, as a CSV reader does: a field that begins
    with a double quote runs to its closing quote, a doubled quote inside
    standing for one quote; any other field is taken as it is.  [None] for a
    quoted field that is not closed or is followed by other text. *)
Fixpoint unquoteBody (s : str) : option str :=
  match s with
  | [] => None
  | c :: rest =>
      if N.eqb c QUOTE then
        match rest with
        | [] => Some []
        | d :: rest' =>
            if N.eqb d QUOTE then option_map (cons QUOTE) (unquoteBody rest')
            else None
        end
      else option_map (cons c) (unquoteBody rest)
  end.

Definition readCSVField (s : str) : option str :=
  match s with
  | c :: rest => if N.eqb c QUOTE then unquoteBody rest else Some s
  | [] => Some []
  end.

Definition SLASH : N := 47%N.

(** A metadata line of [key]: it splits into two fields or more and its
    first field, trimmed, is [key]. *)
Definition MetadataLine (key delimiter line : str) : Prop :=
  2 <= length (split line delimiter)
  /\ trim (nth 0 (split line delimiter) []) = key.

Definition isMetadataLine (key delimiter line : str) : bool :=
  Nat.leb 2 (length (split line delimiter))
  && str_eqb (trim (nth 0 (split line delimiter) [])) key.

(** The value a metadata line carries: its second field, trimmed. *)
Definition metadataValue (delimiter line : str) : str :=
  trim (nth 1 (split line delimiter) []).

(** The field of the metadata record that [key] names. *)
Definition metadataField (key : str) (m : ReportMetadata.t) : str :=
  if str_eqb key (lit "Vendor Name") then ReportMetadata.vendorName m
  else if str_eqb key (lit "Start Date") then ReportMetadata.startDate m
  else ReportMetadata.endDate m.

Definition metadataKeys : list str :=
  [lit "Vendor Name"; lit "Start Date"; lit "End Date"].

(** The body of the loop of [parseMetadata]. *)
Definition metadataStep (delimiter : str) (metadata : ReportMetadata.t)
  (line : str) : ReportMetadata.t :=
  let parts := split line delimiter in
  if Nat.leb 2 (length parts) then
    let key := trim (nth 0 parts []) in
    let value := trim (nth 1 parts []) in
    if str_eqb key (lit "Vendor Name") then
      ReportMetadata.mk value (ReportMetadata.startDate metadata)
                        (ReportMetadata.endDate metadata)
    else if str_eqb key (lit "Start Date") then
      ReportMetadata.mk (ReportMetadata.vendorName metadata) value
                        (ReportMetadata.endDate metadata)
    else if str_eqb key (lit "End Date") then
      ReportMetadata.mk (ReportMetadata.vendorName metadata)
                        (ReportMetadata.startDate metadata) value
    else metadata
  else metadata.

(** The value of the last metadata line of [key] in [lines], [default] when
    there is none. *)
Definition lastMetadata (key delimiter : str) (lines : list str) (default : str)
  : str :=
  fold_left
    (fun acc line =>
       if isMetadataLine key delimiter line then metadataValue delimiter line
       else acc)
    lines default.

(** The update of one amount of [proceedsByCurrency]:
    [(o[currency] || 0) + t.extendedPartnerShare], where the running amount
    is [None] while the currency has no property yet.  A running amount that
    is NaN counts as 0. *)
Definition addAmount (running share : option number) : option number :=
  jsAdd (Some match running with Some x => orZero x | None => zero end) share.

(** The property name a transaction's currency gives. *)
Definition currencyName (t : Transaction.t) : str :=
  toStr (Transaction.partnerShareCurrency t).

(** The amount of currency [c] for a product whose transactions are [t0]
    and then [rest]: the first transaction sets its amount as it is, every
    later one is added with [addAmount]. *)
Definition productAmount (c : str) (t0 : Transaction.t)
  (rest : list Transaction.t) : option number :=
  fold_left addAmount
    (map Transaction.extendedPartnerShare
         (filter (fun t => str_eqb (currencyName t) c) rest))
    (if str_eqb (currencyName t0) c
     then Transaction.extendedPartnerShare t0 else None).

Definition hasSku (k : option str) (t : Transaction.t) : bool :=
  ostr_eqb (Transaction.sku t) k.

(** The property names a plain object inherits from [Object.prototype].
    For such a name the read [o[name] || 0] of [aggregateByProduct] finds the
    inherited value and not 0, so the reading of [proceedsByCurrency] as an
    association list holds for the other names only.  The read
    [COLUMN_MAP[name]] of [parseTransaction] finds the inherited value too,
    and the cell is then stored under a name that is no field of
    [Transaction]. *)
Definition inheritedNames : list str :=
  [ lit "constructor"; lit "hasOwnProperty"; lit "isPrototypeOf";
    lit "propertyIsEnumerable"; lit "toLocaleString"; lit "toString";
    lit "valueOf"; lit "__proto__"; lit "__defineGetter__";
    lit "__defineSetter__"; lit "__lookupGetter__"; lit "__lookupSetter__" ].

Definition inheritedName (c : str) : bool :=
  existsb (str_eqb c) inheritedNames.

(** Every value on which [generateCSV] calls a method is defined:
    [totalProceeds] of a currency entry; [countryOfSale] and [proceeds] of a
    country entry; [title], [sku] and every amount of a product entry;
    [countryOfSale], [title], [sku] and [partnerShare] of a transaction. *)
Definition Exportable (report : ParsedReport.t) : Prop :=
  Forall (fun c => CurrencySummary.totalProceeds c <> None)
         (Summary.byCurrency (ParsedReport.summary report))
  /\ Forall (fun c => CountryBreakdown.countryOfSale c <> None
                      /\ CountryBreakdown.proceeds c <> None)
            (Summary.byCountry (ParsedReport.summary report))
  /\ Forall (fun p => Forall (fun entry : str * option number => snd entry <> None)
                             (ProductBreakdown.proceedsByCurrency p)
                      /\ ProductBreakdown.title p <> None
                      /\ ProductBreakdown.sku p <> None)
            (Summary.byProduct (ParsedReport.summary report))
  /\ Forall (fun t => Transaction.countryOfSale t <> None
                      /\ Transaction.title t <> None
                      /\ Transaction.sku t <> None
                      /\ Transaction.partnerShare t <> None)
            (ParsedReport.transactions report).

(** An export with every column the CSV exporter reads. *)
Definition exportFile : str :=
  file
    [ row ["Vendor Name"; "Acme, Inc"]%string [TAB];
      row ["Start Date"; "01/01/2024"]%string [TAB];
      row ["End Date"; "01/31/2024"]%string [TAB];
      row ["Transaction Date"; "SKU"; "Title"; "Country of Sale"; "Quantity";
           "Partner Share"; "Extended Partner Share"; "Partner Share Currency";
           "Sale or Return"]%string [TAB];
      row ["01/05/2024"; "app.pro"; "Pro"; "US"; "2"; "0.7"; "1.4"; "USD"; "S"]%string [TAB];
      row ["01/06/2024"; "app.lite"; "Lite"; "DE"; "1"; "1.5"; "1.5"; "EUR"; "S"]%string [TAB] ].

Definition exportReport : ParsedReport.t :=
  Eval vm_compute in
    match parseAppleReport codeUnitCompare exportFile with
    | Ok r => r
    | Throw _ => emptyReport
    end.

(* ================================================================= *)
(** * Properties *)

(** ** The primitives on sample values

    The values are those a JavaScript engine prints for the same calls. *)

Example split_trailing :
  split (lit "a,b,,c,") (lit ",") = [lit "a"; lit "b"; []; lit "c"; []].
Proof. reflexivity. Qed.

Example split_empty : split [] (lit ",") = [[]].
Proof. reflexivity. Qed.

Example trim_both : trim (lit "  US " ++ [13%N]) = lit "US".
Proof. reflexivity. Qed.

Example includes_middle :
  includes (lit "x,Transaction Date,y") (lit "Transaction Date") = true.
Proof. reflexivity. Qed.

Example parseInt10_prefix : parseInt10 (lit " 12abc") = 12%float.
Proof. vm_compute. reflexivity. Qed.

Example parseInt10_exponent : parseInt10 (lit "1e5") = 1%float.
Proof. vm_compute. reflexivity. Qed.

Example parseInt10_text : parseInt10 (lit "n/a") = nan.
Proof. vm_compute. reflexivity. Qed.

Example parseInt10_rounds : parseInt10 (lit "9007199254740993") = 9007199254740992%float.
Proof. vm_compute. reflexivity. Qed.

Example parseFloat_tenth : parseFloat (lit "0.1") = 0.1%float.
Proof. vm_compute. reflexivity. Qed.

Example parseFloat_price : parseFloat (lit "1.40") = 1.4%float.
Proof. vm_compute. reflexivity. Qed.

Example parseFloat_exponent : parseFloat (lit "-12.5e2xyz") = (-1250)%float.
Proof. vm_compute. reflexivity. Qed.

Example parseFloat_point : parseFloat (lit ".5") = 0.5%float.
Proof. vm_compute. reflexivity. Qed.

Example parseFloat_text : parseFloat (lit "$1.40") = nan.
Proof. vm_compute. reflexivity. Qed.

Example parseFloat_small : parseFloat (lit "5e-324") = 5e-324%float.
Proof. vm_compute. reflexivity. Qed.

Example parseFloat_large : parseFloat (lit "1.7976931348623157e308") = 1.7976931348623157e308%float.
Proof. vm_compute. reflexivity. Qed.

Example parseFloat_overflow : parseFloat (lit "1.8e308") = infinity.
Proof. vm_compute. reflexivity. Qed.

Example orZero_negative_zero : orZero (parseFloat (lit "-0")) = zero.
Proof. vm_compute. reflexivity. Qed.

Example jsAdd_undefined : jsAdd None (Some 1%float) = Some nan.
Proof. reflexivity. Qed.

(** A quantity cell that begins with digits is read as those digits. *)
Example coerce_quantity_prefix : coerce K_quantity (lit "12abc") = VNum 12%float.
Proof. vm_compute. reflexivity. Qed.

(** The summary test splits the trimmed line: trailing tabs do not count as
    fields. *)
Example isSummaryLine_trailing_tabs :
  let line := row ["Country Of Sale"; "Currency"; "Quantity"; ""; ""; ""; ""]%string [TAB] in
  length (split line [TAB]) = 7 /\ isSummaryLine line [TAB] = true.
Proof. split; reflexivity. Qed.

Example detectDelimiter_tabs :
  detectDelimiter (row ["a"; "b"; "c,d"]%string [TAB]) = [TAB].
Proof. reflexivity. Qed.

Example detectDelimiter_tie :
  detectDelimiter (row ["a"; "b,c"]%string [TAB]) = [COMMA].
Proof. reflexivity. Qed.

(** ** Strings *)

Lemma startsWith_iff (s p : str) :
  startsWith s p = true <-> exists r, s = p ++ r.
Proof.
  revert s; induction p as [|a p IH]; intros s; simpl.
  - split; [intros _; exists s; reflexivity | reflexivity].
  - destruct s as [|b s].
    + split; [discriminate | intros [r Hr]; discriminate].
    + rewrite andb_true_iff, N.eqb_eq, IH. split.
      * intros [-> [r ->]]. exists r; reflexivity.
      * intros [r Hr]. injection Hr as -> ->. split; [reflexivity | exists r; reflexivity].
Qed.

Lemma includes_iff (s p : str) :
  includes s p = true <-> exists l r, s = l ++ p ++ r.
Proof.
  induction s as [|c s IH]; simpl.
  - rewrite orb_false_r, startsWith_iff. split.
    + intros [r Hr]. exists [], r. exact Hr.
    + intros [l [r Hr]]. destruct l as [|x l]; [|discriminate].
      exists r. exact Hr.
  - rewrite orb_true_iff, startsWith_iff, IH. split.
    + intros [[r Hr] | [l [r Hr]]].
      * exists [], r. exact Hr.
      * exists (c :: l), r. simpl. rewrite Hr. reflexivity.
    + intros [l [r Hr]]. destruct l as [|x l].
      * left. exists r. exact Hr.
      * right. injection Hr as _ Hr. exists l, r. exact Hr.
Qed.

Lemma str_eqb_eq (a b : str) : str_eqb a b = true <-> a = b.
Proof.
  unfold str_eqb. destruct (list_eq_dec N.eq_dec a b); split; congruence.
Qed.

Lemma str_eqb_refl (a : str) : str_eqb a a = true.
Proof. apply str_eqb_eq. reflexivity. Qed.

Lemma ostr_eqb_eq (a b : option str) : ostr_eqb a b = true <-> a = b.
Proof.
  destruct a as [a|], b as [b|]; simpl; try (split; congruence).
  rewrite str_eqb_eq. split; congruence.
Qed.


Lemma countMatches_app (c : N) (a b : str) :
  countMatches c (a ++ b) = countMatches c a + countMatches c b.
Proof. apply count_occ_app. Qed.

(** Joining lines with a line feed adds no tab and no comma. *)
Lemma countMatches_join (c : N) (ls : list str) :
  c <> LF ->
  countMatches c (join ls [LF]) = list_sum (map (countMatches c) ls).
Proof.
  intros Hc. induction ls as [|x rest IH]; [reflexivity|].
  destruct rest as [|y rest].
  - cbn [join map list_sum fold_right]. symmetry. apply Nat.add_0_r.
  - change (join (x :: y :: rest) [LF]) with (x ++ [LF] ++ join (y :: rest) [LF]).
    rewrite !countMatches_app, IH.
    change (map (countMatches c) (x :: y :: rest))
      with (countMatches c x :: map (countMatches c) (y :: rest)).
    cbn [list_sum fold_right].
    assert (countMatches c [LF] = 0) as ->; [|reflexivity].
    unfold countMatches. apply count_occ_not_In. intros [H|[]]. congruence.
Qed.

(* ================================================================= *)
(** ** Delimiter detection *)

(** C4. [detectDelimiter] is total; it answers tab exactly when the tabs of
    the first five physical lines strictly outnumber their commas, and comma
    in every other case, the empty text included. *)
Theorem C4_detectDelimiter_majority (content : str) :
  (detectDelimiter content = [TAB]
     <-> countAcross COMMA content < countAcross TAB content)
  /\ (detectDelimiter content = [COMMA]
     <-> countAcross TAB content <= countAcross COMMA content)
  /\ (detectDelimiter content = [TAB] \/ detectDelimiter content = [COMMA])
  /\ detectDelimiter [] = [COMMA].
Proof.
  unfold detectDelimiter, countAcross, firstFiveLines.
  rewrite !countMatches_join by discriminate.
  set (t := list_sum (map (countMatches TAB) _)).
  set (c := list_sum (map (countMatches COMMA) _)).
  destruct (Nat.ltb_spec c t) as [H|H].
  - repeat split; try discriminate; try lia; auto.
  - repeat split; try discriminate; try lia; auto.
Qed.

(* ================================================================= *)
(** ** The summary scan *)

Lemma isSummaryLine_iff (line delimiter : str) :
  isSummaryLine line delimiter = true <-> SummaryHeader line delimiter.
Proof.
  unfold isSummaryLine, SummaryHeader.
  rewrite <- !startsWith_iff, <- orb_true_iff.
  destruct (startsWith (trim line) (lit "Country Of Sale")
            || startsWith (trim line) (lit "Country of Sale")).
  - rewrite Nat.leb_le. tauto.
  - split; [discriminate | intros [H _]; discriminate].
Qed.

Lemma isSummaryLine_false_iff (line delimiter : str) :
  isSummaryLine line delimiter = false <-> ~ SummaryHeader line delimiter.
Proof.
  rewrite <- isSummaryLine_iff.
  destruct (isSummaryLine line delimiter); split; congruence.
Qed.

Lemma findSummaryFrom_Some (n : nat) (lines : list str) (delimiter : str) (i : nat) :
  findSummaryFrom n lines delimiter = Some i ->
  i < n /\ SummaryHeader (nth i lines []) delimiter
  /\ forall j, i < j < n -> ~ SummaryHeader (nth j lines []) delimiter.
Proof.
  induction n as [|n IH]; simpl; [discriminate|].
  destruct (isSummaryLine (nth n lines []) delimiter) eqn:E.
  - intros [= <-]. split; [lia|]. split; [apply isSummaryLine_iff, E|].
    intros j Hj. lia.
  - intros H. destruct (IH H) as (Hi & Hs & Hlater).
    split; [lia|]. split; [exact Hs|].
    intros j Hj. destruct (Nat.eq_dec j n) as [->|Hne].
    + apply isSummaryLine_false_iff, E.
    + apply Hlater. lia.
Qed.

Lemma findSummaryFrom_None (n : nat) (lines : list str) (delimiter : str) :
  findSummaryFrom n lines delimiter = None ->
  forall j, j < n -> ~ SummaryHeader (nth j lines []) delimiter.
Proof.
  induction n as [|n IH]; simpl; intros H j Hj; [lia|].
  destruct (isSummaryLine (nth n lines []) delimiter) eqn:E; [discriminate|].
  destruct (Nat.eq_dec j n) as [->|Hne].
  - apply isSummaryLine_false_iff, E.
  - apply IH; [exact H | lia].
Qed.

(** C2. The summary scan returns the largest index whose line is a summary
    header (trimmed text starting with either spelling, at most five fields
    when the trimmed text is split on the delimiter); when no line is one it
    returns the number of lines, and then the transaction loop visits every
    line after the header line. *)
Theorem C2_findSummaryLine_last_match (lines : list str) (delimiter : str) :
  (exists i,
      findSummaryLine lines delimiter = Z.of_nat i
      /\ i < length lines
      /\ SummaryHeader (nth i lines []) delimiter
      /\ forall j, i < j < length lines ->
                   ~ SummaryHeader (nth j lines []) delimiter)
  \/ (findSummaryLine lines delimiter = Z.of_nat (length lines)
      /\ (forall j, j < length lines ->
                    ~ SummaryHeader (nth j lines []) delimiter)
      /\ forall h : nat,
          dataIndices (Z.of_nat h) (findSummaryLine lines delimiter)
          = seq (S h) (length lines - S h)).
Proof.
  unfold findSummaryLine.
  destruct (findSummaryFrom (length lines) lines delimiter) as [i|] eqn:E.
  - left. exists i. split; [reflexivity|].
    apply findSummaryFrom_Some in E. exact E.
  - right. split; [reflexivity|]. split.
    + apply findSummaryFrom_None, E.
    + intros h. unfold dataIndices. f_equal; lia.
Qed.

(* ================================================================= *)
(** ** The header scan *)

Lemma isHeaderLine_iff (line : str) :
  isHeaderLine line = true <-> HeaderLike line.
Proof.
  unfold isHeaderLine, HeaderLike.
  rewrite andb_true_iff, !includes_iff. reflexivity.
Qed.

Lemma isHeaderLine_false_iff (line : str) :
  isHeaderLine line = false <-> ~ HeaderLike line.
Proof.
  rewrite <- isHeaderLine_iff. destruct (isHeaderLine line); split; congruence.
Qed.

Lemma findHeaderFrom_spec (window : list str) (i : nat) :
  (findHeaderFrom i window = (-1)%Z
   /\ forall j, j < length window -> ~ HeaderLike (nth j window []))
  \/ (exists j,
        findHeaderFrom i window = Z.of_nat (i + j)
        /\ j < length window
        /\ HeaderLike (nth j window [])
        /\ forall j', j' < j -> ~ HeaderLike (nth j' window [])).
Proof.
  revert i; induction window as [|line rest IH]; intros i; simpl.
  - left. split; [reflexivity | intros j Hj; lia].
  - destruct (isHeaderLine line) eqn:E.
    + right. exists 0. rewrite Nat.add_0_r.
      split; [reflexivity|]. split; [lia|]. split; [apply isHeaderLine_iff, E|].
      intros j' Hj'. lia.
    + destruct (IH (S i)) as [[Hm Hall] | (j & Hj & Hlt & Hh & Hfirst)].
      * left. split; [exact Hm|]. intros [|j] Hj.
        -- apply isHeaderLine_false_iff, E.
        -- apply Hall. lia.
      * right. exists (S j). split; [rewrite Hj; f_equal; lia|].
        split; [lia|]. split; [exact Hh|]. intros [|j'] Hj'.
        -- apply isHeaderLine_false_iff, E.
        -- apply Hfirst. lia.
Qed.

Lemma nth_firstn {A : Type} (n j : nat) (l : list A) (d : A) :
  j < n -> nth j (firstn n l) d = nth j l d.
Proof.
  revert j l; induction n as [|n IH]; intros j l Hj; [lia|].
  destruct l as [|x l]; [destruct j; reflexivity|].
  destruct j as [|j]; [reflexivity|]. simpl. apply IH. lia.
Qed.

(** The header scan over the first ten lines: it answers [-1] exactly when
    none of them is header-like, and the index of the first header-like one
    otherwise. *)
Lemma findHeaderLine_spec (lines : list str) (delimiter : str) :
  (findHeaderLine lines delimiter = (-1)%Z
   /\ forall j, j < 10 -> j < length lines -> ~ HeaderLike (nth j lines []))
  \/ (exists j,
        findHeaderLine lines delimiter = Z.of_nat j
        /\ j < 10 /\ j < length lines
        /\ HeaderLike (nth j lines [])
        /\ forall j', j' < j -> ~ HeaderLike (nth j' lines [])).
Proof.
  unfold findHeaderLine.
  assert (Hlen : length (firstn 10 lines) = Nat.min 10 (length lines))
    by apply length_firstn.
  destruct (findHeaderFrom_spec (firstn 10 lines) 0)
    as [[Hm Hall] | (j & Hj & Hlt & Hh & Hfirst)].
  - left. split; [exact Hm|]. intros j Hj Hj'.
    rewrite <- (nth_firstn 10) by exact Hj. apply Hall. lia.
  - right. exists j. split; [exact Hj|].
    assert (j < 10) by lia.
    split; [lia|]. split; [lia|]. split.
    + rewrite <- (nth_firstn 10) by lia. exact Hh.
    + intros j' Hj'. rewrite <- (nth_firstn 10) by lia. apply Hfirst, Hj'.
Qed.

(* ================================================================= *)
(** ** Row decoding *)

Lemma Key_eqb_eq (a b : Key) : Key_eqb a b = true <-> a = b.
Proof. destruct a, b; simpl; split; congruence. Qed.

Lemma field_assign (k k' : Key) (v : str) (t : Transaction.t) :
  field k (assign k' v t)
  = if Key_eqb k' k then Some (coerce k' v) else field k t.
Proof. destruct k, k'; reflexivity. Qed.

Lemma decodeFrom_field (k : Key) (headers row : list str) :
  forall (i : nat) (t : Transaction.t),
    field k (decodeFrom i headers row t)
    = match lastColumn k headers with
      | Some j => Some (coerce k (cell row (i + j)))
      | None => field k t
      end.
Proof.
  induction headers as [|header rest IH]; intros i t; simpl; [reflexivity|].
  rewrite IH. destruct (lastColumn k rest) as [j|].
  - f_equal. f_equal. f_equal. lia.
  - destruct (COLUMN_MAP header) as [k'|]; [|reflexivity].
    rewrite field_assign. destruct (Key_eqb k' k) eqn:E; [|reflexivity].
    apply Key_eqb_eq in E. subst k'. rewrite Nat.add_0_r. reflexivity.
Qed.

Lemma lastColumn_None (k : Key) (headers : list str) :
  lastColumn k headers = None ->
  forall j header, nth_error headers j = Some header -> COLUMN_MAP header <> Some k.
Proof.
  induction headers as [|h rest IH]; simpl; intros H j header Hj.
  - destruct j; discriminate.
  - destruct (lastColumn k rest) as [j0|]; [discriminate|].
    destruct j as [|j]; simpl in Hj.
    + injection Hj as ->. destruct (COLUMN_MAP header) as [k'|]; [|discriminate].
      destruct (Key_eqb k' k) eqn:E; [discriminate|].
      intros [= ->]. destruct k; discriminate.
    + apply (IH eq_refl j header Hj).
Qed.

Lemma lastColumn_ColumnOf (k : Key) (headers : list str) (i : nat) :
  ColumnOf k headers i -> lastColumn k headers = Some i.
Proof.
  revert i; induction headers as [|h rest IH]; intros i [[header [Hn Hm]] Hlast].
  - destruct i; discriminate.
  - simpl. destruct i as [|i]; simpl in Hn.
    + injection Hn as ->.
      destruct (lastColumn k rest) as [j|] eqn:E.
      * exfalso. clear IH.
        assert (exists h', nth_error rest j = Some h' /\ COLUMN_MAP h' = Some k)
          as (h' & Hh' & Hk').
        { clear Hlast Hm. revert j E.
          induction rest as [|x rest IH]; simpl; intros j E; [discriminate|].
          destruct (lastColumn k rest) as [j0|] eqn:E0.
          - injection E as <-. simpl. apply IH. reflexivity.
          - destruct (COLUMN_MAP x) as [k'|] eqn:Ex; [|discriminate].
            destruct (Key_eqb k' k) eqn:Ek; [|discriminate].
            injection E as <-. apply Key_eqb_eq in Ek. subst k'.
            exists x. split; [reflexivity | exact Ex]. }
        apply (Hlast (S j) h'); [lia | exact Hh' | exact Hk'].
      * rewrite Hm. replace (Key_eqb k k) with true; [reflexivity|].
        symmetry. apply Key_eqb_eq. reflexivity.
    + rewrite (IH i); [reflexivity|]. split.
      * exists header. split; assumption.
      * intros j header' Hj Hn'. apply (Hlast (S j) header'); [lia | exact Hn'].
Qed.

(** X1. The decoded field of a column is the coerced text of its cell. *)
Lemma decode_column (k : Key) (headers row : list str) (i : nat) :
  ColumnOf k headers i ->
  field k (decodeFrom 0 headers row Transaction.empty)
  = Some (coerce k (cell row i)).
Proof.
  intros H. rewrite decodeFrom_field, (lastColumn_ColumnOf _ _ _ H).
  reflexivity.
Qed.

(** A key with no column stays [undefined]. *)
Lemma decode_unmapped (k : Key) (headers row : list str) :
  (forall j header, nth_error headers j = Some header -> COLUMN_MAP header <> Some k) ->
  field k (decodeFrom 0 headers row Transaction.empty) = None.
Proof.
  intros H. rewrite decodeFrom_field.
  destruct (lastColumn k headers) as [j|] eqn:E.
  - exfalso. revert j E H. induction headers as [|x rest IH]; simpl; intros j E H.
    + discriminate.
    + destruct (lastColumn k rest) as [j0|] eqn:E0.
      * apply (IH j0 eq_refl). intros j' h' Hj'. apply (H (S j') h'). exact Hj'.
      * destruct (COLUMN_MAP x) as [k'|] eqn:Ex; [|discriminate].
        destruct (Key_eqb k' k) eqn:Ek; [|discriminate].
        apply Key_eqb_eq in Ek. subst k'. apply (H 0 x); [reflexivity | exact Ex].
  - destruct k; reflexivity.
Qed.

(* ----------------------------------------------------------------- *)
(** *** Numeric cells *)

Lemma readSign_Sign (s : str) :
  exists sign, Sign sign /\ s = sign ++ snd (readSign s).
Proof.
  destruct s as [|c r]; simpl.
  - exists []. split; [left; reflexivity | reflexivity].
  - destruct (N.eqb_spec c 45) as [->|H45]; simpl.
    + exists (lit "-"). split; [right; right; reflexivity | reflexivity].
    + destruct (N.eqb_spec c 43) as [->|H43]; simpl.
      * exists (lit "+"). split; [right; left; reflexivity | reflexivity].
      * exists []. split; [left; reflexivity | reflexivity].
Qed.

(** A sign is read whenever one stands at the head. *)
Lemma readSign_app (sign : str) (c : N) (rest : str) :
  Sign sign -> c <> 45%N -> c <> 43%N ->
  snd (readSign (sign ++ c :: rest)) = c :: rest.
Proof.
  intros [ -> | [ -> | -> ] ] H45 H43; simpl; try reflexivity.
  destruct (N.eqb_spec c 45); [contradiction|].
  destruct (N.eqb_spec c 43); [contradiction|]. reflexivity.
Qed.

Lemma isDigit_not_sign (d : N) :
  isDigit d = true -> d <> 45%N /\ d <> 43%N.
Proof.
  unfold isDigit. rewrite andb_true_iff, !N.leb_le. lia.
Qed.

Lemma isIntegerText_iff (v : str) :
  isIntegerText v = true <-> IntegerText v.
Proof.
  unfold isIntegerText, IntegerText. split.
  - intros H. destruct (readSign_Sign (trimStart v)) as (sign & Hs & Heq).
    destruct (snd (readSign (trimStart v))) as [|d rest]; [discriminate|].
    exists sign, d, rest. auto.
  - intros (sign & d & rest & Hs & Hd & Heq). rewrite Heq.
    destruct (isDigit_not_sign d Hd) as [H45 H43].
    rewrite readSign_app by assumption. exact Hd.
Qed.

Lemma isDecimalText_iff (v : str) :
  isDecimalText v = true <-> DecimalText v.
Proof.
  unfold isDecimalText, DecimalText. split.
  - intros H. destruct (readSign_Sign (trimStart v)) as (sign & Hs & Heq).
    destruct (snd (readSign (trimStart v))) as [|c r] eqn:E.
    + discriminate.
    + rewrite !orb_true_iff in H. destruct H as [[H|H]|H].
      * apply startsWith_iff in H. destruct H as [rest Hr].
        exists sign, rest. split; [exact Hs|]. left. rewrite Heq, Hr. reflexivity.
      * exists sign, r. split; [exact Hs|]. right. exists c. split; [exact H|].
        left. exact Heq.
      * apply andb_true_iff in H. destruct H as [Hc Hd].
        apply N.eqb_eq in Hc. subst c.
        destruct r as [|d rest]; [discriminate|].
        exists sign, rest. split; [exact Hs|]. right. exists d. split; [exact Hd|].
        right. exact Heq.
  - intros (sign & rest & Hs & [Heq | (d & Hd & [Heq | Heq])]); rewrite Heq.
    + change (lit "Infinity" ++ rest) with (73%N :: (tl (lit "Infinity") ++ rest)).
      rewrite readSign_app by (assumption || discriminate). reflexivity.
    + destruct (isDigit_not_sign d Hd) as [H45 H43].
      rewrite readSign_app by assumption. cbn [headIsDigit]. rewrite Hd.
      rewrite orb_true_r. reflexivity.
    + change (lit "." ++ d :: rest) with (46%N :: d :: rest).
      rewrite readSign_app by (assumption || discriminate).
      cbn [headIsDigit]. rewrite Hd. simpl. rewrite ?orb_true_r. reflexivity.
Qed.

Lemma span_no_digit (s : str) :
  headIsDigit s = false -> span isDigit s = ([], s).
Proof.
  destruct s as [|c r]; simpl; [reflexivity|]. intros ->. reflexivity.
Qed.

Lemma readSign_pair (s : str) :
  readSign s = (fst (readSign s), snd (readSign s)).
Proof. destruct (readSign s); reflexivity. Qed.

Lemma parseInt10_nan (v : str) :
  ~ IntegerText v -> parseInt10 v = nan.
Proof.
  rewrite <- isIntegerText_iff. unfold isIntegerText, parseInt10.
  intros H. rewrite readSign_pair.
  rewrite span_no_digit; [reflexivity|].
  destruct (headIsDigit _); congruence.
Qed.

Lemma parseFloat_nan (v : str) :
  ~ DecimalText v -> parseFloat v = nan.
Proof.
  rewrite <- isDecimalText_iff. unfold isDecimalText, parseFloat.
  intros H. rewrite readSign_pair.
  set (r := snd (readSign (trimStart v))) in *.
  destruct (startsWith r (lit "Infinity")); [exfalso; apply H; reflexivity|].
  destruct (headIsDigit r) eqn:Hd; [exfalso; apply H; reflexivity|].
  rewrite (span_no_digit r Hd).
  destruct r as [|c r']; [reflexivity|].
  destruct (N.eqb c 46); [|reflexivity].
  destruct (headIsDigit r') eqn:Hd'; [exfalso; apply H; reflexivity|].
  rewrite (span_no_digit r' Hd'). reflexivity.
Qed.

Lemma orZero_nan : orZero nan = zero.
Proof. reflexivity. Qed.

Lemma coerce_unreadable (k : Key) (v : str) :
  numericKey k = true -> ~ NumericText k v -> coerce k v = VNum zero.
Proof.
  destruct k; try discriminate; intros _ H; unfold coerce;
    (rewrite parseInt10_nan by exact H) || (rewrite parseFloat_nan by exact H);
    rewrite orZero_nan; reflexivity.
Qed.

Lemma cell_missing (row : list str) (i : nat) :
  length row <= i -> cell row i = [].
Proof.
  intros H. unfold cell. apply nth_error_None in H. rewrite H. reflexivity.
Qed.

Lemma empty_not_NumericText (k : Key) : ~ NumericText k [].
Proof.
  assert (Hi : ~ IntegerText []).
  { rewrite <- isIntegerText_iff. discriminate. }
  assert (Hd : ~ DecimalText []).
  { rewrite <- isDecimalText_iff. discriminate. }
  destruct k; assumption.
Qed.

Lemma lastColumn_Some (k : Key) (headers : list str) (i : nat) :
  lastColumn k headers = Some i ->
  exists header, nth_error headers i = Some header /\ COLUMN_MAP header = Some k.
Proof.
  revert i; induction headers as [|x rest IH]; simpl; intros i E; [discriminate|].
  destruct (lastColumn k rest) as [j0|] eqn:E0.
  - injection E as <-. simpl. apply IH. reflexivity.
  - destruct (COLUMN_MAP x) as [k'|] eqn:Ex; [|discriminate].
    destruct (Key_eqb k' k) eqn:Ek; [|discriminate].
    injection E as <-. apply Key_eqb_eq in Ek. subst k'.
    exists x. split; [reflexivity | exact Ex].
Qed.

Lemma lastColumn_later (k : Key) (headers : list str) (i : nat) :
  lastColumn k headers = Some i ->
  forall j header, i < j -> nth_error headers j = Some header ->
                   COLUMN_MAP header <> Some k.
Proof.
  revert i; induction headers as [|x rest IH]; simpl; intros i E j header Hj Hn;
    [discriminate|].
  destruct j as [|j]; [lia|]. simpl in Hn.
  destruct (lastColumn k rest) as [j0|] eqn:E0.
  - injection E as <-. apply (IH j0 eq_refl j header); [lia | exact Hn].
  - apply (lastColumn_None k rest E0 j header Hn).
Qed.

(** [lastColumn] finds the column of [k]. *)
Lemma lastColumn_iff (k : Key) (headers : list str) (i : nat) :
  lastColumn k headers = Some i <-> ColumnOf k headers i.
Proof.
  split.
  - intros H. split; [apply lastColumn_Some, H | apply lastColumn_later, H].
  - apply lastColumn_ColumnOf.
Qed.

(* ----------------------------------------------------------------- *)
(** *** The validity filter of parseTransaction *)

Lemma falsy_false_iff (x : option str) :
  falsy x = false <-> exists s, x = Some s /\ s <> [].
Proof.
  destruct x as [[|c s]|]; simpl; split; try discriminate.
  - intros (s & [= <-] & H). congruence.
  - intros _. exists (c :: s). split; [reflexivity | discriminate].
  - intros (s' & _ & _). reflexivity.
  - intros (s & H & _). discriminate.
Qed.

Lemma parseTransaction_Some (row headers : list str) (t : Transaction.t) :
  parseTransaction row headers = Some t ->
  t = decodeFrom 0 headers row Transaction.empty
  /\ falsy (Transaction.countryOfSale t) = false
  /\ falsy (Transaction.partnerShareCurrency t) = false.
Proof.
  unfold parseTransaction.
  destruct (falsy (Transaction.countryOfSale _)) eqn:E1; [discriminate|].
  destruct (falsy (Transaction.partnerShareCurrency _)) eqn:E2; [discriminate|].
  simpl. intros [= <-]. auto.
Qed.

Lemma parseTransaction_None_iff (row headers : list str) :
  parseTransaction row headers = None
  <-> falsy (Transaction.countryOfSale (decodeFrom 0 headers row Transaction.empty))
      || falsy (Transaction.partnerShareCurrency
                  (decodeFrom 0 headers row Transaction.empty)) = true.
Proof.
  unfold parseTransaction.
  destruct (falsy (Transaction.countryOfSale _) || falsy _); split; congruence.
Qed.

Lemma decode_text_agree (k : Key) (headers row row' : list str) :
  numericKey k = false -> agreeOnText headers row row' ->
  field k (decodeFrom 0 headers row' Transaction.empty)
  = field k (decodeFrom 0 headers row Transaction.empty).
Proof.
  intros Hk Hag. rewrite !decodeFrom_field.
  destruct (lastColumn k headers) as [j|] eqn:E; [|reflexivity].
  destruct (lastColumn_Some _ _ _ E) as (header & Hn & Hm).
  simpl. rewrite (Hag j header k Hn Hm Hk). reflexivity.
Qed.

Lemma option_map_VStr_inj (a b : option str) :
  option_map VStr a = option_map VStr b -> a = b.
Proof. destruct a, b; simpl; congruence. Qed.

Lemma parseTransaction_text_only (headers row row' : list str) :
  agreeOnText headers row row' ->
  (parseTransaction row' headers = None <-> parseTransaction row headers = None).
Proof.
  intros Hag. rewrite !parseTransaction_None_iff.
  assert (Hc := decode_text_agree K_countryOfSale headers row row' eq_refl Hag).
  assert (Hp := decode_text_agree K_partnerShareCurrency headers row row' eq_refl Hag).
  apply option_map_VStr_inj in Hc, Hp. rewrite Hc, Hp. reflexivity.
Qed.

(** C8. When the cell of a numeric column (Quantity, Partner Share, Extended
    Partner Share, Customer Price) is missing or holds text its parser
    cannot read, the decoded field is the number 0; and whether a row is
    kept or dropped never depends on its numeric cells. *)
Theorem C8_unreadable_number_is_zero
  (headers row : list str) (k : Key) (i : nat) :
  numericKey k = true ->
  lastColumn k headers = Some i ->
  length row <= i \/ ~ NumericText k (cell row i) ->
  field k (decodeFrom 0 headers row Transaction.empty) = Some (VNum zero)
  /\ (forall t, parseTransaction row headers = Some t ->
                field k t = Some (VNum zero))
  /\ (forall row', agreeOnText headers row row' ->
                   (parseTransaction row' headers = None
                    <-> parseTransaction row headers = None)).
Proof.
  intros Hk Hcol Hbad.
  assert (Hnum : ~ NumericText k (cell row i)).
  { destruct Hbad as [Hlen | H]; [|exact H].
    rewrite (cell_missing row i Hlen). apply empty_not_NumericText. }
  assert (Hfield : field k (decodeFrom 0 headers row Transaction.empty)
                   = Some (VNum zero)).
  { rewrite decodeFrom_field, Hcol. simpl.
    rewrite (coerce_unreadable k _ Hk Hnum). reflexivity. }
  split; [exact Hfield|]. split.
  - intros t Ht. apply parseTransaction_Some in Ht. destruct Ht as [-> _].
    exact Hfield.
  - intros row'. apply parseTransaction_text_only.
Qed.

Lemma C8_witness :
  lastColumn K_quantity sampleHeaders = Some 2
  /\ ~ NumericText K_quantity (cell sampleRowUnreadable 2)
  /\ lastColumn K_extendedPartnerShare sampleHeaders = Some 3
  /\ length sampleRowUnreadable <= 3
  /\ field K_quantity
       (decodeFrom 0 sampleHeaders sampleRowUnreadable Transaction.empty)
     = Some (VNum zero)
  /\ field K_extendedPartnerShare
       (decodeFrom 0 sampleHeaders sampleRowUnreadable Transaction.empty)
     = Some (VNum zero).
Proof.
  assert (Hbad : ~ NumericText K_quantity (cell sampleRowUnreadable 2)).
  { intros H. apply isIntegerText_iff in H. vm_compute in H. discriminate H. }
  assert (Hlen : length sampleRowUnreadable <= 3) by (simpl; lia).
  split; [reflexivity|]. split; [exact Hbad|].
  split; [reflexivity|]. split; [exact Hlen|]. split.
  - exact (proj1 (C8_unreadable_number_is_zero
                    sampleHeaders sampleRowUnreadable K_quantity 2
                    eq_refl eq_refl (or_intror Hbad))).
  - exact (proj1 (C8_unreadable_number_is_zero
                    sampleHeaders sampleRowUnreadable K_extendedPartnerShare 3
                    eq_refl eq_refl (or_introl Hlen))).
Defined.

(* ================================================================= *)
(** ** The report of a successful parse *)

Lemma pushed_retained (content : str) (i : nat) :
  pushed (nonBlankLines content) (delimiterOf content) (headersOf content) i
  = if retained content i then [decoded content i] else [].
Proof.
  unfold pushed, retained, parseTransaction, decoded, rowAt.
  destruct (falsy (Transaction.countryOfSale _)); simpl; [reflexivity|].
  destruct (falsy (Transaction.partnerShareCurrency _)); simpl; [reflexivity|].
  reflexivity.
Qed.

Lemma flat_map_pushed (content : str) (indices : list nat) :
  flat_map (pushed (nonBlankLines content) (delimiterOf content) (headersOf content))
           indices
  = map (decoded content) (filter (retained content) indices).
Proof.
  induction indices as [|i rest IH]; [reflexivity|].
  simpl. rewrite pushed_retained, IH.
  destruct (retained content i); reflexivity.
Qed.

(** What a successful parse computed. *)
Lemma parseAppleReport_Ok (localeCompare : str -> str -> Z)
  (content : str) (r : ParsedReport.t) :
  parseAppleReport localeCompare content = Ok r ->
  (exists h : nat, headerIndex content = Z.of_nat h)
  /\ ParsedReport.metadata r
     = parseMetadata (nonBlankLines content) (delimiterOf content)
  /\ ParsedReport.transactions r
     = map (decoded content) (filter (retained content) (dataRegion content))
  /\ aggregateByCountry localeCompare (ParsedReport.transactions r)
     = Ok (Summary.byCountry (ParsedReport.summary r))
  /\ aggregateByProduct localeCompare (ParsedReport.transactions r)
     = Ok (Summary.byProduct (ParsedReport.summary r))
  /\ aggregateByCurrency localeCompare (ParsedReport.transactions r)
     = Ok (Summary.byCurrency (ParsedReport.summary r))
  /\ Summary.totalTransactions (ParsedReport.summary r)
     = length (ParsedReport.transactions r).
Proof.
  unfold parseAppleReport.
  fold (delimiterOf content). fold (headerIndex content).
  fold (summaryIndex content). fold (headersOf content).
  fold (dataRegion content).
  rewrite flat_map_pushed.
  destruct (Z.eqb_spec (headerIndex content) (-1)) as [E|E]; [discriminate|].
  set (ts := map (decoded content) _).
  destruct (aggregateByCountry localeCompare ts) as [bc|e] eqn:Ec; [|discriminate].
  destruct (aggregateByProduct localeCompare ts) as [bp|e] eqn:Ep; [|discriminate].
  destruct (aggregateByCurrency localeCompare ts) as [bu|e] eqn:Eu; [|discriminate].
  simpl. intros [= <-]. simpl.
  repeat split; try assumption; try reflexivity.
  unfold headerIndex in *.
  destruct (findHeaderLine_spec (nonBlankLines content) (delimiterOf content))
    as [[Hm _] | (j & Hj & _)]; [contradiction|].
  exists j. exact Hj.
Qed.

Lemma filter_none {A : Type} (f : A -> bool) (l : list A) :
  (forall x, f x = false) -> filter f l = [].
Proof.
  intros H. induction l as [|x l IH]; simpl; [reflexivity|].
  rewrite H. exact IH.
Qed.

Lemma retained_iff (content : str) (i : nat) :
  retained content i = true
  <-> Transaction.saleOrReturn (decoded content i) = Some (lit "S")
      /\ (exists c, Transaction.countryOfSale (decoded content i) = Some c /\ c <> [])
      /\ (exists p, Transaction.partnerShareCurrency (decoded content i) = Some p
                    /\ p <> []).
Proof.
  unfold retained, isSale.
  rewrite !andb_true_iff, !negb_true_iff, !falsy_false_iff, ostr_eqb_eq.
  tauto.
Qed.

Lemma dataIndices_In (h : nat) (s : Z) (i : nat) :
  In i (dataIndices (Z.of_nat h) s) <-> (Z.of_nat h < Z.of_nat i < s)%Z.
Proof. unfold dataIndices. rewrite in_seq. lia. Qed.

Lemma sampleFile_parses :
  parseAppleReport codeUnitCompare sampleFile = Ok sampleReport.
Proof. vm_compute. reflexivity. Qed.

(** C5. In the report of a successful parse every listed transaction
    carries the sale code [S]; the list is exactly the decoded data rows
    that are sales with a country and a currency, so a row with any other
    indicator is never in it; and the three aggregates are computed from
    that list alone. *)
Theorem C5_returns_discarded (localeCompare : str -> str -> Z)
  (content : str) (r : ParsedReport.t) :
  parseAppleReport localeCompare content = Ok r ->
  Forall (fun t => Transaction.saleOrReturn t = Some (lit "S"))
         (ParsedReport.transactions r)
  /\ ParsedReport.transactions r
     = map (decoded content) (filter (retained content) (dataRegion content))
  /\ (forall i, Transaction.saleOrReturn (decoded content i) <> Some (lit "S") ->
                retained content i = false
                /\ pushed (nonBlankLines content) (delimiterOf content)
                          (headersOf content) i = []
                /\ ~ In (decoded content i) (ParsedReport.transactions r))
  /\ aggregateByCountry localeCompare (ParsedReport.transactions r)
     = Ok (Summary.byCountry (ParsedReport.summary r))
  /\ aggregateByProduct localeCompare (ParsedReport.transactions r)
     = Ok (Summary.byProduct (ParsedReport.summary r))
  /\ aggregateByCurrency localeCompare (ParsedReport.transactions r)
     = Ok (Summary.byCurrency (ParsedReport.summary r)).
Proof.
  intros H. apply parseAppleReport_Ok in H.
  destruct H as (_ & _ & Hts & Hc & Hp & Hu & _).
  assert (Hall : Forall (fun t => Transaction.saleOrReturn t = Some (lit "S"))
                        (ParsedReport.transactions r)).
  { rewrite Hts. apply Forall_forall. intros t Ht.
    apply in_map_iff in Ht. destruct Ht as (i & <- & Hi).
    apply filter_In in Hi. destruct Hi as [_ Hi].
    apply retained_iff in Hi. apply Hi. }
  split; [exact Hall|]. split; [exact Hts|]. split; [|auto].
  intros i Hi.
  assert (Hr : retained content i = false).
  { destruct (retained content i) eqn:E; [|reflexivity].
    apply retained_iff in E. destruct E as [E _]. contradiction. }
  split; [exact Hr|]. split.
  - rewrite pushed_retained, Hr. reflexivity.
  - intros Hin. rewrite Forall_forall in Hall. apply Hi, Hall, Hin.
Qed.

Lemma C5_witness :
  parseAppleReport codeUnitCompare sampleFile = Ok sampleReport
  /\ Forall (fun t => Transaction.saleOrReturn t = Some (lit "S"))
            (ParsedReport.transactions sampleReport)
  /\ Transaction.saleOrReturn (decoded sampleFile 7) = Some (lit "R")
  /\ ~ In (decoded sampleFile 7) (ParsedReport.transactions sampleReport).
Proof.
  assert (H : parseAppleReport codeUnitCompare sampleFile = Ok sampleReport)
    by (vm_compute; reflexivity).
  split; [exact H|].
  pose proof (C5_returns_discarded codeUnitCompare sampleFile sampleReport H)
    as (Hall & _ & Hdrop & _).
  split; [exact Hall|]. split; [vm_compute; reflexivity|].
  apply Hdrop. vm_compute. discriminate.
Defined.

(** C9. In the report of a successful parse [totalTransactions] is the
    length of the transaction list, which is the number of lines strictly
    between the header line and the summary boundary that decode to a sale
    with a non-empty country and a non-empty currency. *)
Theorem C9_totalTransactions_counts_retained (localeCompare : str -> str -> Z)
  (content : str) (r : ParsedReport.t) :
  parseAppleReport localeCompare content = Ok r ->
  Summary.totalTransactions (ParsedReport.summary r)
  = length (ParsedReport.transactions r)
  /\ length (ParsedReport.transactions r)
     = length (filter (retained content) (dataRegion content))
  /\ (forall i, In i (dataRegion content)
                <-> (headerIndex content < Z.of_nat i < summaryIndex content)%Z)
  /\ (forall i, retained content i = true
                <-> Transaction.saleOrReturn (decoded content i) = Some (lit "S")
                    /\ (exists c, Transaction.countryOfSale (decoded content i)
                                  = Some c /\ c <> [])
                    /\ (exists p, Transaction.partnerShareCurrency (decoded content i)
                                  = Some p /\ p <> [])).
Proof.
  intros H. apply parseAppleReport_Ok in H.
  destruct H as ([h Hh] & _ & Hts & _ & _ & _ & Htot).
  split; [exact Htot|]. split; [rewrite Hts; apply length_map|]. split.
  - intros i. unfold dataRegion. rewrite Hh. apply dataIndices_In.
  - apply retained_iff.
Qed.

Lemma C9_witness :
  parseAppleReport codeUnitCompare sampleFile = Ok sampleReport
  /\ Summary.totalTransactions (ParsedReport.summary sampleReport) = 4
  /\ length (filter (retained sampleFile) (dataRegion sampleFile)) = 4
  /\ dataRegion sampleFile = [4; 5; 6; 7; 8; 9].
Proof.
  assert (H : parseAppleReport codeUnitCompare sampleFile = Ok sampleReport)
    by (vm_compute; reflexivity).
  split; [exact H|].
  pose proof (C9_totalTransactions_counts_retained codeUnitCompare sampleFile
                sampleReport H) as (Htot & Hlen & _).
  split; [|split].
  - rewrite Htot. vm_compute. reflexivity.
  - rewrite <- Hlen. vm_compute. reflexivity.
  - vm_compute. reflexivity.
Defined.

(* ================================================================= *)
(** ** Grouping into a Map *)

Section GroupBy.
Context {K V T : Type}.
Variable eqb : K -> K -> bool.
Hypothesis eqb_eq : forall a b, eqb a b = true <-> a = b.
Variable key : T -> K.
Variable init : T -> V.
Variable upd : V -> T -> V.

Lemma eqb_refl (a : K) : eqb a a = true.
Proof. apply eqb_eq. reflexivity. Qed.

Lemma eqb_neq (a b : K) : a <> b -> eqb a b = false.
Proof.
  intros H. destruct (eqb a b) eqn:E; [|reflexivity].
  apply eqb_eq in E. contradiction.
Qed.

Lemma map_get_set_eq (m : list (K * V)) (k : K) (v : V) :
  map_get eqb (map_set eqb m k v) k = Some v.
Proof.
  induction m as [|[k' v'] m IH]; simpl.
  - rewrite eqb_refl. reflexivity.
  - destruct (eqb k' k) eqn:E; simpl; rewrite E; [reflexivity | exact IH].
Qed.

Lemma map_get_set_neq (m : list (K * V)) (k k' : K) (v : V) :
  k <> k' -> map_get eqb (map_set eqb m k v) k' = map_get eqb m k'.
Proof.
  intros Hne. induction m as [|[k0 v0] m IH]; simpl.
  - rewrite (eqb_neq _ _ Hne). reflexivity.
  - destruct (eqb k0 k) eqn:E; simpl.
    + apply eqb_eq in E. subst k0. rewrite (eqb_neq _ _ Hne). reflexivity.
    + destruct (eqb k0 k'); [reflexivity | exact IH].
Qed.

Lemma groupStep_get (m : list (K * V)) (t : T) (k : K) :
  map_get eqb (groupStep eqb key init upd m t) k = accum eqb key init upd k (map_get eqb m k) t.
Proof.
  unfold groupStep, accum. destruct (eqb (key t) k) eqn:E.
  - apply eqb_eq in E. subst k.
    destruct (map_get eqb m (key t)); apply map_get_set_eq.
  - assert (key t <> k) as Hne
      by (intros Hk; rewrite Hk, eqb_refl in E; discriminate).
    destruct (map_get eqb m (key t)); apply map_get_set_neq, Hne.
Qed.

Lemma group_get (ts : list T) (m : list (K * V)) (k : K) :
  map_get eqb (fold_left (groupStep eqb key init upd) ts m) k
  = fold_left (accum eqb key init upd k) ts (map_get eqb m k).
Proof.
  revert m; induction ts as [|t ts IH]; intros m; simpl; [reflexivity|].
  rewrite IH, groupStep_get. reflexivity.
Qed.

Lemma accum_fold_Some (ts : list T) (e : V) (k : K) :
  fold_left (accum eqb key init upd k) ts (Some e)
  = Some (fold_left upd (filter (fun t => eqb (key t) k) ts) e).
Proof.
  revert e; induction ts as [|t ts IH]; intros e; simpl; [reflexivity|].
  unfold accum at 2. destruct (eqb (key t) k); simpl; apply IH.
Qed.

Lemma accum_fold_None (ts : list T) (k : K) :
  fold_left (accum eqb key init upd k) ts None
  = match filter (fun t => eqb (key t) k) ts with
    | [] => None
    | t0 :: rest => Some (fold_left upd rest (init t0))
    end.
Proof.
  induction ts as [|t ts IH]; simpl; [reflexivity|].
  unfold accum at 2. destruct (eqb (key t) k); simpl; [|exact IH].
  apply accum_fold_Some.
Qed.

(** The entry of [k] after the loop: the first transaction of the key
    starts it, the later ones update it in order. *)
Lemma group_entry (ts : list T) (k : K) :
  map_get eqb (fold_left (groupStep eqb key init upd) ts []) k
  = match filter (fun t => eqb (key t) k) ts with
    | [] => None
    | t0 :: rest => Some (fold_left upd rest (init t0))
    end.
Proof. rewrite group_get. apply accum_fold_None. Qed.

Lemma map_get_Some_In (m : list (K * V)) (k : K) (v : V) :
  map_get eqb m k = Some v -> In (k, v) m.
Proof.
  induction m as [|[k' v'] m IH]; simpl; [discriminate|].
  destruct (eqb k' k) eqn:E.
  - apply eqb_eq in E. subst k'. intros [= ->]. left. reflexivity.
  - intros H. right. apply IH, H.
Qed.

Lemma map_get_None_keys (m : list (K * V)) (k : K) :
  map_get eqb m k = None -> ~ In k (map fst m).
Proof.
  induction m as [|[k' v'] m IH]; simpl; [tauto|].
  destruct (eqb k' k) eqn:E; [discriminate|].
  intros H [Hk | Hin].
  - subst k'. rewrite eqb_refl in E. discriminate.
  - apply (IH H Hin).
Qed.

Lemma map_set_keys (m : list (K * V)) (k : K) (v : V) :
  map fst (map_set eqb m k v)
  = match map_get eqb m k with
    | Some _ => map fst m
    | None => map fst m ++ [k]
    end.
Proof.
  induction m as [|[k' v'] m IH]; simpl; [reflexivity|].
  destruct (eqb k' k) eqn:E; simpl; [reflexivity|].
  rewrite IH. destruct (map_get eqb m k); reflexivity.
Qed.

Lemma groupStep_NoDup (m : list (K * V)) (t : T) :
  NoDup (map fst m) -> NoDup (map fst (groupStep eqb key init upd m t)).
Proof.
  intros H. unfold groupStep.
  destruct (map_get eqb m (key t)) as [e|] eqn:E; rewrite map_set_keys, E.
  - exact H.
  - apply NoDup_app; [exact H | repeat constructor; intros [] |].
    intros a Ha [<- | []]. apply (map_get_None_keys _ _ E), Ha.
Qed.

Lemma group_NoDup (ts : list T) (m : list (K * V)) :
  NoDup (map fst m) -> NoDup (map fst (fold_left (groupStep eqb key init upd) ts m)).
Proof.
  revert m; induction ts as [|t ts IH]; intros m H; simpl; [exact H|].
  apply IH, groupStep_NoDup, H.
Qed.

Lemma map_get_In (m : list (K * V)) (k : K) (v : V) :
  NoDup (map fst m) -> In (k, v) m -> map_get eqb m k = Some v.
Proof.
  induction m as [|[k' v'] m IH]; simpl; intros Hnd Hin; [contradiction|].
  inversion Hnd as [|? ? Hnot Hnd']; subst.
  destruct Hin as [[= -> ->] | Hin].
  - rewrite eqb_refl. reflexivity.
  - destruct (eqb k' k) eqn:E.
    + apply eqb_eq in E. subst k'. exfalso. apply Hnot.
      apply in_map_iff. exists (k, v). split; [reflexivity | exact Hin].
    + apply IH; assumption.
Qed.

(** Every value of the final map is the entry of a key that occurs. *)
Lemma group_values (ts : list T) (v : V) :
  In v (map_values (fold_left (groupStep eqb key init upd) ts [])) ->
  exists t0 rest,
    filter (fun t => eqb (key t) (key t0)) ts = t0 :: rest
    /\ v = fold_left upd rest (init t0).
Proof.
  intros Hin. unfold map_values in Hin. apply in_map_iff in Hin.
  destruct Hin as ([k v'] & Hv & Hin). simpl in Hv. subst v'.
  apply map_get_In in Hin; [|apply group_NoDup; constructor].
  rewrite group_entry in Hin.
  destruct (filter (fun t => eqb (key t) k) ts) as [|t0 rest] eqn:F;
    [discriminate|].
  injection Hin as <-.
  assert (Hk : key t0 = k).
  { assert (In t0 (filter (fun t => eqb (key t) k) ts)) as H0
        by (rewrite F; left; reflexivity).
    apply filter_In in H0. apply eqb_eq, H0. }
  exists t0, rest. rewrite Hk. split; [exact F | reflexivity].
Qed.

(** Every transaction is counted in the entry of its key. *)
Lemma group_covers (ts : list T) (t : T) :
  In t ts ->
  exists v, In v (map_values (fold_left (groupStep eqb key init upd) ts []))
            /\ map_get eqb (fold_left (groupStep eqb key init upd) ts []) (key t) = Some v.
Proof.
  intros Hin.
  destruct (map_get eqb (fold_left (groupStep eqb key init upd) ts []) (key t)) as [v|] eqn:E.
  - exists v. split; [|reflexivity].
    apply map_get_Some_In in E. unfold map_values. apply in_map_iff.
    exists (key t, v). split; [reflexivity | exact E].
  - exfalso. rewrite group_entry in E.
    destruct (filter (fun t0 => eqb (key t0) (key t)) ts) eqn:F; [|discriminate].
    assert (In t (filter (fun t0 => eqb (key t0) (key t)) ts)) as H0.
    { apply filter_In. split; [exact Hin | apply eqb_refl]. }
    rewrite F in H0. contradiction.
Qed.
End GroupBy.

(* ================================================================= *)
(** ** Sorting *)

Section SortFacts.
Context {A : Type} (cmp : A -> A -> result Z).

Lemma insertM_perm (x : A) (l r : list A) :
  insertM cmp x l = Ok r -> Permutation (x :: l) r.
Proof.
  revert r; induction l as [|y l IH]; intros r; simpl.
  - intros [= <-]. apply Permutation_refl.
  - destruct (cmp x y) as [c|e]; simpl; [|discriminate].
    destruct (Z.ltb c 0).
    + intros [= <-]. apply Permutation_refl.
    + destruct (insertM cmp x l) as [r'|e]; simpl; [|discriminate].
      intros [= <-]. eapply perm_trans; [apply perm_swap|].
      apply perm_skip, IH. reflexivity.
Qed.

Lemma sort_loop_Throw (l : list A) (e : Exn) :
  fold_left (fun acc x => bind acc (insertM cmp x)) l (Throw e) = Throw e.
Proof. induction l as [|x l IH]; simpl; [reflexivity | exact IH]. Qed.

Lemma sort_loop_perm (l placed r : list A) :
  fold_left (fun acc x => bind acc (insertM cmp x)) l (Ok placed) = Ok r ->
  Permutation (placed ++ l) r.
Proof.
  revert placed; induction l as [|x l IH]; intros placed; simpl.
  - intros [= <-]. rewrite app_nil_r. apply Permutation_refl.
  - destruct (insertM cmp x placed) as [p'|e] eqn:E.
    + intros H. apply IH in H. eapply perm_trans; [|exact H].
      apply insertM_perm in E.
      eapply perm_trans; [apply Permutation_sym, Permutation_middle|].
      apply (Permutation_app_tail l E).
    + rewrite sort_loop_Throw. discriminate.
Qed.

(** A sort that returns has permuted the array. *)
Lemma sortM_perm (l r : list A) : sortM cmp l = Ok r -> Permutation l r.
Proof. intros H. apply (sort_loop_perm l [] r H). Qed.

(** A comparator that never throws on the array makes the sort return. *)
Lemma insertM_total (x : A) (l : list A) :
  (forall y, In y l -> exists c, cmp x y = Ok c) ->
  exists r, insertM cmp x l = Ok r.
Proof.
  induction l as [|y l IH]; intros H; simpl.
  - exists [x]. reflexivity.
  - destruct (H y (or_introl eq_refl)) as [c ->]. simpl.
    destruct (Z.ltb c 0); [eexists; reflexivity|].
    destruct IH as [r ->]; [intros z Hz; apply H; right; exact Hz|].
    simpl. eexists; reflexivity.
Qed.

Lemma sort_loop_total (l placed : list A) :
  (forall x y, In x l -> In y (placed ++ l) -> exists c, cmp x y = Ok c) ->
  exists r, fold_left (fun acc x => bind acc (insertM cmp x)) l (Ok placed) = Ok r.
Proof.
  revert placed; induction l as [|x l IH]; intros placed H; simpl.
  - exists placed. reflexivity.
  - destruct (insertM_total x placed) as [p' E].
    + intros y Hy. apply H; [left; reflexivity | apply in_or_app; left; exact Hy].
    + rewrite E. simpl. apply IH. intros a b Ha Hb.
      apply H; [right; exact Ha|].
      apply insertM_perm in E.
      apply in_app_or in Hb. apply in_or_app. destruct Hb as [Hb | Hb].
      * apply (Permutation_in _ (Permutation_sym E)) in Hb.
        destruct Hb as [<- | Hb]; [right; left; reflexivity | left; exact Hb].
      * right. right. exact Hb.
Qed.

Lemma sortM_total (l : list A) :
  (forall x y, In x l -> In y l -> exists c, cmp x y = Ok c) ->
  exists r, sortM cmp l = Ok r.
Proof. intros H. apply (sort_loop_total l []). exact H. Qed.

(** The only exception a sort raises is one its comparator raised. *)
Lemma insertM_Throw (x : A) (l : list A) (e : Exn) :
  insertM cmp x l = Throw e -> exists a b, cmp a b = Throw e.
Proof.
  induction l as [|y l IH]; simpl; [discriminate|].
  destruct (cmp x y) as [c|e'] eqn:E; simpl.
  - destruct (Z.ltb c 0); [discriminate|].
    destruct (insertM cmp x l) as [r|e'']; simpl; [discriminate|].
    intros [= <-]. apply IH. reflexivity.
  - intros [= <-]. exists x, y. exact E.
Qed.

Lemma sort_loop_Throw_inv (l : list A) (acc : result (list A)) (e : Exn) :
  fold_left (fun acc x => bind acc (insertM cmp x)) l acc = Throw e ->
  acc = Throw e \/ exists a b, cmp a b = Throw e.
Proof.
  revert acc; induction l as [|x l IH]; intros acc; simpl; [auto|].
  intros H. apply IH in H. destruct H as [H | H]; [|right; exact H].
  destruct acc as [placed|e']; simpl in H; [|left; exact H].
  right. apply (insertM_Throw x placed e H).
Qed.

Lemma sortM_Throw (l : list A) (e : Exn) :
  sortM cmp l = Throw e -> exists a b, cmp a b = Throw e.
Proof.
  intros H. apply sort_loop_Throw_inv in H.
  destruct H as [H | H]; [discriminate | exact H].
Qed.
End SortFacts.

(* ================================================================= *)
(** ** The country and currency aggregates *)

Lemma countryMap_group (ts : list Transaction.t) :
  countryMap ts
  = fold_left (groupStep str_eqb countryKey countryInit countryUpd) ts [].
Proof. reflexivity. Qed.

Lemma countryUpd_fold (rest : list Transaction.t) (e : CountryBreakdown.t) :
  let e' := fold_left countryUpd rest e in
  CountryBreakdown.countryOfSale e' = CountryBreakdown.countryOfSale e
  /\ CountryBreakdown.currency e' = CountryBreakdown.currency e
  /\ CountryBreakdown.quantity e'
     = fold_left jsAdd (map Transaction.quantity rest) (CountryBreakdown.quantity e)
  /\ CountryBreakdown.proceeds e'
     = fold_left jsAdd (map Transaction.extendedPartnerShare rest)
                 (CountryBreakdown.proceeds e).
Proof.
  revert e; induction rest as [|t rest IH]; intros e; simpl; [auto|].
  destruct (IH (countryUpd e t)) as (H1 & H2 & H3 & H4).
  simpl in *. auto.
Qed.

(** An entry of [byCountry]: the transactions of one key, the fields of the
    first of them, and the in-order sums over all of them. *)
Lemma byCountry_entry (localeCompare : str -> str -> Z)
  (ts : list Transaction.t) (bc : list CountryBreakdown.t)
  (e : CountryBreakdown.t) :
  aggregateByCountry localeCompare ts = Ok bc -> In e bc ->
  exists t0 rest,
    filter (fun t => str_eqb (countryKey t) (countryKey t0)) ts = t0 :: rest
    /\ CountryBreakdown.countryOfSale e = Transaction.countryOfSale t0
    /\ CountryBreakdown.currency e = Transaction.partnerShareCurrency t0
    /\ CountryBreakdown.quantity e = sumOf (map Transaction.quantity (t0 :: rest))
    /\ CountryBreakdown.proceeds e
       = sumOf (map Transaction.extendedPartnerShare (t0 :: rest)).
Proof.
  unfold aggregateByCountry. intros Hs Hin.
  apply sortM_perm in Hs.
  apply (Permutation_in _ (Permutation_sym Hs)) in Hin.
  rewrite countryMap_group in Hin.
  apply (group_values str_eqb str_eqb_eq) in Hin.
  destruct Hin as (t0 & rest & F & ->).
  exists t0, rest. split; [exact F|].
  destruct (countryUpd_fold rest (countryInit t0)) as (H1 & H2 & H3 & H4).
  simpl in *. auto.
Qed.

Lemma currencyMap_group (ts : list Transaction.t) :
  currencyMap ts
  = fold_left (groupStep ostr_eqb Transaction.partnerShareCurrency
                 currencyInit currencyUpd) ts [].
Proof. reflexivity. Qed.

Lemma currencyUpd_fold (rest : list Transaction.t) (e : CurrencySummary.t) :
  let e' := fold_left currencyUpd rest e in
  CurrencySummary.currency e' = CurrencySummary.currency e
  /\ CurrencySummary.totalQuantity e'
     = fold_left jsAdd (map Transaction.quantity rest)
                 (CurrencySummary.totalQuantity e)
  /\ CurrencySummary.totalProceeds e'
     = fold_left jsAdd (map Transaction.extendedPartnerShare rest)
                 (CurrencySummary.totalProceeds e).
Proof.
  revert e; induction rest as [|t rest IH]; intros e; simpl; [auto|].
  destruct (IH (currencyUpd e t)) as (H1 & H2 & H3).
  simpl in *. auto.
Qed.

(** An entry of [byCurrency]: the in-order sums over the transactions of
    its currency. *)
Lemma byCurrency_entry (localeCompare : str -> str -> Z)
  (ts : list Transaction.t) (bu : list CurrencySummary.t)
  (u : CurrencySummary.t) :
  aggregateByCurrency localeCompare ts = Ok bu -> In u bu ->
  exists t0 rest,
    filter (fun t => ostr_eqb (Transaction.partnerShareCurrency t)
                              (CurrencySummary.currency u)) ts = t0 :: rest
    /\ CurrencySummary.currency u = Transaction.partnerShareCurrency t0
    /\ CurrencySummary.totalQuantity u
       = sumOf (map Transaction.quantity (t0 :: rest))
    /\ CurrencySummary.totalProceeds u
       = sumOf (map Transaction.extendedPartnerShare (t0 :: rest)).
Proof.
  unfold aggregateByCurrency. intros Hs Hin.
  apply sortM_perm in Hs.
  apply (Permutation_in _ (Permutation_sym Hs)) in Hin.
  rewrite currencyMap_group in Hin.
  apply (group_values ostr_eqb ostr_eqb_eq) in Hin.
  destruct Hin as (t0 & rest & F & ->).
  destruct (currencyUpd_fold rest (currencyInit t0)) as (H1 & H2 & H3).
  simpl in *. exists t0, rest. rewrite H1. auto.
Qed.

Lemma keysFaithful_filter (ts : list Transaction.t) (t0 : Transaction.t) :
  keysFaithful ts = true -> In t0 ts ->
  filter (fun t => str_eqb (countryKey t) (countryKey t0)) ts
  = filter (hasPair (Transaction.countryOfSale t0)
                    (Transaction.partnerShareCurrency t0)) ts.
Proof.
  intros Hk H0. apply filter_ext_in. intros t Ht.
  unfold keysFaithful in Hk. rewrite forallb_forall in Hk.
  specialize (Hk t0 H0). rewrite forallb_forall in Hk. specialize (Hk t Ht).
  destruct (hasPair _ _ t) eqn:E.
  - unfold hasPair in E. apply andb_true_iff in E. destruct E as [E1 E2].
    apply ostr_eqb_eq in E1, E2. apply str_eqb_eq.
    unfold countryKey. rewrite E1, E2. reflexivity.
  - destruct (str_eqb (countryKey t) (countryKey t0)); [discriminate | reflexivity].
Qed.

Lemma filter_head_In {A : Type} (f : A -> bool) (l : list A) (x : A) (rest : list A) :
  filter f l = x :: rest -> In x l /\ f x = true.
Proof.
  intros H. apply filter_In. rewrite H. left. reflexivity.
Qed.

Lemma filter_remove (f : nat -> bool) (i : nat) (l : list nat) :
  f i = false -> filter f (remove Nat.eq_dec i l) = filter f l.
Proof.
  intros Hi. induction l as [|x l IH]; [reflexivity|].
  cbn [remove]. destruct (Nat.eq_dec i x) as [<- | Hne].
  - cbn [filter]. rewrite Hi. exact IH.
  - cbn [filter]. rewrite IH. reflexivity.
Qed.

(** C6. In the report of a successful parse every listed transaction has a
    non-empty country and a non-empty currency.  A data row whose decoded
    country or currency is empty or [undefined] makes [parseTransaction]
    answer "no transaction" (it cannot throw): the row is not pushed and is
    not in the list, and the list is made of the other rows.  A header
    without a column for either field leaves the list empty.  Such a row
    affects no aggregate: the three aggregates are computed from the list,
    they are what the loop gives when it skips that row altogether, every
    country entry has a non-empty country and a non-empty currency, and
    every currency entry a non-empty currency. *)
Theorem C6_country_and_currency_present (localeCompare : str -> str -> Z)
  (content : str) (r : ParsedReport.t) :
  parseAppleReport localeCompare content = Ok r ->
  Forall (fun t =>
            (exists c, Transaction.countryOfSale t = Some c /\ c <> [])
            /\ (exists p, Transaction.partnerShareCurrency t = Some p /\ p <> []))
         (ParsedReport.transactions r)
  /\ (forall i,
         falsy (Transaction.countryOfSale (decoded content i)) = true
         \/ falsy (Transaction.partnerShareCurrency (decoded content i)) = true ->
         parseTransaction (rowAt content i) (headersOf content) = None
         /\ pushed (nonBlankLines content) (delimiterOf content)
                   (headersOf content) i = []
         /\ ~ In (decoded content i) (ParsedReport.transactions r))
  /\ ParsedReport.transactions r
     = map (decoded content) (filter (retained content) (dataRegion content))
  /\ (lastColumn K_countryOfSale (headersOf content) = None
      \/ lastColumn K_partnerShareCurrency (headersOf content) = None ->
      ParsedReport.transactions r = [])
  /\ (aggregateByCountry localeCompare (ParsedReport.transactions r)
      = Ok (Summary.byCountry (ParsedReport.summary r))
      /\ aggregateByProduct localeCompare (ParsedReport.transactions r)
         = Ok (Summary.byProduct (ParsedReport.summary r))
      /\ aggregateByCurrency localeCompare (ParsedReport.transactions r)
         = Ok (Summary.byCurrency (ParsedReport.summary r)))
  /\ (forall i,
         falsy (Transaction.countryOfSale (decoded content i)) = true
         \/ falsy (Transaction.partnerShareCurrency (decoded content i)) = true ->
         let others :=
           map (decoded content)
               (filter (retained content)
                       (remove Nat.eq_dec i (dataRegion content))) in
         aggregateByCountry localeCompare others
         = Ok (Summary.byCountry (ParsedReport.summary r))
         /\ aggregateByProduct localeCompare others
            = Ok (Summary.byProduct (ParsedReport.summary r))
         /\ aggregateByCurrency localeCompare others
            = Ok (Summary.byCurrency (ParsedReport.summary r)))
  /\ Forall (fun e =>
               (exists c, CountryBreakdown.countryOfSale e = Some c /\ c <> [])
               /\ (exists p, CountryBreakdown.currency e = Some p /\ p <> []))
            (Summary.byCountry (ParsedReport.summary r))
  /\ Forall (fun u => exists p, CurrencySummary.currency u = Some p /\ p <> [])
            (Summary.byCurrency (ParsedReport.summary r)).
Proof.
  intros H. apply parseAppleReport_Ok in H.
  destruct H as (_ & _ & Hts & Hbc & Hbp & Hbu & _).
  assert (Hall : Forall (fun t =>
            (exists c, Transaction.countryOfSale t = Some c /\ c <> [])
            /\ (exists p, Transaction.partnerShareCurrency t = Some p /\ p <> []))
         (ParsedReport.transactions r)).
  { rewrite Hts. apply Forall_forall. intros t Ht.
    apply in_map_iff in Ht. destruct Ht as (i & <- & Hi).
    apply filter_In in Hi. destruct Hi as [_ Hi].
    apply retained_iff in Hi. apply Hi. }
  assert (Hdrop : forall i,
         falsy (Transaction.countryOfSale (decoded content i)) = true
         \/ falsy (Transaction.partnerShareCurrency (decoded content i)) = true ->
         retained content i = false).
  { intros i Hi. unfold retained.
    destruct Hi as [-> | ->]; simpl; [reflexivity|].
    rewrite andb_false_r. reflexivity. }
  split; [exact Hall|]. split; [|split; [exact Hts|]].
  - intros i Hi. split; [|split].
    + apply parseTransaction_None_iff. fold (decoded content i).
      apply orb_true_iff. exact Hi.
    + rewrite pushed_retained, (Hdrop i Hi). reflexivity.
    + intros Hin. rewrite Forall_forall in Hall.
      destruct (Hall _ Hin) as [Hc Hp].
      apply falsy_false_iff in Hc, Hp. destruct Hi; congruence.
  - split; [|split; [auto|split; [|split]]].
    + intros Hcol. rewrite Hts.
      rewrite filter_none; [reflexivity|]. intros i. apply Hdrop.
      unfold decoded.
      destruct Hcol as [Hcol | Hcol]; [left | right].
      * pose proof (decodeFrom_field K_countryOfSale (headersOf content)
                      (rowAt content i) 0 Transaction.empty) as F.
        rewrite Hcol in F. simpl in F.
        destruct (Transaction.countryOfSale _); [discriminate | reflexivity].
      * pose proof (decodeFrom_field K_partnerShareCurrency (headersOf content)
                      (rowAt content i) 0 Transaction.empty) as F.
        rewrite Hcol in F. simpl in F.
        destruct (Transaction.partnerShareCurrency _); [discriminate | reflexivity].
    + intros i Hi. cbv zeta.
      rewrite (filter_remove (retained content) i _ (Hdrop i Hi)), <- Hts.
      auto.
    + apply Forall_forall. intros e He. rewrite Forall_forall in Hall.
      destruct (byCountry_entry localeCompare _ _ e Hbc He)
        as (t0 & rest & F & -> & -> & _).
      apply filter_head_In in F. apply (Hall t0), F.
    + apply Forall_forall. intros u Hu. rewrite Forall_forall in Hall.
      destruct (byCurrency_entry localeCompare _ _ u Hbu Hu)
        as (t0 & rest & F & -> & _).
      apply filter_head_In in F. apply (Hall t0), F.
Qed.

Lemma C6_witness :
  parseAppleReport codeUnitCompare sampleFile = Ok sampleReport
  /\ Forall (fun t =>
               (exists c, Transaction.countryOfSale t = Some c /\ c <> [])
               /\ (exists p, Transaction.partnerShareCurrency t = Some p /\ p <> []))
            (ParsedReport.transactions sampleReport)
  /\ Transaction.countryOfSale (decoded sampleFile 8) = Some []
  /\ ~ In (decoded sampleFile 8) (ParsedReport.transactions sampleReport)
  /\ aggregateByCountry codeUnitCompare
       (map (decoded sampleFile)
            (filter (retained sampleFile)
                    (remove Nat.eq_dec 8 (dataRegion sampleFile))))
     = Ok (Summary.byCountry (ParsedReport.summary sampleReport)).
Proof.
  assert (H : parseAppleReport codeUnitCompare sampleFile = Ok sampleReport)
    by (vm_compute; reflexivity).
  split; [exact H|].
  pose proof (C6_country_and_currency_present codeUnitCompare sampleFile
                sampleReport H) as (Hall & Hdrop & _ & _ & _ & Hskip & _).
  assert (H8 : falsy (Transaction.countryOfSale (decoded sampleFile 8)) = true
               \/ falsy (Transaction.partnerShareCurrency (decoded sampleFile 8))
                  = true)
    by (left; vm_compute; reflexivity).
  split; [exact Hall|]. split; [vm_compute; reflexivity|].
  split; [apply (Hdrop 8 H8) | apply (Hskip 8 H8)].
Defined.




(* ================================================================= *)
(** ** The header error *)

Lemma localeCompareM_Throw (localeCompare : str -> str -> Z)
  (a b : option str) (e : Exn) :
  localeCompareM localeCompare a b = Throw e -> e = TypeError /\ a = None.
Proof.
  destruct a; simpl; [discriminate|]. intros [= <-]. auto.
Qed.

(** The aggregations raise nothing but a TypeError. *)
Lemma aggregate_Throw (localeCompare : str -> str -> Z)
  (ts : list Transaction.t) (e : Exn) :
  aggregateByCountry localeCompare ts = Throw e
  \/ aggregateByProduct localeCompare ts = Throw e
  \/ aggregateByCurrency localeCompare ts = Throw e ->
  e = TypeError.
Proof.
  intros [H | [H | H]]; apply sortM_Throw in H; destruct H as (a & b & H);
    apply localeCompareM_Throw in H; apply H.
Qed.

(** X2. [parseAppleReport] raises its own error exactly when none of the first
    ten non-blank lines is header-like; when one is, the first such line is
    the header line. *)
Lemma parseAppleReport_header_error (localeCompare : str -> str -> Z)
  (content : str) :
  (parseAppleReport localeCompare content = Throw headerNotFound
   <-> forall j, j < 10 -> j < length (nonBlankLines content) ->
                 ~ HeaderLike (nth j (nonBlankLines content) []))
  /\ ((exists j, j < 10 /\ j < length (nonBlankLines content)
                  /\ HeaderLike (nth j (nonBlankLines content) [])) ->
      exists h, headerIndex content = Z.of_nat h
                /\ h < 10 /\ h < length (nonBlankLines content)
                /\ HeaderLike (nth h (nonBlankLines content) [])
                /\ forall j, j < h -> ~ HeaderLike (nth j (nonBlankLines content) [])).
Proof.
  unfold parseAppleReport.
  fold (delimiterOf content). fold (headerIndex content).
  fold (summaryIndex content). fold (headersOf content).
  fold (dataRegion content).
  unfold headerIndex at 1.
  destruct (findHeaderLine_spec (nonBlankLines content) (delimiterOf content))
    as [[Hm Hall] | (h & Hh & H10 & Hlen & Hlike & Hfirst)].
  - rewrite Hm. simpl. split.
    + split; [intros _; exact Hall | reflexivity].
    + intros (j & Hj & Hj' & Hl). exfalso. apply (Hall j Hj Hj' Hl).
  - rewrite Hh. split.
    + split.
      * destruct (Z.eqb_spec (Z.of_nat h) (-1)) as [E|E]; [lia|].
        set (ts := flat_map _ _).
        destruct (aggregateByCountry localeCompare ts) as [bc|e] eqn:Ec; simpl.
        -- destruct (aggregateByProduct localeCompare ts) as [bp|e] eqn:Ep; simpl.
           ++ destruct (aggregateByCurrency localeCompare ts) as [bu|e] eqn:Eu;
                simpl; [discriminate|].
              intros [= ->].
              assert (headerNotFound = TypeError) as X
                  by (apply (aggregate_Throw localeCompare ts); auto).
              discriminate X.
           ++ intros [= ->].
              assert (headerNotFound = TypeError) as X
                  by (apply (aggregate_Throw localeCompare ts); auto).
              discriminate X.
        -- intros [= ->].
           assert (headerNotFound = TypeError) as X
               by (apply (aggregate_Throw localeCompare ts); auto).
           discriminate X.
      * intros Hall. exfalso. apply (Hall h H10 Hlen Hlike).
    + intros _. exists h. unfold headerIndex. auto.
Qed.

(* ================================================================= *)
(** ** A header without a Title column *)

(** C3, at the failing input [untitledCsv]: the first non-blank line
    contains both literal substrings and the header scan returns its index,
    yet [parseAppleReport] raises: sorting the two product entries reads
    [localeCompare] off a title that is [undefined].  The specification allows an
    error only when no header line is found. *)
Theorem C3_error_although_header_found (localeCompare : str -> str -> Z) :
  HeaderLike (nth 0 (nonBlankLines untitledCsv) [])
  /\ headerIndex untitledCsv = 0%Z
  /\ parseAppleReport localeCompare untitledCsv = Throw TypeError.
Proof.
  split; [apply isHeaderLine_iff; vm_compute; reflexivity|].
  split; vm_compute; reflexivity.
Qed.

(** C10, at the failing input [untitledFile]: the header scan finds the
    header line, [validateReport] accepts the file without error or warning
    (every required column is there), and [parseAppleReport] raises a
    TypeError instead of returning a report. *)
Theorem C10_validated_file_raises (localeCompare : str -> str -> Z) :
  headerIndex untitledFile = 3%Z
  /\ validateReport untitledFile (detectDelimiter untitledFile)
     = ValidationResult.mk true [] []
  /\ map Transaction.title
         (map (decoded untitledFile)
              (filter (retained untitledFile) (dataRegion untitledFile)))
     = [None; None]
  /\ parseAppleReport localeCompare untitledFile = Throw TypeError.
Proof.
  repeat split; vm_compute; reflexivity.
Qed.

(* ================================================================= *)
(** ** Colliding country keys *)

(** C7, at the failing input [collidingFile]: the retained transactions
    carry two distinct (country, currency) pairs, and [byCountry] has a
    single entry, under the first pair, holding the sums over both. *)
Theorem C7_distinct_pairs_conflated :
  exists r,
    parseAppleReport codeUnitCompare collidingFile = Ok r
    /\ map (fun t => (Transaction.countryOfSale t,
                      Transaction.partnerShareCurrency t))
           (ParsedReport.transactions r)
       = [ (Some (lit "US-CA"), Some (lit "USD"));
           (Some (lit "US"), Some (lit "CA-USD")) ]
    /\ map countryKey (ParsedReport.transactions r)
       = [ lit "US-CA-USD"; lit "US-CA-USD" ]
    /\ Summary.byCountry (ParsedReport.summary r)
       = [ CountryBreakdown.mk (Some (lit "US-CA")) (Some (lit "USD"))
             (Some 3%float) (Some 5%float) ].
Proof.
  eexists. split; [vm_compute; reflexivity|].
  repeat split; vm_compute; reflexivity.
Qed.

(* ================================================================= *)
(** ** When parseAppleReport returns *)

Lemma productMap_group (ts : list Transaction.t) :
  productMap ts
  = fold_left (groupStep ostr_eqb Transaction.sku productInit productUpd) ts [].
Proof. reflexivity. Qed.

Lemma productUpd_fold_title (rest : list Transaction.t) (e : ProductBreakdown.t) :
  ProductBreakdown.title (fold_left productUpd rest e) = ProductBreakdown.title e.
Proof.
  revert e; induction rest as [|t rest IH]; intros e; simpl; [reflexivity|].
  rewrite IH. reflexivity.
Qed.

(** Every product entry carries the title of a transaction of the list. *)
Lemma productMap_titles (ts : list Transaction.t) (v : ProductBreakdown.t) :
  In v (map_values (productMap ts)) ->
  exists t0, In t0 ts /\ ProductBreakdown.title v = Transaction.title t0.
Proof.
  rewrite productMap_group. intros H.
  apply (group_values ostr_eqb ostr_eqb_eq) in H.
  destruct H as (t0 & rest & F & ->).
  exists t0. split; [apply (filter_head_In _ _ _ _ F)|].
  apply productUpd_fold_title.
Qed.

Lemma countryMap_countries (ts : list Transaction.t) (v : CountryBreakdown.t) :
  In v (map_values (countryMap ts)) ->
  exists t0, In t0 ts
             /\ CountryBreakdown.countryOfSale v = Transaction.countryOfSale t0.
Proof.
  rewrite countryMap_group. intros H.
  apply (group_values str_eqb str_eqb_eq) in H.
  destruct H as (t0 & rest & F & ->).
  exists t0. split; [apply (filter_head_In _ _ _ _ F)|].
  apply (countryUpd_fold rest (countryInit t0)).
Qed.

Lemma currencyMap_currencies (ts : list Transaction.t) (v : CurrencySummary.t) :
  In v (map_values (currencyMap ts)) ->
  exists t0, In t0 ts
             /\ CurrencySummary.currency v = Transaction.partnerShareCurrency t0.
Proof.
  rewrite currencyMap_group. intros H.
  apply (group_values ostr_eqb ostr_eqb_eq) in H.
  destruct H as (t0 & rest & F & ->).
  exists t0. split; [apply (filter_head_In _ _ _ _ F)|].
  apply (currencyUpd_fold rest (currencyInit t0)).
Qed.

(** The country sort and the currency sort never throw on transactions that
    passed the filter of [parseTransaction]. *)
Lemma aggregateByCountry_returns (localeCompare : str -> str -> Z)
  (ts : list Transaction.t) :
  (forall t, In t ts -> Transaction.countryOfSale t <> None) ->
  exists bc, aggregateByCountry localeCompare ts = Ok bc.
Proof.
  intros H. unfold aggregateByCountry. apply sortM_total.
  intros x y Hx _. destruct (countryMap_countries ts x Hx) as (t0 & Ht0 & E).
  rewrite E. specialize (H t0 Ht0).
  destruct (Transaction.countryOfSale t0) as [c|]; [|contradiction].
  eexists. reflexivity.
Qed.

Lemma aggregateByCurrency_returns (localeCompare : str -> str -> Z)
  (ts : list Transaction.t) :
  (forall t, In t ts -> Transaction.partnerShareCurrency t <> None) ->
  exists bu, aggregateByCurrency localeCompare ts = Ok bu.
Proof.
  intros H. unfold aggregateByCurrency. apply sortM_total.
  intros x y Hx _. destruct (currencyMap_currencies ts x Hx) as (t0 & Ht0 & E).
  rewrite E. specialize (H t0 Ht0).
  destruct (Transaction.partnerShareCurrency t0) as [c|]; [|contradiction].
  eexists. reflexivity.
Qed.

Lemma aggregateByProduct_returns (localeCompare : str -> str -> Z)
  (ts : list Transaction.t) :
  (forall t, In t ts -> Transaction.title t <> None) ->
  exists bp, aggregateByProduct localeCompare ts = Ok bp.
Proof.
  intros H. unfold aggregateByProduct. apply sortM_total.
  intros x y Hx _. destruct (productMap_titles ts x Hx) as (t0 & Ht0 & E).
  rewrite E. specialize (H t0 Ht0).
  destruct (Transaction.title t0) as [c|]; [|contradiction].
  eexists. reflexivity.
Qed.

Section SortShort.
Context {A : Type} (cmp : A -> A -> result Z).

(** An array of fewer than two elements is returned as it is. *)
Lemma sortM_short (l : list A) : length l < 2 -> sortM cmp l = Ok l.
Proof.
  destruct l as [|x [|y l]]; simpl; intros H; try reflexivity. lia.
Qed.

(** With two elements or more the comparator is called; if it throws on
    every pair, so does the sort. *)
Lemma sortM_throws (l : list A) (e : Exn) :
  (forall a b, In a l -> In b l -> cmp a b = Throw e) ->
  2 <= length l -> sortM cmp l = Throw e.
Proof.
  destruct l as [|x [|y l]]; simpl; intros H Hlen; try lia.
  unfold sortM. simpl. rewrite (H y x); simpl; auto.
  apply sort_loop_Throw.
Qed.
End SortShort.

(** The product map has as many entries as the list has SKUs. *)
Lemma productMap_two (ts : list Transaction.t) :
  (exists t1 t2, In t1 ts /\ In t2 ts /\ Transaction.sku t1 <> Transaction.sku t2)
  <-> 2 <= length (map_values (productMap ts)).
Proof.
  rewrite productMap_group.
  set (m := fold_left (groupStep ostr_eqb Transaction.sku productInit productUpd) ts []).
  assert (Hnd : NoDup (map fst m))
    by (apply (group_NoDup ostr_eqb ostr_eqb_eq); constructor).
  unfold map_values. rewrite length_map. split.
  - intros (t1 & t2 & H1 & H2 & Hne).
    destruct (group_covers ostr_eqb ostr_eqb_eq Transaction.sku productInit
                productUpd ts t1 H1) as (v1 & _ & G1).
    destruct (group_covers ostr_eqb ostr_eqb_eq Transaction.sku productInit
                productUpd ts t2 H2) as (v2 & _ & G2).
    fold m in G1, G2.
    apply (map_get_Some_In ostr_eqb ostr_eqb_eq) in G1, G2.
    destruct m as [|a [|b m']]; simpl; try lia.
    + contradiction.
    + destruct G1 as [-> | []]. destruct G2 as [[= E _] | []]. contradiction.
  - intros Hlen. destruct m as [|[k1 v1] [|[k2 v2] m']] eqn:Em; simpl in Hlen; try lia.
    assert (G1 : map_get ostr_eqb m k1 = Some v1).
    { rewrite Em. apply (map_get_In ostr_eqb ostr_eqb_eq); [exact Hnd|].
      left. reflexivity. }
    assert (G2 : map_get ostr_eqb m k2 = Some v2).
    { rewrite Em. apply (map_get_In ostr_eqb ostr_eqb_eq); [exact Hnd|].
      right. left. reflexivity. }
    unfold m in G1, G2. rewrite (group_entry ostr_eqb ostr_eqb_eq) in G1, G2.
    destruct (filter (fun t => ostr_eqb (Transaction.sku t) k1) ts)
      as [|t1 r1] eqn:F1; [discriminate|].
    destruct (filter (fun t => ostr_eqb (Transaction.sku t) k2) ts)
      as [|t2 r2] eqn:F2; [discriminate|].
    apply filter_head_In in F1, F2.
    destruct F1 as [H1 E1], F2 as [H2 E2]. apply ostr_eqb_eq in E1, E2.
    exists t1, t2. split; [exact H1|]. split; [exact H2|].
    rewrite E1, E2. simpl in Hnd.
    apply NoDup_cons_iff in Hnd. destruct Hnd as [Hnot _].
    intros Heq. apply Hnot. left. symmetry. exact Heq.
Qed.

Lemma retainedTransactions_fields (content : str) (t : Transaction.t) :
  In t (retainedTransactions content) ->
  Transaction.countryOfSale t <> None
  /\ Transaction.partnerShareCurrency t <> None
  /\ (lastColumn K_title (headersOf content) = None -> Transaction.title t = None)
  /\ (lastColumn K_title (headersOf content) <> None -> Transaction.title t <> None).
Proof.
  intros H. apply in_map_iff in H. destruct H as (i & <- & Hi).
  apply filter_In in Hi. destruct Hi as [_ Hi]. apply retained_iff in Hi.
  destruct Hi as (_ & (c & Hc & _) & (p & Hp & _)).
  split; [congruence|]. split; [congruence|].
  pose proof (decodeFrom_field K_title (headersOf content) (rowAt content i)
                0 Transaction.empty) as F.
  fold (decoded content i) in F. simpl in F. split.
  - intros E. rewrite E in F.
    destruct (Transaction.title (decoded content i)); [discriminate | reflexivity].
  - intros E. destruct (lastColumn K_title (headersOf content)); [|contradiction].
    destruct (Transaction.title (decoded content i)); [discriminate | discriminate].
Qed.

(** X3. The three outcomes of [parseAppleReport]: its own error when no header
    line is found; a TypeError when the header has no [Title] column and the
    retained sales carry two different SKUs; a report in every other case. *)
Theorem parseAppleReport_outcome (localeCompare : str -> str -> Z)
  (content : str) :
  let ts := retainedTransactions content in
  (headerIndex content = (-1)%Z ->
   parseAppleReport localeCompare content = Throw headerNotFound)
  /\ (headerIndex content <> (-1)%Z ->
      lastColumn K_title (headersOf content) = None ->
      (exists t1 t2, In t1 ts /\ In t2 ts
                     /\ Transaction.sku t1 <> Transaction.sku t2) ->
      parseAppleReport localeCompare content = Throw TypeError)
  /\ (headerIndex content <> (-1)%Z ->
      lastColumn K_title (headersOf content) <> None
      \/ (forall t1 t2, In t1 ts -> In t2 ts ->
                        Transaction.sku t1 = Transaction.sku t2) ->
      exists r, parseAppleReport localeCompare content = Ok r).
Proof.
  intros ts. unfold parseAppleReport.
  fold (delimiterOf content). fold (headerIndex content).
  fold (summaryIndex content). fold (headersOf content).
  fold (dataRegion content).
  rewrite flat_map_pushed. fold (retainedTransactions content). fold ts.
  assert (Hf := retainedTransactions_fields content). fold ts in Hf.
  destruct (aggregateByCountry_returns localeCompare ts) as [bc Ec];
    [intros t Ht; apply (Hf t Ht)|].
  destruct (aggregateByCurrency_returns localeCompare ts) as [bu Eu];
    [intros t Ht; apply (Hf t Ht)|].
  rewrite Ec, Eu. simpl.
  split; [|split].
  - intros ->. reflexivity.
  - intros Hh Hcol Htwo.
    destruct (Z.eqb_spec (headerIndex content) (-1)) as [E|_]; [contradiction|].
    assert (Hp : aggregateByProduct localeCompare ts = Throw TypeError).
    { unfold aggregateByProduct. apply sortM_throws.
      - intros a b Ha _. destruct (productMap_titles ts a Ha) as (t0 & Ht0 & E).
        rewrite E, (proj1 (proj2 (proj2 (Hf t0 Ht0))) Hcol). reflexivity.
      - apply productMap_two, Htwo. }
    rewrite Hp. reflexivity.
  - intros Hh Hcase.
    destruct (Z.eqb_spec (headerIndex content) (-1)) as [E|_]; [contradiction|].
    assert (Hp : exists bp, aggregateByProduct localeCompare ts = Ok bp).
    { destruct Hcase as [Hcol | Hone].
      - apply aggregateByProduct_returns. intros t Ht.
        apply (proj2 (proj2 (proj2 (Hf t Ht))) Hcol).
      - unfold aggregateByProduct. eexists. apply sortM_short.
        destruct (le_lt_dec 2 (length (map_values (productMap ts)))) as [H2|H2];
          [|exact H2].
        apply productMap_two in H2. destruct H2 as (t1 & t2 & H1 & H2 & Hne).
        exfalso. apply Hne, Hone; assumption. }
    destruct Hp as [bp ->]. simpl. eexists. reflexivity.
Qed.

(* ================================================================= *)
(** ** The order of a sorted aggregate *)

Section SortOrder.
Context {A : Type} (cmp : A -> A -> result Z) (f : A -> A -> Z).
Hypothesis f_asym : forall a b, (f a b < 0)%Z -> ~ (f b a < 0)%Z.
Hypothesis f_trans : forall a b c, (f a b < 0)%Z -> (f b c < 0)%Z -> (f a c < 0)%Z.

Lemma insertM_sorted (x : A) (l r : list A) :
  (forall y, In y l -> cmp x y = Ok (f x y)) ->
  StronglySorted (inOrder f) l ->
  insertM cmp x l = Ok r ->
  StronglySorted (inOrder f) r.
Proof.
  revert r; induction l as [|y l IH]; intros r Hc Hs; simpl.
  - intros [= <-]. repeat constructor.
  - rewrite (Hc y (or_introl eq_refl)). simpl.
    inversion Hs as [|? ? Hs' Hy]; subst.
    destruct (Z.ltb_spec (f x y) 0) as [Hlt | Hge].
    + intros [= <-]. constructor; [exact Hs|].
      constructor; [apply f_asym, Hlt|].
      rewrite Forall_forall in Hy |- *. intros z Hz Hzx.
      apply (Hy z Hz). apply (f_trans z x y Hzx Hlt).
    + destruct (insertM cmp x l) as [r'|e] eqn:E; simpl; [|discriminate].
      intros [= <-]. constructor.
      * apply (IH r'); [intros z Hz; apply Hc; right; exact Hz | exact Hs' | reflexivity].
      * apply insertM_perm in E. rewrite Forall_forall in Hy |- *.
        intros z Hz. apply (Permutation_in _ (Permutation_sym E)) in Hz.
        destruct Hz as [<- | Hz]; [unfold inOrder; lia | apply Hy, Hz].
Qed.

Lemma sort_loop_sorted (l placed r : list A) :
  (forall x y, In x l -> In y (placed ++ l) -> cmp x y = Ok (f x y)) ->
  StronglySorted (inOrder f) placed ->
  fold_left (fun acc x => bind acc (insertM cmp x)) l (Ok placed) = Ok r ->
  StronglySorted (inOrder f) r.
Proof.
  revert placed; induction l as [|x l IH]; intros placed Hc Hs; simpl.
  - intros [= <-]. exact Hs.
  - destruct (insertM cmp x placed) as [p'|e] eqn:E; simpl.
    + apply IH.
      * intros a b Ha Hb. apply Hc; [right; exact Ha|].
        pose proof (insertM_perm _ _ _ _ E) as P.
        apply in_app_or in Hb. apply in_or_app. destruct Hb as [Hb | Hb].
        -- apply (Permutation_in _ (Permutation_sym P)) in Hb.
           destruct Hb as [<- | Hb]; [right; left; reflexivity | left; exact Hb].
        -- right. right. exact Hb.
      * apply (insertM_sorted x placed p'); [|exact Hs | exact E].
        intros y Hy. apply Hc; [left; reflexivity | apply in_or_app; left; exact Hy].
    + rewrite sort_loop_Throw. discriminate.
Qed.

(** A sort by a comparator that is asymmetric and transitive leaves no
    element before one it sorts strictly after. *)
Lemma sortM_sorted (l r : list A) :
  (forall x y, In x l -> In y l -> cmp x y = Ok (f x y)) ->
  sortM cmp l = Ok r -> StronglySorted (inOrder f) r.
Proof.
  intros Hc. apply (sort_loop_sorted l []); [exact Hc | constructor].
Qed.
End SortOrder.

Lemma countryMap_keys (ts : list Transaction.t) (k : str) (v : CountryBreakdown.t) :
  In (k, v) (countryMap ts) -> k = keyOfPair (pairOf v).
Proof.
  rewrite countryMap_group. intros H.
  apply (map_get_In str_eqb str_eqb_eq) in H;
    [|apply (group_NoDup str_eqb str_eqb_eq); constructor].
  rewrite (group_entry str_eqb str_eqb_eq) in H.
  destruct (filter (fun t => str_eqb (countryKey t) k) ts) as [|t0 rest] eqn:F;
    [discriminate|].
  injection H as <-. apply filter_head_In in F. destruct F as [_ F].
  apply str_eqb_eq in F. rewrite <- F.
  destruct (countryUpd_fold rest (countryInit t0)) as (H1 & H2 & _).
  unfold keyOfPair, pairOf. simpl in *. rewrite H1, H2. reflexivity.
Qed.

(** X4. The country aggregate where the keys are faithful to the pairs: one
    entry for every (country, currency) pair of the list and no two entries
    for a pair, each entry with the in-order sums over the transactions of
    its pair, no entry placed before one whose country the collation sorts
    strictly first. *)
Theorem byCountry_one_entry_per_pair (localeCompare : str -> str -> Z)
  (ts : list Transaction.t) (bc : list CountryBreakdown.t) :
  (forall a b, (localeCompare a b < 0)%Z -> ~ (localeCompare b a < 0)%Z) ->
  (forall a b c, (localeCompare a b < 0)%Z -> (localeCompare b c < 0)%Z ->
                 (localeCompare a c < 0)%Z) ->
  (forall t, In t ts -> Transaction.countryOfSale t <> None) ->
  keysFaithful ts = true ->
  aggregateByCountry localeCompare ts = Ok bc ->
  (forall t, In t ts ->
     exists e, In e bc
               /\ pairOf e = (Transaction.countryOfSale t,
                              Transaction.partnerShareCurrency t))
  /\ NoDup (map pairOf bc)
  /\ (forall e, In e bc ->
        let group := filter (hasPair (CountryBreakdown.countryOfSale e)
                                     (CountryBreakdown.currency e)) ts in
        group <> []
        /\ CountryBreakdown.quantity e = sumOf (map Transaction.quantity group)
        /\ CountryBreakdown.proceeds e
           = sumOf (map Transaction.extendedPartnerShare group))
  /\ StronglySorted
       (fun a b => ~ (localeCompare (toStr (CountryBreakdown.countryOfSale b))
                                    (toStr (CountryBreakdown.countryOfSale a)) < 0)%Z)
       bc.
Proof.
  intros Hasym Htrans Hdef Hk Hagg.
  pose proof Hagg as Hperm. unfold aggregateByCountry in Hperm.
  apply sortM_perm in Hperm.
  split; [|split; [|split]].
  - intros t Ht.
    destruct (group_covers str_eqb str_eqb_eq countryKey countryInit countryUpd
                ts t Ht) as (v & Hv & G).
    rewrite <- countryMap_group in Hv, G.
    exists v. split; [apply (Permutation_in _ Hperm), Hv|].
    rewrite countryMap_group, (group_entry str_eqb str_eqb_eq) in G.
    destruct (filter (fun t0 => str_eqb (countryKey t0) (countryKey t)) ts)
      as [|t0 rest] eqn:F; [discriminate|].
    injection G as <-.
    destruct (countryUpd_fold rest (countryInit t0)) as (H1 & H2 & _).
    unfold pairOf. simpl in *. rewrite H1, H2.
    rewrite (keysFaithful_filter ts t Hk Ht) in F.
    apply filter_head_In in F. destruct F as [_ F].
    unfold hasPair in F. apply andb_true_iff in F. destruct F as [F1 F2].
    apply ostr_eqb_eq in F1, F2. rewrite F1, F2. reflexivity.
  - apply (Permutation_NoDup (Permutation_map pairOf Hperm)).
    apply (NoDup_map_inv keyOfPair). unfold map_values. rewrite !map_map.
    assert (E : map (fun x => keyOfPair (pairOf (snd x))) (countryMap ts)
                = map fst (countryMap ts)).
    { apply map_ext_in. intros [k v] Hin. simpl. symmetry.
      apply (countryMap_keys ts k v Hin). }
    rewrite E, countryMap_group.
    apply (group_NoDup str_eqb str_eqb_eq). constructor.
  - intros e Hin.
    destruct (byCountry_entry _ _ _ _ Hagg Hin) as (t0 & rest & F & Hc & Hp & Hq & Hs).
    cbv zeta. rewrite Hc, Hp.
    rewrite <- (keysFaithful_filter ts t0 Hk); [|apply (filter_head_In _ _ _ _ F)].
    rewrite F. split; [discriminate | auto].
  - unfold aggregateByCountry in Hagg.
    apply (sortM_sorted _
             (fun a b => localeCompare (toStr (CountryBreakdown.countryOfSale a))
                                       (toStr (CountryBreakdown.countryOfSale b))))
      in Hagg; [exact Hagg | | |].
    + intros a b. apply Hasym.
    + intros a b c. apply Htrans.
    + intros x y Hx _. destruct (countryMap_countries ts x Hx) as (t0 & Ht0 & E).
      rewrite E. specialize (Hdef t0 Ht0).
      destruct (Transaction.countryOfSale t0); [reflexivity | contradiction].
Qed.

(** Code-unit order is asymmetric and transitive. *)
Lemma codeUnitCompare_lt (a b : str) :
  (codeUnitCompare a b < 0)%Z <-> codeUnitCompare a b = (-1)%Z.
Proof.
  revert b; induction a as [|x a IH]; intros [|y b]; simpl; try lia.
  destruct (N.compare x y); try lia. apply IH.
Qed.

Lemma codeUnitCompare_asym (a b : str) :
  (codeUnitCompare a b < 0)%Z -> ~ (codeUnitCompare b a < 0)%Z.
Proof.
  revert b; induction a as [|x a IH]; intros [|y b]; simpl; try lia.
  rewrite (N.compare_antisym x y).
  destruct (N.compare x y); simpl; try lia. apply IH.
Qed.

Lemma codeUnitCompare_trans (a b c : str) :
  (codeUnitCompare a b < 0)%Z -> (codeUnitCompare b c < 0)%Z ->
  (codeUnitCompare a c < 0)%Z.
Proof.
  revert b c; induction a as [|x a IH]; intros [|y b] [|z c]; simpl; try lia.
  destruct (N.compare_spec x y) as [-> | Hxy | Hxy]; try lia.
  - destruct (N.compare_spec y z) as [-> | Hyz | Hyz]; try lia. apply IH.
  - intros _. destruct (N.compare_spec y z) as [-> | Hyz | Hyz]; try lia.
    + intros _. destruct (N.compare_spec x z); lia.
    + intros _. destruct (N.compare_spec x z); lia.
Qed.

(** The sample report is an instance. *)
Lemma byCountry_sample :
  map pairOf (Summary.byCountry (ParsedReport.summary sampleReport))
  = [ (Some (lit "CA"), Some (lit "USD"));
      (Some (lit "DE"), Some (lit "EUR"));
      (Some (lit "US"), Some (lit "USD")) ]
  /\ NoDup (map pairOf (Summary.byCountry (ParsedReport.summary sampleReport))).
Proof.
  split; [vm_compute; reflexivity|].
  refine (proj1 (proj2 (byCountry_one_entry_per_pair codeUnitCompare
            (ParsedReport.transactions sampleReport) _
            codeUnitCompare_asym codeUnitCompare_trans _ _ _))).
  - intros t Ht. vm_compute in Ht.
    repeat (destruct Ht as [<- | Ht]; [discriminate|]). contradiction.
  - vm_compute. reflexivity.
  - vm_compute. reflexivity.
Defined.

(* ================================================================= *)
(** ** escapeCSV *)

Lemma includes_single (s : str) (c : N) :
  includes s [c] = true <-> In c s.
Proof.
  rewrite includes_iff. split.
  - intros (l & r & ->). apply in_or_app. right. left. reflexivity.
  - intros H. apply in_split in H. destruct H as (l & r & ->).
    exists l, r. reflexivity.
Qed.

Lemma includes_single_false (s : str) (c : N) :
  includes s [c] = false <-> ~ In c s.
Proof.
  rewrite <- includes_single. destruct (includes s [c]); split; congruence.
Qed.

Lemma unquoteBody_doubleQuotes (value : str) :
  unquoteBody (doubleQuotes value ++ [QUOTE]) = Some value.
Proof.
  induction value as [|c value IH]; [reflexivity|].
  unfold doubleQuotes. cbn [flat_map]. fold (doubleQuotes value).
  destruct (N.eqb_spec c QUOTE) as [-> | Hc].
  - cbn [app unquoteBody]. rewrite !N.eqb_refl. rewrite IH. reflexivity.
  - cbn [app unquoteBody]. apply N.eqb_neq in Hc. rewrite Hc, IH. reflexivity.
Qed.

(** X5. What [escapeCSV] writes, a CSV reader reads back as the value: a value
    without comma, double quote or line feed is written as it is, any other
    value between quotes with its quotes doubled. *)
Theorem escapeCSV_round_trip (value : str) :
  readCSVField (escapeCSV value) = Some value
  /\ (escapeCSV value = value
      <-> ~ In COMMA value /\ ~ In QUOTE value /\ ~ In LF value).
Proof.
  unfold escapeCSV.
  destruct (includes value [COMMA] || includes value [QUOTE] || includes value [LF])
    eqn:E.
  - split.
    + cbn [app readCSVField]. rewrite N.eqb_refl. apply unquoteBody_doubleQuotes.
    + split.
      * intros H. apply (f_equal (@length N)) in H. exfalso.
        cbn [app length] in H. rewrite length_app in H. cbn [length] in H.
        assert (length value <= length (doubleQuotes value)).
        { clear. induction value as [|c v IH]; [apply le_n|].
          unfold doubleQuotes. cbn [flat_map]. fold (doubleQuotes v).
          destruct (N.eqb c QUOTE); cbn [app length]; lia. }
        lia.
      * intros (H1 & H2 & H3).
        apply includes_single_false in H1, H2, H3. rewrite H1, H2, H3 in E.
        discriminate.
  - apply orb_false_iff in E. destruct E as [E E3].
    apply orb_false_iff in E. destruct E as [E1 E2].
    apply includes_single_false in E1, E2, E3. split.
    + destruct value as [|c rest]; [reflexivity|]. cbn [readCSVField].
      destruct (N.eqb_spec c QUOTE) as [-> | _]; [|reflexivity].
      exfalso. apply E2. left. reflexivity.
    + split; [auto | reflexivity].
Qed.

(** X6. Two different values are never written as the same field. *)
Theorem escapeCSV_injective (a b : str) :
  escapeCSV a = escapeCSV b -> a = b.
Proof.
  intros H.
  assert (Ha : unquoteBody (doubleQuotes a ++ [QUOTE]) = Some a)
    by apply unquoteBody_doubleQuotes.
  assert (Hb : unquoteBody (doubleQuotes b ++ [QUOTE]) = Some b)
    by apply unquoteBody_doubleQuotes.
  unfold escapeCSV in H.
  destruct (includes a [COMMA] || includes a [QUOTE] || includes a [LF]) eqn:Ea;
    destruct (includes b [COMMA] || includes b [QUOTE] || includes b [LF]) eqn:Eb.
  - injection H as H. rewrite H in Ha. congruence.
  - apply orb_false_iff in Eb. destruct Eb as [Eb _].
    apply orb_false_iff in Eb. destruct Eb as [_ Eb].
    apply includes_single_false in Eb. exfalso. apply Eb. rewrite <- H.
    left. reflexivity.
  - apply orb_false_iff in Ea. destruct Ea as [Ea _].
    apply orb_false_iff in Ea. destruct Ea as [_ Ea].
    apply includes_single_false in Ea. exfalso. apply Ea. rewrite H.
    left. reflexivity.
  - exact H.
Qed.

Lemma escapeCSV_injective_witness :
  escapeCSV (lit "a,b") = [QUOTE] ++ lit "a,b" ++ [QUOTE]
  /\ lit "a,b" = lit "a,b".
Proof.
  split; [reflexivity|].
  apply (escapeCSV_injective (lit "a,b") (lit "a,b")). reflexivity.
Defined.

(* ================================================================= *)
(** ** formatDate *)

Lemma startsWith_single (s : str) (c : N) :
  startsWith s [c] = match s with x :: _ => N.eqb c x | [] => false end.
Proof.
  destruct s as [|x s]; simpl; [reflexivity|]. apply andb_true_r.
Qed.

(** Splitting on a one-unit separator that does not occur gives the text
    itself. *)
Lemma splitAux_absent (c : N) (s acc : str) :
  ~ In c s -> splitAux [c] 0 acc s = [rev acc ++ s].
Proof.
  revert acc; induction s as [|x s IH]; intros acc H.
  - simpl. rewrite app_nil_r. reflexivity.
  - cbn [splitAux]. rewrite startsWith_single.
    destruct (N.eqb_spec c x) as [-> | Hne]; [exfalso; apply H; left; reflexivity|].
    rewrite IH by (intros Hin; apply H; right; exact Hin).
    simpl. rewrite <- app_assoc. reflexivity.
Qed.

Lemma split_absent (c : N) (s : str) :
  ~ In c s -> split s [c] = [s].
Proof. intros H. unfold split. apply (splitAux_absent c s [] H). Qed.

(** No field of a split on a one-unit separator contains the separator. *)
Lemma splitAux_fields (c : N) (s acc part : str) :
  ~ In c acc -> In part (splitAux [c] 0 acc s) -> ~ In c part.
Proof.
  revert acc; induction s as [|x s IH]; intros acc Hacc Hin.
  - simpl in Hin. destruct Hin as [<- | []]. rewrite <- in_rev. exact Hacc.
  - cbn [splitAux] in Hin. rewrite startsWith_single in Hin.
    destruct (N.eqb_spec c x) as [-> | Hne].
    + cbn [length Nat.sub] in Hin. destruct Hin as [<- | Hin].
      * rewrite <- in_rev. exact Hacc.
      * apply (IH []); [intros [] | exact Hin].
    + apply (IH (x :: acc)); [|exact Hin].
      intros [Hx | Hx]; [congruence | contradiction].
Qed.

Lemma split_fields (c : N) (s part : str) :
  In part (split s [c]) -> ~ In c part.
Proof. unfold split. apply splitAux_fields. intros []. Qed.

Lemma padStart_zero_In (s : str) (c : N) :
  In c (padStart s 2 (lit "0")) -> c = 48%N \/ In c s.
Proof.
  unfold padStart. intros H. apply in_app_or in H. destruct H as [H | H]; [|auto].
  left. assert (Hin : In c (concat (repeat (lit "0") (2 - length s)))).
  { rewrite <- (firstn_skipn (2 - length s)). apply in_or_app. left. exact H. }
  clear H. rename Hin into H. apply in_concat in H. destruct H as (p & Hp & Hc).
  apply repeat_spec in Hp. subst p. destruct Hc as [<- | []]. reflexivity.
Qed.

(** X7. [formatDate] returns its argument unchanged or a text without a slash,
    and formatting a formatted date changes nothing. *)
Theorem formatDate_idempotent (dateStr : str) :
  (formatDate dateStr = dateStr \/ ~ In SLASH (formatDate dateStr))
  /\ formatDate (formatDate dateStr) = formatDate dateStr.
Proof.
  assert (Hfix : forall s, ~ In SLASH s -> formatDate s = s).
  { intros s Hs. unfold formatDate. destruct s as [|x s]; [reflexivity|].
    cbn [truthy negb]. change (lit "/") with [SLASH].
    rewrite (split_absent SLASH _ Hs). reflexivity. }
  assert (Hcase : formatDate dateStr = dateStr \/ ~ In SLASH (formatDate dateStr)).
  { unfold formatDate. destruct (truthy dateStr); cbn [negb]; [|right; intros []].
    change (lit "/") with [SLASH].
    pose proof (split_fields SLASH dateStr) as Hf.
    destruct (split dateStr [SLASH]) as [|m [|d [|y [|z rest]]]]; auto.
    right. intros Hin.
    assert (Hm : ~ In SLASH m) by (apply Hf; left; reflexivity).
    assert (Hd : ~ In SLASH d) by (apply Hf; right; left; reflexivity).
    assert (Hy : ~ In SLASH y) by (apply Hf; right; right; left; reflexivity).
    apply in_app_or in Hin. destruct Hin as [Hin | Hin]; [contradiction|].
    apply in_app_or in Hin. destruct Hin as [[Hin | []] | Hin]; [discriminate|].
    apply in_app_or in Hin. destruct Hin as [Hin | Hin].
    - apply padStart_zero_In in Hin. destruct Hin; [discriminate | contradiction].
    - apply in_app_or in Hin. destruct Hin as [[Hin | []] | Hin]; [discriminate|].
      apply padStart_zero_In in Hin. destruct Hin; [discriminate | contradiction]. }
  split; [exact Hcase|].
  destruct Hcase as [E | H]; [rewrite E; exact E | apply Hfix, H].
Qed.

(** X8. A date of three slash-separated parts is written year first, with month
    and day padded on the left to two characters. *)
Theorem formatDate_month_day_year (month day year : str) :
  ~ In SLASH month -> ~ In SLASH day -> ~ In SLASH year ->
  formatDate (month ++ [SLASH] ++ day ++ [SLASH] ++ year)
  = year ++ lit "-" ++ padStart month 2 (lit "0")
         ++ lit "-" ++ padStart day 2 (lit "0")
  /\ 2 <= length (padStart month 2 (lit "0"))
  /\ 2 <= length (padStart day 2 (lit "0")).
Proof.
  intros Hm Hd Hy.
  assert (Hsplit : forall a b acc, ~ In SLASH a ->
            splitAux [SLASH] 0 acc (a ++ SLASH :: b)
            = (rev acc ++ a) :: splitAux [SLASH] 0 [] b).
  { intros a b. induction a as [|x a IH]; intros acc Ha.
    - cbn [app splitAux]. rewrite startsWith_single, N.eqb_refl.
      rewrite app_nil_r. reflexivity.
    - cbn [app splitAux]. rewrite startsWith_single.
      destruct (N.eqb_spec SLASH x) as [E | Hne];
        [exfalso; apply Ha; left; symmetry; exact E|].
      rewrite IH by (intros Hin; apply Ha; right; exact Hin).
      simpl. rewrite <- app_assoc. reflexivity. }
  assert (Hlen : forall s, 2 <= length (padStart s 2 (lit "0"))).
  { intros s. unfold padStart. rewrite length_app.
    destruct s as [|a [|b s]]; cbn; lia. }
  split; [|split; apply Hlen].
  unfold formatDate.
  assert (Ht : truthy (month ++ [SLASH] ++ day ++ [SLASH] ++ year) = true)
    by (destruct month; reflexivity).
  rewrite Ht. cbn [negb]. change (lit "/") with [SLASH]. unfold split.
  cbn [app]. rewrite (Hsplit month _ [] Hm), (Hsplit day _ [] Hd).
  rewrite (splitAux_absent SLASH year [] Hy). reflexivity.
Qed.

Lemma formatDate_month_day_year_witness :
  formatDate (lit "1/5/2024") = lit "2024-01-05".
Proof.
  exact (proj1 (formatDate_month_day_year (lit "1") (lit "5") (lit "2024")
                  ltac:(vm_compute; intuition discriminate)
                  ltac:(vm_compute; intuition discriminate)
                  ltac:(vm_compute; intuition discriminate))).
Defined.

(* ================================================================= *)
(** ** The cells parseTransaction reads *)

Lemma decodeFrom_cells (headers row row' : list str) :
  forall (i i' : nat) (t : Transaction.t),
    (forall j, j < length headers -> cell row (i + j) = cell row' (i' + j)) ->
    decodeFrom i headers row t = decodeFrom i' headers row' t.
Proof.
  induction headers as [|h rest IH]; intros i i' t H; [reflexivity|].
  cbn [decodeFrom].
  assert (H0 := H 0 (Nat.lt_0_succ _)). rewrite !Nat.add_0_r in H0. rewrite H0.
  apply IH. intros j Hj. specialize (H (S j) (proj1 (Nat.succ_lt_mono _ _) Hj)).
  rewrite !Nat.add_succ_r in H. exact H.
Qed.

Lemma decodeFrom_app (h1 h2 row : list str) :
  forall (i : nat) (t : Transaction.t),
    decodeFrom i (h1 ++ h2) row t
    = decodeFrom (i + length h1) h2 row (decodeFrom i h1 row t).
Proof.
  induction h1 as [|h rest IH]; intros i t.
  - simpl. rewrite Nat.add_0_r. reflexivity.
  - cbn [app decodeFrom length]. rewrite IH. f_equal. lia.
Qed.

Lemma cell_app_l (row extra : list str) (j : nat) :
  j < length row -> cell (row ++ extra) j = cell row j.
Proof. intros H. unfold cell. rewrite nth_error_app1 by exact H. reflexivity. Qed.

Lemma cell_app_r (row extra : list str) (j : nat) :
  cell (row ++ extra) (length row + j) = cell extra j.
Proof.
  unfold cell. rewrite nth_error_app2 by lia.
  replace (length row + j - length row) with j by lia. reflexivity.
Qed.

Lemma cell_padding (row : list str) (n j : nat) :
  cell (row ++ repeat ([] : str) n) j = cell row j.
Proof.
  destruct (Nat.lt_ge_cases j (length row)) as [H | H].
  - apply cell_app_l, H.
  - rewrite (cell_missing row j H). unfold cell.
    rewrite nth_error_app2 by exact H.
    destruct (nth_error (repeat ([] : str) n) (j - length row)) as [c|] eqn:E;
      [|reflexivity].
    apply nth_error_In, repeat_spec in E. subst c. reflexivity.
Qed.

(** X9. A row is read only through the cells under a header: a row that stops
    short is read as if it went on with empty cells, and the cells beyond
    the last header are ignored. *)
Theorem parseTransaction_extra_and_missing_cells
  (row headers extra : list str) (n : nat) :
  parseTransaction (row ++ repeat ([] : str) n) headers
  = parseTransaction row headers
  /\ parseTransaction
       ((row ++ repeat ([] : str) (length headers - length row)) ++ extra) headers
     = parseTransaction row headers
  /\ parseTransaction (firstn (length headers) row) headers
     = parseTransaction row headers.
Proof.
  unfold parseTransaction. split; [|split].
  - rewrite (decodeFrom_cells headers (row ++ repeat [] n) row 0 0);
      [reflexivity|]. intros j _. apply cell_padding.
  - rewrite (decodeFrom_cells headers
               ((row ++ repeat [] (length headers - length row)) ++ extra)
               row 0 0); [reflexivity|].
    intros j Hj. simpl. rewrite cell_app_l; [apply cell_padding|].
    rewrite length_app, repeat_length. lia.
  - rewrite (decodeFrom_cells headers (firstn (length headers) row) row 0 0);
      [reflexivity|].
    intros j Hj. unfold cell. simpl. rewrite nth_error_firstn.
    destruct (Nat.ltb_spec j (length headers)); [reflexivity | lia].
Qed.

(** X10. A column whose header is not in the column table, and names no
    property the table inherits from [Object.prototype], is ignored: the
    row decodes as it does with that header and its cell removed. *)
Theorem parseTransaction_unknown_column
  (h1 h2 r1 r2 : list str) (header c : str) :
  COLUMN_MAP header = None ->
  inheritedName header = false ->
  length r1 = length h1 ->
  parseTransaction (r1 ++ c :: r2) (h1 ++ header :: h2)
  = parseTransaction (r1 ++ r2) (h1 ++ h2).
Proof.
  intros Hmap _ Hlen. unfold parseTransaction.
  assert (E : decodeFrom 0 (h1 ++ header :: h2) (r1 ++ c :: r2) Transaction.empty
              = decodeFrom 0 (h1 ++ h2) (r1 ++ r2) Transaction.empty).
  { rewrite !decodeFrom_app. cbn [decodeFrom]. rewrite Hmap. simpl.
    rewrite (decodeFrom_cells h1 (r1 ++ c :: r2) (r1 ++ r2) 0 0).
    - apply decodeFrom_cells. intros j _. rewrite <- Hlen.
      replace (S (length r1) + j) with (length r1 + S j) by lia.
      rewrite !cell_app_r. reflexivity.
    - intros j Hj. simpl. rewrite !cell_app_l by lia. reflexivity. }
  rewrite E. reflexivity.
Qed.

Lemma parseTransaction_unknown_column_witness :
  COLUMN_MAP (lit "Units Returned") = None
  /\ inheritedName (lit "Units Returned") = false
  /\ parseTransaction (map lit ["US"; "4"; "USD"]%string)
       (map lit ["Country of Sale"; "Units Returned";
                 "Partner Share Currency"]%string)
     = parseTransaction (map lit ["US"; "USD"]%string)
         (map lit ["Country of Sale"; "Partner Share Currency"]%string).
Proof.
  split; [reflexivity|]. split; [reflexivity|].
  exact (parseTransaction_unknown_column
           [lit "Country of Sale"] [lit "Partner Share Currency"]
           [lit "US"] [lit "USD"] (lit "Units Returned") (lit "4")
           eq_refl eq_refl eq_refl).
Defined.

(** When two headers map to the same field the later column wins, and a
    text field holds the trimmed text of its cell. *)
Lemma decode_column_witness :
  ColumnOf K_countryOfSale
    (map lit ["Country of Sale"; "Quantity"; "Country of Sale"]%string) 2
  /\ Transaction.countryOfSale
       (decodeFrom 0
          (map lit ["Country of Sale"; "Quantity"; "Country of Sale"]%string)
          (map lit ["US"; "1"; " CA "]%string) Transaction.empty)
     = Some (lit "CA").
Proof.
  assert (H : ColumnOf K_countryOfSale
                (map lit ["Country of Sale"; "Quantity"; "Country of Sale"]%string) 2)
    by (apply lastColumn_iff; reflexivity).
  split; [exact H|].
  apply option_map_VStr_inj.
  exact (decode_column K_countryOfSale _ (map lit ["US"; "1"; " CA "]%string) 2 H).
Defined.

(* ================================================================= *)
(** ** parseMetadata *)

Lemma isMetadataLine_iff (key delimiter line : str) :
  isMetadataLine key delimiter line = true <-> MetadataLine key delimiter line.
Proof.
  unfold isMetadataLine, MetadataLine.
  rewrite andb_true_iff, Nat.leb_le, str_eqb_eq. reflexivity.
Qed.

Lemma parseMetadata_fold (lines : list str) (delimiter : str) :
  parseMetadata lines delimiter
  = fold_left (metadataStep delimiter) (firstn 5 lines) (ReportMetadata.mk [] [] []).
Proof. reflexivity. Qed.

Lemma metadataStep_field (key delimiter line : str) (m : ReportMetadata.t) :
  In key metadataKeys ->
  metadataField key (metadataStep delimiter m line)
  = if isMetadataLine key delimiter line then metadataValue delimiter line
    else metadataField key m.
Proof.
  intros Hkey. unfold metadataStep, isMetadataLine, metadataValue.
  destruct (Nat.leb 2 (length (split line delimiter))); [|reflexivity].
  cbn [andb].
  set (k := trim (nth 0 (split line delimiter) [])).
  set (v := trim (nth 1 (split line delimiter) [])).
  destruct (str_eqb k (lit "Vendor Name")) eqn:E1.
  { apply str_eqb_eq in E1. rewrite E1.
    destruct Hkey as [<- | [<- | [<- | []]]]; reflexivity. }
  destruct (str_eqb k (lit "Start Date")) eqn:E2.
  { apply str_eqb_eq in E2. rewrite E2.
    destruct Hkey as [<- | [<- | [<- | []]]]; reflexivity. }
  destruct (str_eqb k (lit "End Date")) eqn:E3.
  { apply str_eqb_eq in E3. rewrite E3.
    destruct Hkey as [<- | [<- | [<- | []]]]; reflexivity. }
  destruct Hkey as [<- | [<- | [<- | []]]]; rewrite ?E1, ?E2, ?E3; reflexivity.
Qed.

Lemma metadata_fold_field (key delimiter : str) (lines : list str)
  (m : ReportMetadata.t) :
  In key metadataKeys ->
  metadataField key (fold_left (metadataStep delimiter) lines m)
  = lastMetadata key delimiter lines (metadataField key m).
Proof.
  intros Hkey. revert m. induction lines as [|line rest IH]; intros m;
    [reflexivity|].
  cbn [fold_left]. rewrite IH, (metadataStep_field _ _ _ _ Hkey). reflexivity.
Qed.

Lemma lastMetadata_none (key delimiter : str) (lines : list str) (default : str) :
  (forall line, In line lines -> ~ MetadataLine key delimiter line) ->
  lastMetadata key delimiter lines default = default.
Proof.
  revert default; induction lines as [|line rest IH]; intros default H;
    [reflexivity|].
  unfold lastMetadata. cbn [fold_left]. fold (lastMetadata key delimiter rest).
  destruct (isMetadataLine key delimiter line) eqn:E.
  - exfalso. apply (H line (or_introl eq_refl)), isMetadataLine_iff, E.
  - apply IH. intros l Hl. apply H. right. exact Hl.
Qed.

Lemma lastMetadata_last (key delimiter : str) (before after : list str)
  (line default : str) :
  MetadataLine key delimiter line ->
  (forall l, In l after -> ~ MetadataLine key delimiter l) ->
  lastMetadata key delimiter (before ++ line :: after) default
  = metadataValue delimiter line.
Proof.
  intros Hline Hafter. unfold lastMetadata. rewrite fold_left_app.
  cbn [fold_left]. apply isMetadataLine_iff in Hline. rewrite Hline.
  apply (lastMetadata_none key delimiter after _ Hafter).
Qed.

Lemma nth_split_at {A : Type} (l : list A) (i : nat) (d : A) :
  i < length l -> l = firstn i l ++ nth i l d :: skipn (S i) l.
Proof.
  revert i; induction l as [|x l IH]; intros i H; [simpl in H; lia|].
  destruct i as [|i]; [reflexivity|].
  cbn [firstn nth skipn app]. f_equal. apply IH. simpl in H. lia.
Qed.

Lemma In_skipn_nth {A : Type} (l : list A) (i : nat) (x d : A) :
  In x (skipn (S i) l) -> exists j, i < j /\ j < length l /\ nth j l d = x.
Proof.
  revert i; induction l as [|y l IH]; intros i H; [destruct i; contradiction|].
  destruct i as [|i].
  - cbn [skipn] in H. apply (In_nth _ _ d) in H. destruct H as (n & Hn & E).
    exists (S n). simpl. split; [lia | split; [lia | exact E]].
  - cbn [skipn] in H. fold (skipn (S i) l) in H. apply IH in H.
    destruct H as (j & Hj & Hlen & E).
    exists (S j). simpl. split; [lia | split; [lia | exact E]].
Qed.

(** X11. Each of the three metadata fields is read off the first five lines
    alone: it is the value of the last of them that is a metadata line of
    its key, and the empty string when none is.  Lines of other keys, and
    lines from the sixth on, change nothing. *)
Theorem parseMetadata_last_line (key delimiter : str) (lines : list str) :
  In key metadataKeys ->
  ((forall i, i < 5 -> i < length lines ->
              ~ MetadataLine key delimiter (nth i lines [])) ->
   metadataField key (parseMetadata lines delimiter) = [])
  /\ (forall i, i < 5 -> i < length lines ->
        MetadataLine key delimiter (nth i lines []) ->
        (forall j, i < j -> j < 5 -> j < length lines ->
                   ~ MetadataLine key delimiter (nth j lines [])) ->
        metadataField key (parseMetadata lines delimiter)
        = metadataValue delimiter (nth i lines [])).
Proof.
  intros Hkey. rewrite parseMetadata_fold, (metadata_fold_field _ _ _ _ Hkey).
  assert (Hempty : metadataField key (ReportMetadata.mk [] [] []) = []).
  { destruct Hkey as [<- | [<- | [<- | []]]]; reflexivity. }
  rewrite Hempty.
  assert (Hlen : length (firstn 5 lines) = Nat.min 5 (length lines))
    by apply length_firstn.
  unfold str in *. split.
  - intros Hnone. apply lastMetadata_none. intros line Hin.
    apply (In_nth _ _ []) in Hin. destruct Hin as (n & Hn & <-).
    rewrite (nth_firstn 5) by lia. apply Hnone; lia.
  - intros i Hi5 Hi Hline Hlater.
    rewrite (nth_split_at (firstn 5 lines) i []) by lia.
    rewrite (nth_firstn 5) by lia.
    apply lastMetadata_last; [exact Hline|].
    intros l Hl. apply (In_skipn_nth _ _ _ []) in Hl.
    destruct Hl as (j & Hj & Hjlen & <-).
    rewrite (nth_firstn 5) by lia. apply Hlater; lia.
Qed.

Lemma parseMetadata_last_line_witness :
  MetadataLine (lit "Vendor Name") [TAB] (nth 0 (nonBlankLines sampleFile) [])
  /\ ReportMetadata.vendorName (parseMetadata (nonBlankLines sampleFile) [TAB])
     = lit "Acme Inc".
Proof.
  assert (Hline : MetadataLine (lit "Vendor Name") [TAB]
                    (nth 0 (nonBlankLines sampleFile) []))
    by (apply isMetadataLine_iff; vm_compute; reflexivity).
  split; [exact Hline|].
  refine (proj2 (parseMetadata_last_line (lit "Vendor Name") [TAB]
                   (nonBlankLines sampleFile) (or_introl eq_refl))
                0 _ _ Hline _).
  - lia.
  - vm_compute. lia.
  - intros j Hj Hj5 _ H. apply isMetadataLine_iff in H.
    destruct j as [|[|[|[|[|j]]]]]; try lia; vm_compute in H; discriminate H.
Defined.

(* ================================================================= *)
(** ** validateReport *)

Lemma flat_map_nil_iff {A B : Type} (f : A -> list B) (l : list A) :
  flat_map f l = [] <-> forall x, In x l -> f x = [].
Proof.
  induction l as [|x l IH]; simpl.
  - split; [intros _ y [] | reflexivity].
  - split.
    + intros H. apply app_eq_nil in H. destruct H as [Hx Hl].
      intros y [<- | Hy]; [exact Hx | apply (proj1 IH Hl y Hy)].
    + intros H. rewrite (H x (or_introl eq_refl)). apply IH.
      intros y Hy. apply H. right. exact Hy.
Qed.

Lemma existsb_str_eqb (c : str) (l : list str) :
  existsb (str_eqb c) l = true <-> In c l.
Proof.
  rewrite existsb_exists. split.
  - intros (x & Hx & E). apply str_eqb_eq in E. subst x. exact Hx.
  - intros H. exists c. split; [exact H | apply str_eqb_refl].
Qed.

Lemma validateReport_valid_inv (content delimiter : str) :
  ValidationResult.valid (validateReport content delimiter) = true ->
  5 <= length (nonBlankLines content)
  /\ findHeaderLine (nonBlankLines content) delimiter <> (-1)%Z
  /\ forall c, In c REQUIRED_COLUMNS ->
       In c (map trim
               (split (nth (Z.to_nat (findHeaderLine (nonBlankLines content) delimiter))
                           (nonBlankLines content) [])
                      delimiter)).
Proof.
  unfold validateReport.
  destruct (Nat.ltb_spec (length (nonBlankLines content)) 5) as [Hlen | Hlen];
    [discriminate|].
  destruct (Z.eqb_spec (findHeaderLine (nonBlankLines content) delimiter) (-1))
    as [Hh | Hh]; [discriminate|].
  cbn [ValidationResult.valid]. intros H. apply Nat.eqb_eq, length_zero_iff_nil in H.
  split; [exact Hlen|]. split; [exact Hh|].
  intros c Hc. apply existsb_str_eqb.
  pose proof (proj1 (flat_map_nil_iff _ _) H c Hc) as Hx. cbv beta in Hx.
  destruct (existsb (str_eqb c) _); [reflexivity | discriminate].
Qed.

(** X12. A file is valid exactly when it has five non-blank lines or more, a
    header line among the first ten, and every required column among the
    trimmed cells of that line; that is, exactly when no error is reported.
    Warnings never make a file invalid. *)
Theorem validateReport_valid_iff (content delimiter : str) :
  let lines := nonBlankLines content in
  let headers :=
    map trim (split (nth (Z.to_nat (findHeaderLine lines delimiter)) lines [])
                    delimiter) in
  let v := validateReport content delimiter in
  (ValidationResult.valid v = true
   <-> 5 <= length lines
       /\ findHeaderLine lines delimiter <> (-1)%Z
       /\ forall c, In c REQUIRED_COLUMNS -> In c headers)
  /\ (ValidationResult.valid v = true <-> ValidationResult.errors v = []).
Proof.
  cbv zeta. split.
  - split; [apply validateReport_valid_inv|].
    intros (Hlen & Hh & Hreq). unfold validateReport.
    destruct (Nat.ltb_spec (length (nonBlankLines content)) 5) as [Hlt | _];
      [unfold str in *; lia|].
    destruct (Z.eqb_spec (findHeaderLine (nonBlankLines content) delimiter) (-1))
      as [E | _]; [contradiction|].
    cbn [ValidationResult.valid]. apply Nat.eqb_eq, length_zero_iff_nil.
    apply flat_map_nil_iff. intros c Hc.
    apply Hreq, existsb_str_eqb in Hc. rewrite Hc. reflexivity.
  - unfold validateReport.
    destruct (Nat.ltb (length (nonBlankLines content)) 5);
      [split; discriminate|].
    destruct (Z.eqb (findHeaderLine (nonBlankLines content) delimiter) (-1));
      [split; discriminate|].
    cbn [ValidationResult.valid ValidationResult.errors].
    rewrite Nat.eqb_eq. apply length_zero_iff_nil.
Qed.

Lemma orZero_not_nan (x : number) : is_nan (orZero x) = false.
Proof.
  unfold orZero. destruct (is_nan x) eqn:E; [reflexivity|].
  cbn [orb]. destruct (is_zero x); [reflexivity | exact E].
Qed.

Lemma In_lastColumn (k : Key) (headers : list str) (header : str) :
  In header headers -> COLUMN_MAP header = Some k ->
  exists j, lastColumn k headers = Some j.
Proof.
  intros Hin Hmap. destruct (lastColumn k headers) as [j|] eqn:E;
    [exists j; reflexivity|].
  exfalso. apply In_nth_error in Hin. destruct Hin as [n Hn].
  apply (lastColumn_None k headers E n header Hn Hmap).
Qed.

(** With a header line found, parsing returns a report or raises a
    TypeError. *)
Lemma parseAppleReport_with_header (localeCompare : str -> str -> Z)
  (content : str) :
  headerIndex content <> (-1)%Z ->
  (exists r, parseAppleReport localeCompare content = Ok r)
  \/ parseAppleReport localeCompare content = Throw TypeError.
Proof.
  intros Hh. unfold parseAppleReport.
  fold (delimiterOf content). fold (headerIndex content).
  destruct (Z.eqb_spec (headerIndex content) (-1)) as [E|_]; [contradiction|].
  set (ts := flat_map _ _).
  destruct (aggregateByCountry localeCompare ts) as [bc|e] eqn:Ec; simpl.
  - destruct (aggregateByProduct localeCompare ts) as [bp|e] eqn:Ep; simpl.
    + destruct (aggregateByCurrency localeCompare ts) as [bu|e] eqn:Eu; simpl.
      * left. eexists. reflexivity.
      * right. f_equal. apply (aggregate_Throw localeCompare ts). auto.
    + right. f_equal. apply (aggregate_Throw localeCompare ts). auto.
  - right. f_equal. apply (aggregate_Throw localeCompare ts). auto.
Qed.

(** X13. A file that [validateReport] accepts under the detected delimiter is
    never refused by [parseAppleReport] for its header, and every
    transaction the parser retains from it carries a quantity and an
    extended partner share that are numbers, not [undefined] and not NaN. *)
Theorem validateReport_then_parse (localeCompare : str -> str -> Z)
  (content : str) :
  ValidationResult.valid (validateReport content (detectDelimiter content)) = true ->
  ((exists r, parseAppleReport localeCompare content = Ok r)
   \/ parseAppleReport localeCompare content = Throw TypeError)
  /\ forall t, In t (retainedTransactions content) ->
       (exists q, Transaction.quantity t = Some q /\ is_nan q = false)
       /\ (exists e, Transaction.extendedPartnerShare t = Some e
                     /\ is_nan e = false).
Proof.
  intros Hv.
  apply validateReport_valid_inv in Hv.
  destruct Hv as (_ & Hh & Hreq). split.
  - apply parseAppleReport_with_header. exact Hh.
  - fold (delimiterOf content) in Hreq. fold (headerIndex content) in Hreq.
    fold (headersOf content) in Hreq.
    destruct (In_lastColumn K_quantity (headersOf content) (lit "Quantity"))
      as [jq Hq]; [apply Hreq; vm_compute; auto | reflexivity|].
    destruct (In_lastColumn K_extendedPartnerShare (headersOf content)
                (lit "Extended Partner Share"))
      as [je He]; [apply Hreq; vm_compute; auto | reflexivity|].
    intros t Ht. apply in_map_iff in Ht. destruct Ht as (i & <- & _).
    pose proof (decodeFrom_field K_quantity (headersOf content) (rowAt content i)
                  0 Transaction.empty) as Fq.
    pose proof (decodeFrom_field K_extendedPartnerShare (headersOf content)
                  (rowAt content i) 0 Transaction.empty) as Fe.
    fold (decoded content i) in Fq, Fe. rewrite Hq in Fq. rewrite He in Fe.
    cbn [field coerce] in Fq, Fe. split.
    + destruct (Transaction.quantity (decoded content i)) as [q|];
        [|discriminate]. injection Fq as ->.
      eexists. split; [reflexivity | apply orZero_not_nan].
    + destruct (Transaction.extendedPartnerShare (decoded content i)) as [e|];
        [|discriminate]. injection Fe as ->.
      eexists. split; [reflexivity | apply orZero_not_nan].
Qed.

Lemma validateReport_then_parse_witness :
  ValidationResult.valid (validateReport sampleFile (detectDelimiter sampleFile))
  = true
  /\ forall t, In t (retainedTransactions sampleFile) ->
       (exists q, Transaction.quantity t = Some q /\ is_nan q = false)
       /\ (exists e, Transaction.extendedPartnerShare t = Some e
                     /\ is_nan e = false).
Proof.
  assert (H : ValidationResult.valid
                (validateReport sampleFile (detectDelimiter sampleFile)) = true)
    by (vm_compute; reflexivity).
  split; [exact H|].
  exact (proj2 (validateReport_then_parse codeUnitCompare sampleFile H)).
Defined.

(* ================================================================= *)
(** ** The currency and product aggregates *)

Section GroupEntries.
Context {K V T : Type}.
Variable eqb : K -> K -> bool.
Hypothesis eqb_eq : forall a b, eqb a b = true <-> a = b.
Variable key : T -> K.
Variable init : T -> V.
Variable upd : V -> T -> V.

(** An entry of the final map: its key is the key of the transactions it
    was built from. *)
Lemma group_entries (ts : list T) (k : K) (v : V) :
  In (k, v) (fold_left (groupStep eqb key init upd) ts []) ->
  exists t0 rest,
    filter (fun t => eqb (key t) k) ts = t0 :: rest
    /\ key t0 = k
    /\ v = fold_left upd rest (init t0).
Proof.
  intros Hin.
  apply (map_get_In eqb eqb_eq) in Hin;
    [|apply (group_NoDup eqb eqb_eq); constructor].
  rewrite (group_entry eqb eqb_eq) in Hin.
  destruct (filter (fun t => eqb (key t) k) ts) as [|t0 rest] eqn:F;
    [discriminate|].
  injection Hin as <-. exists t0, rest. split; [reflexivity|].
  split; [|reflexivity].
  apply filter_head_In in F. apply eqb_eq, F.
Qed.

(** The keys of the final map are the values of a function of its entries:
    no two entries have the same value. *)
Lemma group_NoDup_by (g : V -> K) (ts : list T) :
  (forall k v, In (k, v) (fold_left (groupStep eqb key init upd) ts []) -> k = g v) ->
  NoDup (map g (map_values (fold_left (groupStep eqb key init upd) ts []))).
Proof.
  intros H. unfold map_values. rewrite map_map.
  rewrite (map_ext_in (fun x => g (snd x)) fst).
  - apply (group_NoDup eqb eqb_eq). constructor.
  - intros [k v] Hin. simpl. symmetry. apply H, Hin.
Qed.

(** The final map is empty exactly for the empty list. *)
Lemma group_nil_iff (ts : list T) :
  fold_left (groupStep eqb key init upd) ts [] = [] <-> ts = [].
Proof.
  split; [|intros ->; reflexivity].
  intros H. destruct ts as [|t ts]; [reflexivity|]. exfalso.
  destruct (group_covers eqb eqb_eq key init upd (t :: ts) t (or_introl eq_refl))
    as (v & Hv & _).
  rewrite H in Hv. contradiction.
Qed.
End GroupEntries.

Lemma sortM_nil_iff {A : Type} (cmp : A -> A -> result Z) (l r : list A) :
  sortM cmp l = Ok r -> (r = [] <-> l = []).
Proof.
  intros H. apply sortM_perm in H. split; intros ->.
  - apply Permutation_sym, Permutation_nil in H. exact H.
  - apply Permutation_nil in H. exact H.
Qed.

(** X14. The aggregates of a report are empty exactly when it has no
    transaction: any retained transaction shows in all three. *)
Theorem aggregates_empty_iff (localeCompare : str -> str -> Z)
  (content : str) (r : ParsedReport.t) :
  parseAppleReport localeCompare content = Ok r ->
  let s := ParsedReport.summary r in
  (Summary.byCountry s = [] <-> Summary.totalTransactions s = 0)
  /\ (Summary.byProduct s = [] <-> Summary.totalTransactions s = 0)
  /\ (Summary.byCurrency s = [] <-> Summary.totalTransactions s = 0).
Proof.
  intros H. apply parseAppleReport_Ok in H.
  destruct H as (_ & _ & _ & Hc & Hp & Hu & Htot). cbv zeta. rewrite Htot.
  rewrite length_zero_iff_nil.
  unfold aggregateByCountry in Hc. unfold aggregateByProduct in Hp.
  unfold aggregateByCurrency in Hu.
  apply sortM_nil_iff in Hc, Hp, Hu. unfold map_values in Hc, Hp, Hu.
  rewrite Hc, Hp, Hu. clear Hc Hp Hu.
  assert (M : forall (A B : Type) (l : list (A * B)), map snd l = [] <-> l = []).
  { intros A B l. destruct l; simpl; split; congruence. }
  rewrite !M, countryMap_group, productMap_group, currencyMap_group.
  rewrite (group_nil_iff str_eqb str_eqb_eq), !(group_nil_iff ostr_eqb ostr_eqb_eq).
  tauto.
Qed.

Lemma aggregates_empty_iff_witness :
  parseAppleReport codeUnitCompare sampleFile = Ok sampleReport
  /\ Summary.totalTransactions (ParsedReport.summary sampleReport) <> 0
  /\ Summary.byProduct (ParsedReport.summary sampleReport) <> [].
Proof.
  assert (H : parseAppleReport codeUnitCompare sampleFile = Ok sampleReport)
    by (vm_compute; reflexivity).
  assert (Hn : Summary.totalTransactions (ParsedReport.summary sampleReport) <> 0)
    by (vm_compute; discriminate).
  split; [exact H|]. split; [exact Hn|].
  intros E. apply Hn.
  apply (proj1 (proj2 (aggregates_empty_iff codeUnitCompare sampleFile
                         sampleReport H))). exact E.
Defined.

Lemma currencyMap_keys (ts : list Transaction.t) (k : option str)
  (v : CurrencySummary.t) :
  In (k, v) (currencyMap ts) -> k = CurrencySummary.currency v.
Proof.
  rewrite currencyMap_group. intros H.
  apply (group_entries ostr_eqb ostr_eqb_eq) in H.
  destruct H as (t0 & rest & _ & <- & ->).
  symmetry. apply (currencyUpd_fold rest (currencyInit t0)).
Qed.

(** X15. The currency aggregate: one entry for every currency of the list and no
    two entries for a currency, each entry with the in-order sums over the
    transactions of its currency, no entry placed before one whose currency
    the collation sorts strictly first. *)
Theorem byCurrency_one_entry_per_currency (localeCompare : str -> str -> Z)
  (ts : list Transaction.t) (bu : list CurrencySummary.t) :
  (forall a b, (localeCompare a b < 0)%Z -> ~ (localeCompare b a < 0)%Z) ->
  (forall a b c, (localeCompare a b < 0)%Z -> (localeCompare b c < 0)%Z ->
                 (localeCompare a c < 0)%Z) ->
  (forall t, In t ts -> Transaction.partnerShareCurrency t <> None) ->
  aggregateByCurrency localeCompare ts = Ok bu ->
  (forall t, In t ts ->
     exists u, In u bu
               /\ CurrencySummary.currency u = Transaction.partnerShareCurrency t)
  /\ NoDup (map CurrencySummary.currency bu)
  /\ (forall u, In u bu ->
        let group := filter (hasCurrency (CurrencySummary.currency u)) ts in
        group <> []
        /\ CurrencySummary.totalQuantity u = sumOf (map Transaction.quantity group)
        /\ CurrencySummary.totalProceeds u
           = sumOf (map Transaction.extendedPartnerShare group))
  /\ StronglySorted
       (fun a b => ~ (localeCompare (toStr (CurrencySummary.currency b))
                                    (toStr (CurrencySummary.currency a)) < 0)%Z)
       bu.
Proof.
  intros Hasym Htrans Hdef Hagg.
  pose proof Hagg as Hperm. unfold aggregateByCurrency in Hperm.
  apply sortM_perm in Hperm.
  split; [|split; [|split]].
  - intros t Ht.
    destruct (group_covers ostr_eqb ostr_eqb_eq Transaction.partnerShareCurrency
                currencyInit currencyUpd ts t Ht) as (v & Hv & G).
    rewrite <- currencyMap_group in Hv, G.
    exists v. split; [apply (Permutation_in _ Hperm), Hv|].
    apply (map_get_Some_In ostr_eqb ostr_eqb_eq) in G.
    symmetry. apply (currencyMap_keys ts _ _ G).
  - apply (Permutation_NoDup (Permutation_map CurrencySummary.currency Hperm)).
    rewrite currencyMap_group.
    apply (group_NoDup_by ostr_eqb ostr_eqb_eq).
    intros k v Hin. rewrite <- currencyMap_group in Hin.
    apply (currencyMap_keys ts k v Hin).
  - intros u Hin.
    destruct (byCurrency_entry _ _ _ _ Hagg Hin) as (t0 & rest & F & _ & Hq & Hp).
    cbv zeta. unfold hasCurrency. rewrite F. split; [discriminate | auto].
  - unfold aggregateByCurrency in Hagg.
    apply (sortM_sorted _
             (fun a b => localeCompare (toStr (CurrencySummary.currency a))
                                       (toStr (CurrencySummary.currency b))))
      in Hagg; [exact Hagg | | |].
    + intros a b. apply Hasym.
    + intros a b c. apply Htrans.
    + intros x y Hx _. destruct (currencyMap_currencies ts x Hx) as (t0 & Ht0 & E).
      rewrite E. specialize (Hdef t0 Ht0).
      destruct (Transaction.partnerShareCurrency t0); [reflexivity | contradiction].
Qed.

Lemma byCurrency_one_entry_per_currency_witness :
  map CurrencySummary.currency (Summary.byCurrency (ParsedReport.summary sampleReport))
  = [Some (lit "EUR"); Some (lit "USD")]
  /\ NoDup (map CurrencySummary.currency
              (Summary.byCurrency (ParsedReport.summary sampleReport))).
Proof.
  split; [vm_compute; reflexivity|].
  refine (proj1 (proj2 (byCurrency_one_entry_per_currency codeUnitCompare
            (ParsedReport.transactions sampleReport) _
            codeUnitCompare_asym codeUnitCompare_trans _ _))).
  - intros t Ht. vm_compute in Ht.
    repeat (destruct Ht as [<- | Ht]; [discriminate|]). contradiction.
  - vm_compute. reflexivity.
Defined.

Lemma productUpd_fold (rest : list Transaction.t) (e : ProductBreakdown.t) :
  let e' := fold_left productUpd rest e in
  ProductBreakdown.title e' = ProductBreakdown.title e
  /\ ProductBreakdown.sku e' = ProductBreakdown.sku e
  /\ ProductBreakdown.quantity e'
     = fold_left jsAdd (map Transaction.quantity rest) (ProductBreakdown.quantity e)
  /\ ProductBreakdown.proceedsByCurrency e'
     = fold_left
         (groupStep str_eqb currencyName
            (fun t => addAmount None (Transaction.extendedPartnerShare t))
            (fun v t => addAmount v (Transaction.extendedPartnerShare t)))
         rest (ProductBreakdown.proceedsByCurrency e).
Proof.
  revert e; induction rest as [|t rest IH]; intros e; cbn [fold_left map];
    [auto|].
  destruct (IH (productUpd e t)) as (H1 & H2 & H3 & H4).
  cbv zeta in *. rewrite H1, H2, H3, H4. repeat split.
  f_equal. unfold productUpd, groupStep, amountOrZero, addAmount, currencyName.
  cbn [ProductBreakdown.proceedsByCurrency].
  destruct (map_get str_eqb (ProductBreakdown.proceedsByCurrency e)
              (toStr (Transaction.partnerShareCurrency t))) as [[x|]|];
    reflexivity.
Qed.

Lemma productMap_keys (ts : list Transaction.t) (k : option str)
  (v : ProductBreakdown.t) :
  In (k, v) (productMap ts) -> k = ProductBreakdown.sku v.
Proof.
  rewrite productMap_group. intros H.
  apply (group_entries ostr_eqb ostr_eqb_eq) in H.
  destruct H as (t0 & rest & _ & <- & ->).
  symmetry. apply (productUpd_fold rest (productInit t0)).
Qed.

Lemma fold_left_addAmount (l : list Transaction.t) (a : option number) :
  fold_left (fun v t => addAmount v (Transaction.extendedPartnerShare t)) l a
  = fold_left addAmount (map Transaction.extendedPartnerShare l) a.
Proof.
  revert a; induction l as [|t l IH]; intros a; [reflexivity | apply IH].
Qed.

(** The amounts of a product entry built from [t0] and then [rest]. *)
Lemma product_amounts (t0 : Transaction.t) (rest : list Transaction.t) :
  let amounts :=
    ProductBreakdown.proceedsByCurrency (fold_left productUpd rest (productInit t0)) in
  NoDup (map fst amounts)
  /\ (forall c, In c (map fst amounts)
                <-> exists t, In t (t0 :: rest) /\ currencyName t = c)
  /\ (forall c a, In (c, a) amounts -> a = productAmount c t0 rest).
Proof.
  cbv zeta.
  destruct (productUpd_fold rest (productInit t0)) as (_ & _ & _ & ->).
  cbn [productInit ProductBreakdown.proceedsByCurrency].
  fold (currencyName t0).
  set (step := groupStep str_eqb currencyName
                 (fun t => addAmount None (Transaction.extendedPartnerShare t))
                 (fun v t => addAmount v (Transaction.extendedPartnerShare t))).
  set (start := [(currencyName t0, Transaction.extendedPartnerShare t0)]).
  assert (Hnd : NoDup (map fst (fold_left step rest start))).
  { apply (group_NoDup str_eqb str_eqb_eq). repeat constructor. intros []. }
  assert (Hget : forall c,
             map_get str_eqb (fold_left step rest start) c
             = if str_eqb (currencyName t0) c
               then Some (productAmount c t0 rest)
               else match filter (fun t => str_eqb (currencyName t) c) rest with
                    | [] => None
                    | _ :: _ => Some (productAmount c t0 rest)
                    end).
  { intros c. unfold step. rewrite (group_get str_eqb str_eqb_eq).
    unfold start, productAmount. cbn [map_get].
    destruct (str_eqb (currencyName t0) c).
    - rewrite accum_fold_Some, fold_left_addAmount. reflexivity.
    - rewrite accum_fold_None.
      destruct (filter (fun t => str_eqb (currencyName t) c) rest) as [|t1 r];
        [reflexivity|].
      rewrite fold_left_addAmount. reflexivity. }
  split; [exact Hnd|]. split.
  - intros c. split.
    + intros Hin.
      destruct (map_get str_eqb (fold_left step rest start) c) as [a|] eqn:G.
      * rewrite Hget in G. destruct (str_eqb (currencyName t0) c) eqn:E0.
        -- exists t0. split; [left; reflexivity | apply str_eqb_eq, E0].
        -- destruct (filter (fun t => str_eqb (currencyName t) c) rest)
             as [|t1 r] eqn:F; [discriminate|].
           apply filter_head_In in F. destruct F as [H1 E1].
           exists t1. split; [right; exact H1 | apply str_eqb_eq, E1].
      * exfalso. apply (map_get_None_keys str_eqb str_eqb_eq _ _ G), Hin.
    + intros (t & Ht & Hc).
      assert (G : map_get str_eqb (fold_left step rest start) c <> None).
      { rewrite Hget. destruct (str_eqb (currencyName t0) c) eqn:E0;
          [discriminate|].
        destruct Ht as [-> | Ht].
        - rewrite Hc, str_eqb_refl in E0. discriminate.
        - assert (In t (filter (fun t => str_eqb (currencyName t) c) rest)) as Hf
            by (apply filter_In; split; [exact Ht | apply str_eqb_eq, Hc]).
          destruct (filter (fun t => str_eqb (currencyName t) c) rest);
            [contradiction | discriminate]. }
      destruct (map_get str_eqb (fold_left step rest start) c) as [a|] eqn:G';
        [|contradiction].
      apply (map_get_Some_In str_eqb str_eqb_eq) in G'.
      apply in_map_iff. exists (c, a). split; [reflexivity | exact G'].
  - intros c a Hin. apply (map_get_In str_eqb str_eqb_eq _ _ _ Hnd) in Hin.
    rewrite Hget in Hin. destruct (str_eqb (currencyName t0) c).
    + congruence.
    + destruct (filter (fun t => str_eqb (currencyName t) c) rest);
        [discriminate | congruence].
Qed.

(** X16. The product aggregate groups by SKU alone: one entry for every SKU of
    the list and no two entries for a SKU.  An entry carries the title of
    the first transaction of its SKU, the in-order sum of the quantities of
    all of them whatever their currency, and one amount for each of their
    currencies; an amount starts as the extended share of the first
    transaction of the product when that is in its currency, and every
    later share is added to it with a running amount that is NaN or
    missing counted as 0.  No entry is placed before one whose title the
    collation sorts strictly first.  (Stated for currency codes that name
    no property inherited from [Object.prototype].) *)
Theorem byProduct_one_entry_per_sku (localeCompare : str -> str -> Z)
  (ts : list Transaction.t) (bp : list ProductBreakdown.t) :
  (forall a b, (localeCompare a b < 0)%Z -> ~ (localeCompare b a < 0)%Z) ->
  (forall a b c, (localeCompare a b < 0)%Z -> (localeCompare b c < 0)%Z ->
                 (localeCompare a c < 0)%Z) ->
  (forall t, In t ts -> Transaction.title t <> None) ->
  (forall t, In t ts -> inheritedName (currencyName t) = false) ->
  aggregateByProduct localeCompare ts = Ok bp ->
  (forall t, In t ts ->
     exists p, In p bp /\ ProductBreakdown.sku p = Transaction.sku t)
  /\ NoDup (map ProductBreakdown.sku bp)
  /\ (forall p, In p bp ->
        exists t0 rest,
          filter (hasSku (ProductBreakdown.sku p)) ts = t0 :: rest
          /\ ProductBreakdown.title p = Transaction.title t0
          /\ ProductBreakdown.quantity p
             = sumOf (map Transaction.quantity (t0 :: rest))
          /\ NoDup (map fst (ProductBreakdown.proceedsByCurrency p))
          /\ (forall c, In c (map fst (ProductBreakdown.proceedsByCurrency p))
                        <-> exists t, In t (t0 :: rest) /\ currencyName t = c)
          /\ (forall c a, In (c, a) (ProductBreakdown.proceedsByCurrency p) ->
                          a = productAmount c t0 rest))
  /\ StronglySorted
       (fun a b => ~ (localeCompare (toStr (ProductBreakdown.title b))
                                    (toStr (ProductBreakdown.title a)) < 0)%Z)
       bp.
Proof.
  intros Hasym Htrans Hdef _ Hagg.
  pose proof Hagg as Hperm. unfold aggregateByProduct in Hperm.
  apply sortM_perm in Hperm.
  split; [|split; [|split]].
  - intros t Ht.
    destruct (group_covers ostr_eqb ostr_eqb_eq Transaction.sku
                productInit productUpd ts t Ht) as (v & Hv & G).
    rewrite <- productMap_group in Hv, G.
    exists v. split; [apply (Permutation_in _ Hperm), Hv|].
    apply (map_get_Some_In ostr_eqb ostr_eqb_eq) in G.
    symmetry. apply (productMap_keys ts _ _ G).
  - apply (Permutation_NoDup (Permutation_map ProductBreakdown.sku Hperm)).
    rewrite productMap_group.
    apply (group_NoDup_by ostr_eqb ostr_eqb_eq).
    intros k v Hin. rewrite <- productMap_group in Hin.
    apply (productMap_keys ts k v Hin).
  - intros p Hin.
    apply (Permutation_in _ (Permutation_sym Hperm)) in Hin.
    unfold map_values in Hin. apply in_map_iff in Hin.
    destruct Hin as ([k v] & E & Hin). simpl in E. subst v.
    pose proof (productMap_keys ts k p Hin) as Hk.
    rewrite productMap_group in Hin.
    apply (group_entries ostr_eqb ostr_eqb_eq) in Hin.
    destruct Hin as (t0 & rest & F & _ & ->).
    exists t0, rest. rewrite <- Hk. split; [exact F|].
    destruct (productUpd_fold rest (productInit t0)) as (H1 & _ & H3 & _).
    split; [exact H1|]. split; [exact H3|].
    apply (product_amounts t0 rest).
  - unfold aggregateByProduct in Hagg.
    apply (sortM_sorted _
             (fun a b => localeCompare (toStr (ProductBreakdown.title a))
                                       (toStr (ProductBreakdown.title b))))
      in Hagg; [exact Hagg | | |].
    + intros a b. apply Hasym.
    + intros a b c. apply Htrans.
    + intros x y Hx _. destruct (productMap_titles ts x Hx) as (t0 & Ht0 & E).
      rewrite E. specialize (Hdef t0 Ht0).
      destruct (Transaction.title t0); [reflexivity | contradiction].
Qed.

Lemma byProduct_one_entry_per_sku_witness :
  map ProductBreakdown.sku (Summary.byProduct (ParsedReport.summary sampleReport))
  = [Some (lit "app.lite"); Some (lit "app.pro")]
  /\ NoDup (map ProductBreakdown.sku
              (Summary.byProduct (ParsedReport.summary sampleReport))).
Proof.
  split; [vm_compute; reflexivity|].
  refine (proj1 (proj2 (byProduct_one_entry_per_sku codeUnitCompare
            (ParsedReport.transactions sampleReport) _
            codeUnitCompare_asym codeUnitCompare_trans _ _ _))).
  - intros t Ht. vm_compute in Ht.
    repeat (destruct Ht as [<- | Ht]; [discriminate|]). contradiction.
  - intros t Ht. vm_compute in Ht.
    repeat (destruct Ht as [<- | Ht]; [vm_compute; reflexivity|]).
    contradiction.
  - vm_compute. reflexivity.
Defined.

(* ================================================================= *)
(** ** The lines the transaction loop visits *)

Lemma findSummaryLine_le (lines : list str) (delimiter : str) :
  (findSummaryLine lines delimiter <= Z.of_nat (length lines))%Z.
Proof.
  unfold findSummaryLine.
  destruct (findSummaryFrom (length lines) lines delimiter) as [i|] eqn:E;
    [|lia].
  apply findSummaryFrom_Some in E. lia.
Qed.

(** X17. The loop reads inside the array only: every line it decodes lies after
    the header line and before the summary boundary, exists, and is not
    blank. *)
Theorem dataRegion_in_bounds (content : str) (i : nat) :
  In i (dataRegion content) ->
  (headerIndex content < Z.of_nat i < summaryIndex content)%Z
  /\ i < length (nonBlankLines content)
  /\ trim (nth i (nonBlankLines content) []) <> [].
Proof.
  intros Hin. unfold dataRegion, dataIndices in Hin. apply in_seq in Hin.
  assert (Hh : (-1 <= headerIndex content)%Z).
  { unfold headerIndex.
    destruct (findHeaderLine_spec (nonBlankLines content) (delimiterOf content))
      as [[-> _] | (j & -> & _)]; lia. }
  pose proof (findSummaryLine_le (nonBlankLines content) (delimiterOf content))
    as Hs. fold (summaryIndex content) in Hs.
  assert (Hi : i < length (nonBlankLines content)) by lia.
  split; [lia|]. split; [exact Hi|].
  assert (Hnth : In (nth i (nonBlankLines content) []) (nonBlankLines content))
    by (apply nth_In; exact Hi).
  unfold nonBlankLines in Hnth at 2. apply filter_In in Hnth.
  destruct Hnth as [_ Ht]. destruct (trim _); [discriminate | discriminate].
Qed.

Lemma dataRegion_in_bounds_witness :
  In 4 (dataRegion sampleFile)
  /\ 4 < length (nonBlankLines sampleFile).
Proof.
  assert (H : In 4 (dataRegion sampleFile)) by (vm_compute; auto).
  split; [exact H|].
  exact (proj1 (proj2 (dataRegion_in_bounds sampleFile 4 H))).
Defined.

(* ================================================================= *)
(** ** generateCSV *)

(* ================================================================= *)
(** ** generateCSV *)

Section MapMSpec.
Context {A B : Type} (f : A -> result B) (P : A -> Prop).
Hypothesis f_spec :
  forall x, (P x /\ exists y, f x = Ok y) \/ (~ P x /\ f x = Throw TypeError).

(** A loop over [l] with a body that returns on [P] and raises a TypeError
    otherwise. *)
Lemma mapM_spec (l : list A) :
  (Forall P l /\ exists ys, mapM f l = Ok ys)
  \/ (~ Forall P l /\ mapM f l = Throw TypeError).
Proof.
  induction l as [|x l IH]; cbn [mapM].
  - left. split; [constructor | eexists; reflexivity].
  - destruct (f_spec x) as [[Hx [y ->]] | [Hx ->]]; simpl.
    + destruct IH as [[Hl [ys ->]] | [Hl ->]]; simpl.
      * left. split; [constructor; assumption | eexists; reflexivity].
      * right. split; [|reflexivity]. intros H. inversion H. contradiction.
    + right. split; [|reflexivity]. intros H. inversion H. contradiction.
Qed.
End MapMSpec.

Section ExporterFacts.
Variable toFixed2 : number -> str.
Variable numberToString : number -> str.
Variable isoNow : str.

Lemma currencyLine_spec (c : CurrencySummary.t) :
  (CurrencySummary.totalProceeds c <> None
   /\ exists s, currencyLine toFixed2 numberToString c = Ok s)
  \/ (~ CurrencySummary.totalProceeds c <> None
      /\ currencyLine toFixed2 numberToString c = Throw TypeError).
Proof.
  unfold currencyLine. destruct (CurrencySummary.totalProceeds c); simpl.
  - left. split; [discriminate | eexists; reflexivity].
  - right. split; [intuition congruence | reflexivity].
Qed.

Lemma countryLine_spec (c : CountryBreakdown.t) :
  (CountryBreakdown.countryOfSale c <> None /\ CountryBreakdown.proceeds c <> None
   /\ exists s, countryLine toFixed2 numberToString c = Ok s)
  \/ (~ (CountryBreakdown.countryOfSale c <> None
         /\ CountryBreakdown.proceeds c <> None)
      /\ countryLine toFixed2 numberToString c = Throw TypeError).
Proof.
  unfold countryLine.
  destruct (CountryBreakdown.countryOfSale c), (CountryBreakdown.proceeds c);
    simpl;
    first [ left; split; [discriminate|]; split; [discriminate|];
            eexists; reflexivity
          | right; split; [intuition congruence | reflexivity] ].
Qed.

Lemma amountText_spec (entry : str * option number) :
  (snd entry <> None /\ exists s, amountText toFixed2 entry = Ok s)
  \/ (~ snd entry <> None /\ amountText toFixed2 entry = Throw TypeError).
Proof.
  unfold amountText. destruct (snd entry); simpl.
  - left. split; [discriminate | eexists; reflexivity].
  - right. split; [intuition congruence | reflexivity].
Qed.

Lemma productLine_spec (p : ProductBreakdown.t) :
  ((Forall (fun entry : str * option number => snd entry <> None)
           (ProductBreakdown.proceedsByCurrency p)
    /\ ProductBreakdown.title p <> None /\ ProductBreakdown.sku p <> None)
   /\ exists s, productLine toFixed2 numberToString p = Ok s)
  \/ (~ (Forall (fun entry : str * option number => snd entry <> None)
                (ProductBreakdown.proceedsByCurrency p)
         /\ ProductBreakdown.title p <> None /\ ProductBreakdown.sku p <> None)
      /\ productLine toFixed2 numberToString p = Throw TypeError).
Proof.
  unfold productLine.
  destruct (mapM_spec (amountText toFixed2) _ amountText_spec
              (ProductBreakdown.proceedsByCurrency p))
    as [[Ha [ys ->]] | [Ha ->]]; simpl.
  - destruct (ProductBreakdown.title p), (ProductBreakdown.sku p); simpl;
      first [ left; split; [split; [exact Ha|]; split; discriminate|];
              eexists; reflexivity
            | right; split; [intuition congruence | reflexivity] ].
  - right. split; [|reflexivity]. intros [H _]. contradiction.
Qed.

Lemma transactionLine_spec (t : Transaction.t) :
  ((Transaction.countryOfSale t <> None /\ Transaction.title t <> None
    /\ Transaction.sku t <> None /\ Transaction.partnerShare t <> None)
   /\ exists s, transactionLine toFixed2 numberToString t = Ok s)
  \/ (~ (Transaction.countryOfSale t <> None /\ Transaction.title t <> None
         /\ Transaction.sku t <> None /\ Transaction.partnerShare t <> None)
      /\ transactionLine toFixed2 numberToString t = Throw TypeError).
Proof.
  unfold transactionLine.
  destruct (Transaction.countryOfSale t), (Transaction.title t),
    (Transaction.sku t), (Transaction.partnerShare t); simpl;
    first [ left; split; [repeat split; discriminate|]; eexists; reflexivity
          | right; split; [intuition congruence | reflexivity] ].
Qed.

(** The lines are built exactly for an exportable report; any other report
    makes the construction raise a TypeError. *)
Lemma csvLines_spec (report : ParsedReport.t) :
  (Exportable report
   /\ exists lines, csvLines toFixed2 numberToString isoNow report = Ok lines)
  \/ (~ Exportable report
      /\ csvLines toFixed2 numberToString isoNow report = Throw TypeError).
Proof.
  unfold csvLines, Exportable. cbv zeta.
  destruct (mapM_spec (currencyLine toFixed2 numberToString) _ currencyLine_spec
              (Summary.byCurrency (ParsedReport.summary report)))
    as [[Hu [us ->]] | [Hu ->]]; cbn [bind];
    [|right; split; [intros [H _]; contradiction | reflexivity]].
  destruct (mapM_spec (countryLine toFixed2 numberToString)
              (fun c => CountryBreakdown.countryOfSale c <> None
                        /\ CountryBreakdown.proceeds c <> None)
              (fun c => match countryLine_spec c with
                        | or_introl (conj a (conj b e)) => or_introl (conj (conj a b) e)
                        | or_intror h => or_intror h
                        end)
              (Summary.byCountry (ParsedReport.summary report)))
    as [[Hc [cs ->]] | [Hc ->]]; cbn [bind];
    [|right; split; [intros (_ & H & _); contradiction | reflexivity]].
  destruct (mapM_spec (productLine toFixed2 numberToString) _ productLine_spec
              (Summary.byProduct (ParsedReport.summary report)))
    as [[Hp [ps Ep]] | [Hp Ep]].
  - rewrite Ep.
    destruct (mapM_spec (transactionLine toFixed2 numberToString) _
                transactionLine_spec (ParsedReport.transactions report))
      as [[Ht [ds ->]] | [Ht ->]];
      destruct (Nat.ltb 0 _); cbn [bind];
      first [ left; split; [auto | eexists; reflexivity]
            | right; split; [intros (_ & _ & _ & H); contradiction | reflexivity] ].
  - destruct (Summary.byProduct (ParsedReport.summary report)) as [|p l];
      [exfalso; apply Hp; constructor|].
    cbn [length Nat.ltb Nat.leb]. rewrite Ep. cbn [bind].
    right. split; [intros (_ & _ & H & _); contradiction | reflexivity].
Qed.

(** X18. generateCSV returns exactly for a report in which every value it calls
    a method on is defined, and raises a TypeError, never anything else,
    for every other report. *)
Theorem generateCSV_returns_iff (report : ParsedReport.t) :
  ((exists csv, generateCSV toFixed2 numberToString isoNow report = Ok csv)
   <-> Exportable report)
  /\ (generateCSV toFixed2 numberToString isoNow report = Throw TypeError
      <-> ~ Exportable report)
  /\ forall e, generateCSV toFixed2 numberToString isoNow report = Throw e ->
               e = TypeError.
Proof.
  unfold generateCSV.
  destruct (csvLines_spec report) as [[He [lines ->]] | [He ->]]; simpl.
  - split; [split; [intros _; exact He | intros _; eexists; reflexivity]|].
    split; [split; [discriminate | intros H; contradiction]|].
    intros e; discriminate.
  - split; [split; [intros [csv H]; discriminate | intros H; contradiction]|].
    split; [split; [intros _; exact He | reflexivity]|].
    intros e [= <-]. reflexivity.
Qed.

End ExporterFacts.

(* ----------------------------------------------------------------- *)
(** *** Exporting what the parser returns *)

(** A retained transaction has the field [k] exactly when the header has a
    column for [k]. *)
Lemma retained_field (k : Key) (content : str) (t : Transaction.t) :
  In t (retainedTransactions content) ->
  (lastColumn k (headersOf content) = None -> field k t = None)
  /\ (lastColumn k (headersOf content) <> None -> field k t <> None).
Proof.
  intros H. apply in_map_iff in H. destruct H as (i & <- & _).
  pose proof (decodeFrom_field k (headersOf content) (rowAt content i)
                0 Transaction.empty) as F.
  fold (decoded content i) in F. split; intros E.
  - rewrite E in F. rewrite F. destruct k; reflexivity.
  - destruct (lastColumn k (headersOf content)); [|contradiction].
    rewrite F. discriminate.
Qed.

Lemma fold_jsAdd_defined (rest : list (option number)) (v : option number) :
  v <> None -> fold_left jsAdd rest v <> None.
Proof.
  revert v; induction rest as [|x rest IH]; intros v Hv; [exact Hv|].
  simpl. apply IH. discriminate.
Qed.

Lemma map_set_Forall {K V : Type} (eqb : K -> K -> bool) (P : K * V -> Prop)
  (m : list (K * V)) (k : K) (v : V) :
  Forall P m -> (forall k', P (k', v)) -> Forall P (map_set eqb m k v).
Proof.
  intros Hm Hv. induction Hm as [|[k0 v0] m H0 Hm IH]; simpl.
  - constructor; [apply Hv | constructor].
  - destruct (eqb k0 k); constructor; auto.
Qed.

Lemma productUpd_amounts_defined (rest : list Transaction.t)
  (e : ProductBreakdown.t) :
  Forall (fun entry : str * option number => snd entry <> None)
         (ProductBreakdown.proceedsByCurrency e) ->
  Forall (fun entry : str * option number => snd entry <> None)
         (ProductBreakdown.proceedsByCurrency (fold_left productUpd rest e)).
Proof.
  revert e; induction rest as [|t rest IH]; intros e He; [exact He|].
  simpl. apply IH. unfold productUpd. cbn [ProductBreakdown.proceedsByCurrency].
  apply map_set_Forall; [exact He|]. intros k'. discriminate.
Qed.

(** The aggregates of transactions that all carry a country, a title, a
    SKU, a partner share and an extended partner share, together with
    those transactions, make an exportable report. *)
Lemma aggregates_exportable (localeCompare : str -> str -> Z)
  (r : ParsedReport.t) :
  aggregateByCountry localeCompare (ParsedReport.transactions r)
  = Ok (Summary.byCountry (ParsedReport.summary r)) ->
  aggregateByProduct localeCompare (ParsedReport.transactions r)
  = Ok (Summary.byProduct (ParsedReport.summary r)) ->
  aggregateByCurrency localeCompare (ParsedReport.transactions r)
  = Ok (Summary.byCurrency (ParsedReport.summary r)) ->
  (forall t, In t (ParsedReport.transactions r) ->
     Transaction.countryOfSale t <> None /\ Transaction.title t <> None
     /\ Transaction.sku t <> None /\ Transaction.partnerShare t <> None
     /\ Transaction.extendedPartnerShare t <> None) ->
  Exportable r.
Proof.
  intros Hc Hp Hu Hts. unfold Exportable.
  split; [|split; [|split]]; apply Forall_forall.
  - intros u Hin.
    destruct (byCurrency_entry localeCompare _ _ u Hu Hin)
      as (t0 & rest & F & _ & _ & ->).
    apply filter_head_In in F. destruct F as [H0 _].
    simpl. apply fold_jsAdd_defined. apply (Hts t0 H0).
  - intros e Hin.
    destruct (byCountry_entry localeCompare _ _ e Hc Hin)
      as (t0 & rest & F & -> & _ & _ & ->).
    apply filter_head_In in F. destruct F as [H0 _].
    split; [apply (Hts t0 H0)|].
    simpl. apply fold_jsAdd_defined. apply (Hts t0 H0).
  - intros p Hin. unfold aggregateByProduct in Hp. apply sortM_perm in Hp.
    apply (Permutation_in _ (Permutation_sym Hp)) in Hin.
    unfold map_values in Hin. apply in_map_iff in Hin.
    destruct Hin as ([k v] & E & Hin). simpl in E. subst v.
    rewrite productMap_group in Hin.
    apply (group_entries ostr_eqb ostr_eqb_eq) in Hin.
    destruct Hin as (t0 & rest & F & _ & ->).
    apply filter_head_In in F. destruct F as [H0 _].
    destruct (productUpd_fold rest (productInit t0)) as (-> & -> & _ & _).
    split; [|split; apply (Hts t0 H0)].
    apply productUpd_amounts_defined. cbn [productInit ProductBreakdown.proceedsByCurrency].
    constructor; [apply (Hts t0 H0) | constructor].
  - intros t Hin. destruct (Hts t Hin) as (H1 & H2 & H3 & H4 & _). auto.
Qed.

Lemma field_defined (k : Key) (t : Transaction.t) :
  (field k t = None ->
   match k with
   | K_title => Transaction.title t = None
   | K_sku => Transaction.sku t = None
   | K_partnerShare => Transaction.partnerShare t = None
   | K_extendedPartnerShare => Transaction.extendedPartnerShare t = None
   | _ => True
   end)
  /\ (field k t <> None ->
      match k with
      | K_title => Transaction.title t <> None
      | K_sku => Transaction.sku t <> None
      | K_partnerShare => Transaction.partnerShare t <> None
      | K_extendedPartnerShare => Transaction.extendedPartnerShare t <> None
      | _ => True
      end).
Proof.
  destruct k; cbn [field]; split; intros H; try exact I;
    match goal with
    | H : option_map _ ?x = None |- _ => destruct x; [discriminate | reflexivity]
    | H : option_map _ ?x <> None |- _ =>
        destruct x; [discriminate | exfalso; apply H; reflexivity]
    end.
Qed.

(** X19. Exporting a parsed report.  A report with no transaction always
    exports.  When the header has the columns [Title], [SKU],
    [Partner Share] and [Extended Partner Share] (and no currency code
    names an inherited property), the report exports.  When the report has
    a transaction and the header lacks [Title], [SKU] or [Partner Share],
    a column the validation does not require, generateCSV raises a
    TypeError. *)
Theorem generateCSV_of_parsed (toFixed2 numberToString : number -> str)
  (isoNow : str) (localeCompare : str -> str -> Z) (content : str)
  (r : ParsedReport.t) :
  parseAppleReport localeCompare content = Ok r ->
  let absent k := lastColumn k (headersOf content) = None in
  (ParsedReport.transactions r = [] ->
   exists csv, generateCSV toFixed2 numberToString isoNow r = Ok csv)
  /\ (~ absent K_title -> ~ absent K_sku -> ~ absent K_partnerShare ->
      ~ absent K_extendedPartnerShare ->
      (forall t, In t (ParsedReport.transactions r) ->
                 inheritedName (currencyName t) = false) ->
      exists csv, generateCSV toFixed2 numberToString isoNow r = Ok csv)
  /\ (ParsedReport.transactions r <> [] ->
      absent K_title \/ absent K_sku \/ absent K_partnerShare ->
      generateCSV toFixed2 numberToString isoNow r = Throw TypeError).
Proof.
  intros Hparse absent.
  destruct (parseAppleReport_Ok localeCompare content r Hparse)
    as (_ & _ & Hts & Hc & Hp & Hu & _).
  fold (retainedTransactions content) in Hts.
  assert (Hexp : (forall t, In t (ParsedReport.transactions r) ->
                    Transaction.countryOfSale t <> None /\ Transaction.title t <> None
                    /\ Transaction.sku t <> None /\ Transaction.partnerShare t <> None
                    /\ Transaction.extendedPartnerShare t <> None) ->
                 exists csv, generateCSV toFixed2 numberToString isoNow r = Ok csv).
  { intros H. unfold generateCSV.
    destruct (csvLines_spec toFixed2 numberToString isoNow r)
      as [[_ [lines ->]] | [He _]].
    - simpl. eexists. reflexivity.
    - exfalso. apply He.
      apply (aggregates_exportable localeCompare r Hc Hp Hu H). }
  split; [|split].
  - intros E. apply Hexp. rewrite E. intros t [].
  - intros H1 H2 H3 H4 _. apply Hexp. intros t Ht. rewrite Hts in Ht.
    split; [apply (retainedTransactions_fields content t Ht)|].
    split; [apply (field_defined K_title t), (retained_field K_title content t Ht), H1|].
    split; [apply (field_defined K_sku t), (retained_field K_sku content t Ht), H2|].
    split; [apply (field_defined K_partnerShare t),
              (retained_field K_partnerShare content t Ht), H3|].
    apply (field_defined K_extendedPartnerShare t),
      (retained_field K_extendedPartnerShare content t Ht), H4.
  - intros Hne Habs. unfold generateCSV.
    destruct (csvLines_spec toFixed2 numberToString isoNow r)
      as [[He _] | [_ ->]]; [|reflexivity].
    exfalso. destruct He as (_ & _ & _ & He).
    destruct (ParsedReport.transactions r) as [|t l] eqn:E; [contradiction|].
    apply Forall_inv in He. destruct He as (_ & T1 & T2 & T3).
    assert (Ht : In t (retainedTransactions content))
      by (rewrite <- Hts; left; reflexivity).
    destruct Habs as [Ha | [Ha | Ha]].
    + apply T1. apply (field_defined K_title t),
        (retained_field K_title content t Ht), Ha.
    + apply T2. apply (field_defined K_sku t),
        (retained_field K_sku content t Ht), Ha.
    + apply T3. apply (field_defined K_partnerShare t),
        (retained_field K_partnerShare content t Ht), Ha.
Qed.

Lemma exportFile_parses :
  parseAppleReport codeUnitCompare exportFile = Ok exportReport.
Proof. vm_compute. reflexivity. Qed.

Lemma generateCSV_of_parsed_witness :
  ValidationResult.valid (validateReport sampleFile (detectDelimiter sampleFile))
  = true
  /\ generateCSV (fun _ => lit "0.00") (fun _ => lit "0") (lit "2024-02-01T00:00:00.000Z")
       sampleReport = Throw TypeError
  /\ exists csv,
       generateCSV (fun _ => lit "0.00") (fun _ => lit "0")
         (lit "2024-02-01T00:00:00.000Z") exportReport = Ok csv.
Proof.
  split; [vm_compute; reflexivity|]. split.
  - apply (proj2 (proj2 (generateCSV_of_parsed (fun _ => lit "0.00")
              (fun _ => lit "0") (lit "2024-02-01T00:00:00.000Z")
              codeUnitCompare sampleFile sampleReport sampleFile_parses))).
    + vm_compute. discriminate.
    + right. right. vm_compute. reflexivity.
  - apply (proj1 (proj2 (generateCSV_of_parsed (fun _ => lit "0.00")
              (fun _ => lit "0") (lit "2024-02-01T00:00:00.000Z")
              codeUnitCompare exportFile exportReport exportFile_parses)));
      try (vm_compute; discriminate).
    intros t Ht. vm_compute in Ht.
    repeat (destruct Ht as [<- | Ht]; [vm_compute; reflexivity|]).
    contradiction.
Defined.
